(** * Pipeline-builder specifications of arcana: a shallow embedding

    The definitions below follow [arcana/core/analysis.py]: the condition
    expressions ([Operation]), the specification records ([ColumnSpec],
    [Parameter], [Switch], [PipelineBuilder], [Check], [SubanalysisSpec],
    [AnalysisSpec]) with their validators, the [Subanalysis] wrapper, the
    dispatcher [select_pipeline_builders], the inheritance merge of
    [make_class] and [_parameter_validator].

    Python exceptions are values of [exn]; a computation that may raise
    returns a [result].  Objects that are shared and mutated (analysis
    instances and subanalysis wrappers) live in a store indexed by object
    identity. *)

From Stdlib Require Import QArith.
From stdpp Require Import base decidable option list strings gmap.

Open Scope string_scope.
Open Scope Z_scope.
Open Scope list_scope.

(** ** Plain Python data *)

(** A class object: its name and the names along its [__mro__] (the class
    itself first).  Class identity ([is]) is identity of the name. *)
Record PyClass := mkClass { cls_name : string; cls_mro : list string }.

Global Instance PyClass_eq_dec : EqDecision PyClass.
Proof. solve_decision. Defined.

(** A number: an [int] or a [float].  An [int] is its value.  The module
    only compares numbers ([==], [in], [>=], [<=]) and tests their truth
    value; it never tests their type nor computes with them.  As
    [1.0 == 1] (with equal hashes), a float that has the value of an integer
    is that integer.  Every other finite float is a fraction
    [(2 * k + 1) / 2 ^ e] with [e >= 1], which is written in one way only;
    the remaining floats are the two infinities and the NaNs.  A NaN is equal
    to nothing, but [x in l] also holds for an item of [l] that is the object
    [x] itself: [id] is the identity of the NaN object. *)
Inductive Number :=
  | NInt (z : Z)
  | NFrac (k : Z) (e : positive)
  | NInf (negative : bool)
  | NNaN (id : positive).

Global Instance Number_eq_dec : EqDecision Number.
Proof. solve_decision. Defined.

(** The value of a finite number. *)
Definition rational (n : Number) : option Q :=
  match n with
  | NInt z => Some (inject_Z z)
  | NFrac k e => Some (Qmake (2 * k + 1) (2 ^ e))
  | NInf _ | NNaN _ => None
  end.

(** [a <= b] on two numbers ([b >= a] is the same test): ints and floats are
    compared by their exact values, an infinity lies beyond every finite
    number, and a comparison with a NaN is false. *)
Definition num_leb (a b : Number) : bool :=
  match a, b with
  | NNaN _, _ | _, NNaN _ => false
  | NInf true, _ => true
  | _, NInf false => true
  | NInf false, _ => false
  | _, NInf true => false
  | _, _ =>
      match rational a, rational b with
      | Some x, Some y => Qle_bool x y
      | _, _ => false
      end
  end.

(** Plain data: [None], numbers, strings and classes.  [bool] is a subclass
    of [int] with [True == 1] and [False == 0] (and equal hashes), and the
    code only ever compares data or tests its truth value, so [True] and
    [False] are the integers [1] and [0].  With the numbers as above, two
    plain values are the same exactly when Python's [in] takes them for the
    same item. *)
Inductive Atom :=
  | ANone
  | ANum (n : Number)
  | AStr (s : string)
  | AClass (c : PyClass).

Abbreviation AInt z := (ANum (NInt z)).

Global Instance Atom_eq_dec : EqDecision Atom.
Proof. solve_decision. Defined.

(** ** Condition expressions *)

(** [Operation(operator, operands)]: an operand is either a plain value (an
    attribute name or a literal, as [_UnresolvedOp.resolve] leaves them) or a
    nested [Operation]. *)
Inductive Operation :=
  | mkOperation (operator : string) (operands : list Operand)
with Operand :=
  | Plain (a : Atom)
  | Nested (o : Operation).

Definition operator (o : Operation) : string :=
  match o with mkOperation op _ => op end.
Definition operands (o : Operation) : list Operand :=
  match o with mkOperation _ os => os end.

Definition Operation_eq_dec : ∀ a b : Operation, {a = b} + {a ≠ b}.
Proof.
  fix IH 1. intros [o1 l1] [o2 l2].
  destruct (decide (o1 = o2)) as [->|]; [|right; congruence].
  assert ({l1 = l2} + {l1 ≠ l2}) as [->|].
  { revert l2. induction l1 as [|x l1 IHl]; intros [|y l2];
      try (right; discriminate); [left; reflexivity|].
    destruct (IHl l2) as [->|]; [|right; congruence].
    destruct x as [v|p], y as [w|q]; try (right; discriminate).
    - destruct (decide (v = w)) as [->|]; [left|right]; congruence.
    - destruct (IH p q) as [->|]; [left|right]; congruence. }
  - left; reflexivity.
  - right; congruence.
Defined.

Global Instance Operation_eq_decision : EqDecision Operation := Operation_eq_dec.

(** ** Specification records *)

(** A member of the [ColumnSalience] enum: members are [(level, desc)] pairs
    and are compared through [level]. *)
Record ColumnSalience := mkSalience { salience_name : string; level : Z }.

Global Instance ColumnSalience_eq_dec : EqDecision ColumnSalience.
Proof. solve_decision. Defined.

Module ColumnSalience.
(** Modelled from the spec: the members of the enum, which is declared in
    [arcana.core.enum].  The spec ranks salience "from temp up to primary",
    with [publication] below [primary]; the levels are those of the
    salience table in [arcana2/data/enum.py]. *)
Definition primary := mkSalience "primary" 5.
Definition publication := mkSalience "publication" 4.
Definition supporting := mkSalience "supporting" 3.
Definition qa := mkSalience "qa" 2.
Definition debug := mkSalience "debug" 1.
Definition temp := mkSalience "temp" 0.
End ColumnSalience.

Record ColumnSpec := mkColumnSpec {
  c_name : string;
  c_type : PyClass;
  c_desc : string;
  c_row_frequency : string;
  c_salience : ColumnSalience;
  c_defined_in : list string;
  c_modified : list (string * Atom);
  c_mapped_from : option (string * string)  (* sub-analysis name, column name *)
}.

(** The [Parameter] class ([Parameter] and [Check] are reserved words here). *)
Record ParameterSpec := mkParameter {
  p_name : string;
  p_type : PyClass;
  p_desc : string;
  p_salience : string;
  choices : option (list Atom);
  lower_bound : option Number;
  upper_bound : option Number;
  p_defined_in : list string;
  p_modified : list (string * Atom);
  p_default : Atom;
  p_mapped_from : option (string * string)
}.

(** [method] and [defined_in] hold a function and a class; both are compared
    by identity, which their qualified names stand for. *)
Record Switch := mkSwitch {
  s_name : string;
  s_desc : string;
  s_inputs : list string;
  s_parameters : list string;
  s_method : string;
  s_defined_in : string
}.

Record PipelineBuilder := mkPipelineBuilder {
  name : string;
  desc : string;
  parameters_used : list string;
  inputs : list string;
  outputs : list string;
  condition : option Operation;
  switch : option Switch;
  method : string;
  defined_in : string
}.

Record CheckSpec := mkCheck {
  k_name : string;
  k_column : string;
  k_desc : string;
  k_inputs : list string;
  k_parameters : list string;
  k_salience : string;
  k_method : string;
  k_defined_in : string
}.

Record SubanalysisSpec := mkSubanalysisSpec {
  sa_name : string;
  sa_desc : string;
  sa_type : string;
  mappings : list (string * string);  (* name in subanalysis, name in analysis class *)
  sa_defined_in : list string
}.

Record AnalysisSpec := mkAnalysisSpec {
  space : string;
  column_specs : list ColumnSpec;
  pipeline_builders : list PipelineBuilder;
  parameters : list ParameterSpec;
  switches : list Switch;
  checks : list CheckSpec;
  subanalyses : list SubanalysisSpec
}.

Global Instance ColumnSpec_eq_dec : EqDecision ColumnSpec.
Proof. solve_decision. Defined.
Global Instance ParameterSpec_eq_dec : EqDecision ParameterSpec.
Proof. solve_decision. Defined.
Global Instance Switch_eq_dec : EqDecision Switch.
Proof. solve_decision. Defined.
Global Instance PipelineBuilder_eq_dec : EqDecision PipelineBuilder.
Proof. solve_decision. Defined.
Global Instance CheckSpec_eq_dec : EqDecision CheckSpec.
Proof. solve_decision. Defined.
Global Instance SubanalysisSpec_eq_dec : EqDecision SubanalysisSpec.
Proof. solve_decision. Defined.
Global Instance AnalysisSpec_eq_dec : EqDecision AnalysisSpec.
Proof. solve_decision. Defined.

(** ** Exceptions and results *)

(** The [ArcanaDesignError]s of this module, told apart by their message. *)
Inductive design_error :=
  | NoMatchingBuilders (candidates : list PipelineBuilder)
  | MultipleMatchingBuilders (with_duplicate_switches : list PipelineBuilder)
  | MultipleProviders (column : string)
      (duplicated : list ((option Operation * option Switch) * list PipelineBuilder))
  | NeitherInputNorOutput (column : string)
  | NotGenerated (column : string)
  | UnknownOutputColumns (builder : string) (missing_outputs : list string)
  | OverwrittenWithoutInherited (overwritten : list string)
  | MissingOutputs (missing_outputs : list string) (builder : string).

Inductive value_error :=
  | DuplicateNames (duplicates : list string)
  | NotAValidValue
  | NotWithinBounds
  | RedefinedSpace.

Inductive exn :=
  | ArcanaDesignError (e : design_error)
  | ValueError (e : value_error)
  | AttributeError
  | TypeError
  | KeyError
  | IndexError
  | AssertionError
  | StopIteration
  | RecursionError.

Inductive result (A : Type) :=
  | Ok (a : A)
  | Raise (e : exn).
Arguments Ok {A} a.
Arguments Raise {A} e.

Global Instance result_ret : MRet result := λ A, Ok.
Global Instance result_bind : MBind result := λ A B f m,
  match m with Ok a => f a | Raise e => Raise e end.

Definition is_ok {A} (r : result A) : bool :=
  match r with Ok _ => true | Raise _ => false end.

(** [assert c] *)
Definition assert (c : Prop) `{Decision c} : result unit :=
  if decide c then Ok () else Raise AssertionError.

(** [next(it)] on a generator whose remaining items are [it]. *)
Definition next {A} (it : list A) : result A :=
  match it with
  | x :: _ => Ok x
  | [] => Raise StopIteration
  end.

(** [l[i]] *)
Definition getitem {A} (l : list A) (i : nat) : result A :=
  match l !! i with
  | Some x => Ok x
  | None => Raise IndexError
  end.

(** ** Objects *)

Definition oid := positive.

(** A Python value as the module passes it around: plain data, a reference to
    an object of the store, a specification record, or any other object (a
    function, a bound method, ...), which the module does not look into and
    which its qualified name stands for. *)
Inductive Value :=
  | VAtom (a : Atom)
  | VRef (o : oid)
  | VSubanalysisSpec (s : SubanalysisSpec)
  | VAnalysisSpec (s : AnalysisSpec)
  | VObject (qualname : string).

Global Instance Value_eq_dec : EqDecision Value.
Proof. solve_decision. Defined.

Abbreviation VNone := (VAtom ANone).
Abbreviation VStr s := (VAtom (AStr s)).
Abbreviation VInt z := (VAtom (AInt z)).
Abbreviation VTrue := (VAtom (AInt 1)).
Abbreviation VFalse := (VAtom (AInt 0)).

(** Truth value of a Python object ([bool(v)]). *)
Definition truthy (v : Value) : bool :=
  match v with
  | VAtom ANone => false
  | VAtom (AInt z) => bool_decide (z ≠ 0)
  | VAtom (AStr s) => bool_decide (s ≠ "")
  | _ => true
  end.

(** An instance of an analysis class: [__spec__] is the class attribute set by
    [make_class]; [slots] holds the instance attributes that [attrs.define]
    creates (column bindings, parameter values, subanalysis wrappers and
    [_dataset]). *)
Record Analysis := mkAnalysis {
  __spec__ : AnalysisSpec;
  slots : gmap string Value
}.

(** The [Subanalysis] wrapper; its three fields are untyped at run time.
    [_type] is the class of the object as the normal attribute lookup sees
    it: the attributes that are found on [Subanalysis] and on [object], its
    methods and special attributes such as [__class__] and [__doc__], other
    than the three fields. *)
Record Subanalysis := mkSubanalysis {
  _type : gmap string Value;
  _spec : Value;
  _analysis : Value;
  _parent : Value
}.

Inductive Obj :=
  | Instance (a : Analysis)
  | Wrapper (s : Subanalysis).

Abbreviation Heap := (gmap oid Obj).

(** Modelled from the spec: the dataset collaborator ([Dataset] and
    [DataColumn] are declared in [arcana.core.data]), which the module uses
    only as the lookup [dataset[name]] of a column that has a [format]. *)
Record DataColumn := mkDataColumn { dc_name : string; format : PyClass }.
Abbreviation Dataset := (gmap string DataColumn).

(** ** Loops and comprehensions that may raise *)

(** [for x in l: f(x)], stopping at the first exception. *)
Fixpoint for_each {A} (f : A → result unit) (l : list A) : result unit :=
  match l with
  | [] => Ok ()
  | x :: l' => _ ← f x; for_each f l'
  end.

(** [[x for x in l if f(x)]] where evaluating [f(x)] may raise. *)
Fixpoint filter_r {A} (f : A → result bool) (l : list A) : result (list A) :=
  match l with
  | [] => Ok []
  | x :: l' =>
      b ← f x;
      rest ← filter_r f l';
      Ok (if b : bool then x :: rest else rest)
  end.

(** [l.count(x)] *)
Definition count `{EqDecision A} (x : A) (l : list A) : nat :=
  length (filter (λ y, y = x) l).

(** [sorted(l, key=attrgetter("name"))]: a stable sort on the name. *)
Fixpoint insert_sorted {A} (key : A → string) (x : A) (l : list A) : list A :=
  match l with
  | [] => [x]
  | y :: l' =>
      if String.leb (key x) (key y) then x :: y :: l'
      else y :: insert_sorted key x l'
  end.

Definition sorted {A} (key : A → string) (l : list A) : list A :=
  foldr (insert_sorted key) [] l.

(** ** [SubanalysisSpec.mapping] *)

Definition mapping (self : SubanalysisSpec) (nm : string) : result string :=
  match next (snd <$> filter (λ m, nm = m.1) (mappings self)) with
  | Ok mapped_name => Ok mapped_name
  | Raise StopIteration => Raise KeyError
  | Raise e => Raise e
  end.

(** ** [AnalysisSpec]: validators and lookups *)

Definition unique_names {A} (name_of : A → string) (val : list A) : result unit :=
  let names := name_of <$> val in
  let duplicates := filter (λ v, (1 < count (name_of v) names)%nat) val in
  match duplicates with
  | [] => Ok ()
  | _ => Raise (ValueError (DuplicateNames (name_of <$> duplicates)))
  end.

Abbreviation group_key := (option Operation * option Switch)%type.

(** [d[k].append(p)] on a [defaultdict(list)]; the dictionary keeps its keys
    in insertion order. *)
Fixpoint append_to (k : group_key) (p : PipelineBuilder)
    (d : list (group_key * list PipelineBuilder)) :
    list (group_key * list PipelineBuilder) :=
  match d with
  | [] => [(k, [p])]
  | (k', ps) :: d' =>
      if decide (k' = k) then (k', ps ++ [p]) :: d'
      else (k', ps) :: append_to k p d'
  end.

(** The body of the loop that fills [sorted_by_cond] for a column. *)
Definition file_builder (column_spec : ColumnSpec)
    (d : list (group_key * list PipelineBuilder)) (pipe_spec : PipelineBuilder) :
    list (group_key * list PipelineBuilder) :=
  if decide (c_name column_spec ∈ outputs pipe_spec)
  then append_to (condition pipe_spec, switch pipe_spec) pipe_spec d
  else d.

Definition sorted_by_cond (builders : list PipelineBuilder) (column_spec : ColumnSpec) :
    list (group_key * list PipelineBuilder) :=
  foldl (file_builder column_spec) [] builders.

(** The body of the loop of [column_specs_validator]. *)
Definition validate_column_spec (builders : list PipelineBuilder) (column_spec : ColumnSpec) :
    result unit :=
  let d := sorted_by_cond builders column_spec in
  let duplicated := filter (λ cd, (1 < length cd.2)%nat) d in
  match duplicated with
  | _ :: _ => Raise (ArcanaDesignError (MultipleProviders (c_name column_spec) duplicated))
  | [] =>
      match d, c_mapped_from column_spec with
      | [], None =>
          let inputs_to := filter (λ p, c_name column_spec ∈ inputs p) builders in
          match inputs_to with
          | [] => Raise (ArcanaDesignError (NeitherInputNorOutput (c_name column_spec)))
          | _ :: _ =>
              if decide (level (c_salience column_spec) ≤ level ColumnSalience.publication)
              then Raise (ArcanaDesignError (NotGenerated (c_name column_spec)))
              else Ok ()
          end
      | _, _ => Ok ()
      end
  end.

Definition column_specs_validator (self : AnalysisSpec) (column_specs : list ColumnSpec) :
    result unit :=
  for_each (validate_column_spec (pipeline_builders self)) column_specs.

(** The body of the loop of [pipeline_builders_validator]. *)
Definition validate_pipeline_builder (self : AnalysisSpec) (pipeline_builder : PipelineBuilder) :
    result unit :=
  let missing_outputs :=
    filter (λ o, o ∉ c_name <$> column_specs self) (outputs pipeline_builder) in
  match missing_outputs with
  | [] => Ok ()
  | _ => Raise (ArcanaDesignError
                  (UnknownOutputColumns (name pipeline_builder) missing_outputs))
  end.

Definition pipeline_builders_validator (self : AnalysisSpec)
    (pipeline_builders : list PipelineBuilder) : result unit :=
  for_each (validate_pipeline_builder self) pipeline_builders.

(** The validators of the fields, in the order [attrs] runs them when an
    [AnalysisSpec] is constructed. *)
Definition validate (self : AnalysisSpec) : result unit :=
  _ ← unique_names c_name (column_specs self);
  _ ← column_specs_validator self (column_specs self);
  _ ← unique_names name (pipeline_builders self);
  _ ← pipeline_builders_validator self (pipeline_builders self);
  _ ← unique_names p_name (parameters self);
  _ ← unique_names s_name (switches self);
  _ ← unique_names k_name (checks self);
  unique_names sa_name (subanalyses self).

(** [AnalysisSpec(space=..., column_specs=..., ...)] *)
Definition AnalysisSpec_init (space : string) (column_specs : list ColumnSpec)
    (pipeline_builders : list PipelineBuilder) (parameters : list ParameterSpec)
    (switches : list Switch) (checks : list CheckSpec)
    (subanalyses : list SubanalysisSpec) : result AnalysisSpec :=
  let self := mkAnalysisSpec space column_specs pipeline_builders parameters
                             switches checks subanalyses in
  _ ← validate self; Ok self.

(** The lookup-by-name methods of [AnalysisSpec]. *)
Module AnalysisSpec.
Definition column_spec (self : AnalysisSpec) (nm : string) : result ColumnSpec :=
  next (filter (λ c, c_name c = nm) (column_specs self)).
Definition parameter (self : AnalysisSpec) (nm : string) : result ParameterSpec :=
  next (filter (λ p, p_name p = nm) (parameters self)).
Definition pipeline_builder (self : AnalysisSpec) (nm : string) : result PipelineBuilder :=
  next (filter (λ p, name p = nm) (pipeline_builders self)).
Definition switch (self : AnalysisSpec) (nm : string) : result Switch :=
  next (filter (λ s, s_name s = nm) (switches self)).
Definition check (self : AnalysisSpec) (nm : string) : result CheckSpec :=
  next (filter (λ c, k_name c = nm) (checks self)).
Definition subanalysis (self : AnalysisSpec) (nm : string) : result SubanalysisSpec :=
  next (filter (λ s, sa_name s = nm) (subanalyses self)).
End AnalysisSpec.

(** ** Parameter values *)

(** [val >= bound] and [val <= bound] for a bound that is an [int] or a
    [float]: numbers compare, any other value raises TypeError. *)
Definition ge_bound (val : Value) (bound : Number) : result bool :=
  match val with
  | VAtom (ANum n) => Ok (num_leb bound n)
  | _ => Raise TypeError
  end.

Definition le_bound (val : Value) (bound : Number) : result bool :=
  match val with
  | VAtom (ANum n) => Ok (num_leb n bound)
  | _ => Raise TypeError
  end.

(** [_parameter_validator(_, attr, val)]; the metadata of the field holds the
    [choices], [lower_bound] and [upper_bound] of the parameter. *)
Definition _parameter_validator (attr : ParameterSpec) (val : Value) : result unit :=
  match choices attr with
  | Some choices =>
      if decide (val ∈ VAtom <$> choices) then Ok ()
      else Raise (ValueError NotAValidValue)
  | None =>
      above ← match lower_bound attr with
               | None => Ok true
               | Some lower_bound => ge_bound val lower_bound
               end;
      within ← (if above : bool
                then match upper_bound attr with
                     | None => Ok true
                     | Some upper_bound => le_bound val upper_bound
                     end
                else Ok false);
      if within : bool then Ok () else Raise (ValueError NotWithinBounds)
  end.

(** The attributes [attrs.define] creates on an analysis class. *)
Definition attribute_names (spec : AnalysisSpec) : list string :=
  (c_name <$> column_specs spec) ++ (p_name <$> parameters spec)
  ++ (sa_name <$> subanalyses spec) ++ ["_dataset"].

(** Assignment to an attribute of an analysis instance.  The class is built
    by [attrs.define]: it is slotted, and the validator of a field runs on
    every assignment to it (as it does in [__init__]) before the value is
    stored.  Parameter fields carry [_parameter_validator]. *)
Definition Analysis_setattr (a : Analysis) (attr : string) (value : Value) : result Analysis :=
  if decide (attr ∈ attribute_names (__spec__ a)) then
    _ ← match AnalysisSpec.parameter (__spec__ a) attr with
         | Ok p => _parameter_validator p value
         | Raise _ => Ok ()
         end;
    Ok (mkAnalysis (__spec__ a) (<[attr := value]> (slots a)))
  else Raise AttributeError.

(** ** Attribute access on objects of the store *)

(** [getattr(v, attr)] for an analysis instance or a [Subanalysis] wrapper.
    On a wrapper, the normal lookup finds the fields [_spec], [_analysis] and
    [_parent] and the attributes of the class ([_type]); only a name that it
    does not find falls through to [Subanalysis.__getattr__], whose first
    [try] always fails ([object] has no [__getattr__]).  On an analysis
    instance the names that Python finds on the class other than [__spec__]
    (methods, descriptors and special attributes) are left out.  [depth]
    bounds the nesting of calls. *)
Fixpoint getattr (depth : nat) (h : Heap) (v : Value) (attr : string) : result Value :=
  match depth with
  | O => Raise RecursionError
  | S depth' =>
      match v with
      | VRef o =>
          match h !! o with
          | Some (Instance a) =>
              if decide (attr = "__spec__") then Ok (VAnalysisSpec (__spec__ a))
              else match slots a !! attr with
                   | Some x => Ok x
                   | None => Raise AttributeError
                   end
          | Some (Wrapper self) =>
              if decide (attr = "_spec") then Ok (_spec self)
              else if decide (attr = "_analysis") then Ok (_analysis self)
              else if decide (attr = "_parent") then Ok (_parent self)
              else
                match _type self !! attr with
                | Some x => Ok x
                | None =>
                    match _spec self with
                    | VSubanalysisSpec spec =>
                        match mapping spec attr with
                        | Raise KeyError => getattr depth' h (_analysis self) attr
                        | Raise e => Raise e
                        | Ok mapped_name => getattr depth' h (_parent self) mapped_name
                        end
                    | _ => Raise AttributeError
                    end
                end
          | None => Raise AttributeError
          end
      | _ => Raise AttributeError
      end
  end.

(** [setattr(v, attr, value)]; on a wrapper this is [Subanalysis.__setattr__]. *)
Fixpoint setattr (depth : nat) (h : Heap) (v : Value) (attr : string) (value : Value) :
    result Heap :=
  match depth with
  | O => Raise RecursionError
  | S depth' =>
      match v with
      | VRef o =>
          match h !! o with
          | Some (Instance a) =>
              a' ← Analysis_setattr a attr value;
              Ok (<[o := Instance a']> h)
          | Some (Wrapper self) =>
              if decide (attr = "_spec") then
                Ok (<[o := Wrapper (mkSubanalysis (_type self) value (_analysis self)
                                                  (_parent self))]> h)
              else if decide (attr = "_analysis") then
                Ok (<[o := Wrapper (mkSubanalysis (_type self) (_spec self) value
                                                  (_parent self))]> h)
              else if decide (attr = "_parent") then
                Ok (<[o := Wrapper (mkSubanalysis (_type self) (_spec self) (_analysis self)
                                                  value)]> h)
              else
                match _spec self with
                | VSubanalysisSpec spec =>
                    match mapping spec attr with
                    | Raise KeyError => setattr depth' h (_analysis self) attr value
                    | Raise e => Raise e
                    | Ok mapped_name => Raise AttributeError
                    end
                | _ => Raise AttributeError
                end
          | None => Raise AttributeError
          end
      | _ => Raise AttributeError
      end
  end.

(** ** [Operation.evaluate] *)

(** [issubclass(c, v)]: the second argument has to be a class. *)
Definition issubclass (c : PyClass) (v : Value) : result bool :=
  match v with
  | VAtom (AClass d) => Ok (bool_decide (cls_name d ∈ cls_mro c))
  | _ => Raise TypeError
  end.

(** [c is v] for a class [c]. *)
Definition is_class (c : PyClass) (v : Value) : bool :=
  match v with
  | VAtom (AClass d) => bool_decide (cls_name c = cls_name d)
  | _ => false
  end.

(** [getattr(analysis, v)]: the attribute name has to be a string. *)
Definition getattr_named (depth : nat) (h : Heap) (analysis : Value) (v : Value) :
    result Value :=
  match v with
  | VAtom (AStr attr) => getattr depth h analysis attr
  | _ => Raise TypeError
  end.

(** [dataset[v]] *)
Definition dataset_getitem (dataset : Dataset) (v : Value) : result DataColumn :=
  match v with
  | VAtom (AStr column_name) =>
      match dataset !! column_name with
      | Some column => Ok column
      | None => Raise KeyError
      end
  | _ => Raise KeyError
  end.

Section evaluate.

(** The functions of the standard [operator] module, by name. *)
Variable operator_module : string → option (list Value → result Value).

(** The [if]/[elif] chain of [evaluate], on the evaluated operands. *)
Definition apply_operator (depth : nat) (h : Heap) (operator : string)
    (operands : list Value) (analysis : Value) (dataset : Dataset) : result Value :=
  if decide (operator = "value_of") then
    _ ← assert (length operands = 1%nat);
    attr ← getitem operands 0;
    getattr_named depth h analysis attr
  else if decide (operator = "is_provided") then
    _ ← assert (length operands ≤ 2)%nat;
    attr ← getitem operands 0;
    column_name ← getattr_named depth h analysis attr;
    if decide (column_name = VNone) then Ok VFalse
    else
      column ← dataset_getitem dataset column_name;
      if decide (length operands = 2%nat) then
        in_format ← getitem operands 1;
        if is_class (format column) in_format then Ok VTrue
        else
          sub ← issubclass (format column) in_format;
          Ok (if sub : bool then VTrue else VFalse)
      else Ok VTrue
  else
    match operator_module operator with
    | Some f => f operands
    | None => Raise AttributeError
    end.

(** [self.evaluate(analysis, dataset)].  The comprehension on the first line
    calls [o.evaluate(analysis, dataset)] on every operand in turn: a nested
    [Operation] is evaluated, a plain value (a string, a number, a class)
    has no [evaluate] attribute. *)
Fixpoint evaluate (depth : nat) (h : Heap) (self : Operation) (analysis : Value)
    (dataset : Dataset) : result Value :=
  match self with
  | mkOperation operator operands =>
      operands ←
        (fix each (os : list Operand) : result (list Value) :=
           match os with
           | [] => Ok []
           | o :: os' =>
               v ← match o with
                    | Plain _ => Raise AttributeError
                    | Nested op => evaluate depth h op analysis dataset
                    end;
               vs ← each os';
               Ok (v :: vs)
           end) operands;
      apply_operator depth h operator operands analysis dataset
  end.

(** A call [op.evaluate(a1, ..., an)] of the bound method with [passed]
    positional arguments, the last two of which are [analysis] and
    [dataset]: [evaluate] declares [(self, analysis, dataset)], so a call
    with another number of arguments than two raises TypeError before the
    body runs. *)
Definition call_evaluate (passed : nat) (depth : nat) (h : Heap) (op : Operation)
    (analysis : Value) (dataset : Dataset) : result Value :=
  if decide (passed = 2%nat) then evaluate depth h op analysis dataset
  else Raise TypeError.

(** ** [ColumnSpec.select_pipeline_builders] *)

(** [spec.pipeline_builders] *)
Definition get_pipeline_builders (spec : Value) : result (list PipelineBuilder) :=
  match spec with
  | VAnalysisSpec s => Ok (pipeline_builders s)
  | _ => Raise AttributeError
  end.

(** The names an [AnalysisSpec] answers to: its fields, its properties and its
    methods. *)
Definition AnalysisSpec_attribute_names : list string :=
  ["space"; "column_specs"; "pipeline_builders"; "parameters"; "switches"; "checks";
   "subanalyses"; "column_names"; "parameter_names"; "pipeline_names"; "switch_names";
   "check_names"; "subanalysis_names"; "column_spec"; "parameter"; "pipeline_builder";
   "switch"; "check"; "subanalysis"; "column_checks"; "column_specs_validator";
   "pipeline_builders_validator"].

(** [spec.<meth>(nm)] at a place where a [ColumnSpec] is wanted back.  A name
    that [AnalysisSpec] does not define raises AttributeError; of the names
    it defines, [column_spec] is the lookup of a column by name (the others
    do not hand back a [ColumnSpec], and the module makes no such call). *)
Definition call_column_lookup (spec : Value) (meth : string) (nm : string) :
    result ColumnSpec :=
  match spec with
  | VAnalysisSpec s =>
      if decide (meth ∈ AnalysisSpec_attribute_names) then
        if decide (meth = "column_spec") then AnalysisSpec.column_spec s nm
        else Raise TypeError
      else Raise AttributeError
  | _ => Raise AttributeError
  end.

(** The check that closes [select_pipeline_builders]. *)
Definition check_duplicate_switches (selected : list PipelineBuilder) :
    result (list PipelineBuilder) :=
  let all_switches := switch <$> selected in
  let with_duplicate_switches :=
    filter (λ p, count (switch p) all_switches ≠ 0%nat) selected in
  match with_duplicate_switches with
  | _ :: _ => Raise (ArcanaDesignError (MultipleMatchingBuilders with_duplicate_switches))
  | [] => Ok selected
  end.

Fixpoint select_pipeline_builders (depth : nat) (h : Heap) (self : ColumnSpec)
    (analysis : Value) (dataset : Dataset) : result (list PipelineBuilder) :=
  match depth with
  | O => Raise RecursionError
  | S depth' =>
      spec ← getattr depth' h analysis "__spec__";
      builders ← get_pipeline_builders spec;
      let candidates := filter (λ p, c_name self ∈ outputs p) builders in
      selected ←
        filter_r (λ m, match condition m with
                       | None => Ok false
                       | Some cond =>
                           (* m.condition.evaluate(self, analysis, dataset) *)
                           v ← call_evaluate 3 depth' h cond analysis dataset;
                           Ok (truthy v)
                       end) candidates;
      (* Check for defaults *)
      let selected :=
        match selected with
        | [] => filter (λ p, condition p = None) candidates
        | _ => selected
        end in
      (* Select pipeline builders from subanalysis if present *)
      selected ←
        match selected, c_mapped_from self with
        | [], Some (sub_name, sub_column) =>
            subanalysis ← getattr depth' h analysis sub_name;
            sub_spec ← getattr depth' h subanalysis "__spec__";
            sub_column_spec ← call_column_lookup sub_spec "column" sub_column;
            select_pipeline_builders depth' h sub_column_spec subanalysis dataset
        | _, _ => Ok selected
        end;
      match selected with
      | [] => Raise (ArcanaDesignError (NoMatchingBuilders candidates))
      | _ => check_duplicate_switches selected
      end
  end.

End evaluate.

(** ** [make_class]: combining with the specs of the base classes *)

(** The components of an analysis class collected from its own body, before
    they are combined with those of its bases. *)
Record Components := mkComponents {
  cm_column_specs : list ColumnSpec;
  cm_pipeline_builders : list PipelineBuilder;
  cm_parameters : list ParameterSpec;
  cm_switches : list Switch;
  cm_checks : list CheckSpec;
  cm_subanalyses : list SubanalysisSpec
}.

(** [lst.extend(b for b in base_lst if b.name not in (x.name for x in lst))]:
    the generator is consumed while [lst] grows. *)
Definition extend_by_name {A} (name_of : A → string) (lst base_lst : list A) : list A :=
  foldl (λ lst b, if decide (name_of b ∈ name_of <$> lst) then lst else lst ++ [b])
        lst base_lst.

(** The names of [decorated_klass.__dict__] that are names of [base_lst] and
    whose attribute does not carry a ["defined_in"] metadata entry.  An entry
    [(nme, explicit)] of [klass_dict] tells whether the attribute [nme] has
    [metadata] with ["defined_in"] in it. *)
Definition overwritten (klass_dict : list (string * bool)) (base_names : list string) :
    list string :=
  fst <$> filter (λ e, e.1 ∈ base_names ∧ e.2 = false) klass_dict.

Definition check_overwritten (klass_dict : list (string * bool)) (base_names : list string) :
    result unit :=
  match overwritten klass_dict base_names with
  | [] => Ok ()
  | names => Raise (ArcanaDesignError (OverwrittenWithoutInherited names))
  end.

(** "Check to see that overriding pipelines don't remove outputs": the body of
    the loop, for one builder of the base. *)
Definition check_override (pipeline_builders : list PipelineBuilder)
    (base_builder : PipelineBuilder) : result unit :=
  match next (filter (λ b, name b = name base_builder) pipeline_builders) with
  | Raise StopIteration => Ok ()
  | Raise e => Raise e
  | Ok builder =>
      let missing_outputs := filter (λ o, o ∉ outputs builder) (outputs base_builder) in
      match missing_outputs with
      | [] => Ok ()
      | _ => Raise (ArcanaDesignError (MissingOutputs missing_outputs (name builder)))
      end
  end.

(** The body of the loop over the bases, for a base that has a [__spec__]. *)
Definition combine_with_base (klass_dict : list (string * bool)) (space' : string)
    (cm : Components) (base : AnalysisSpec) : result Components :=
  if decide (space base = space') then
    let column_specs' := extend_by_name c_name (cm_column_specs cm) (column_specs base) in
    _ ← check_overwritten klass_dict (c_name <$> column_specs base);
    let parameters' := extend_by_name p_name (cm_parameters cm) (parameters base) in
    _ ← check_overwritten klass_dict (p_name <$> parameters base);
    let subanalyses' := extend_by_name sa_name (cm_subanalyses cm) (subanalyses base) in
    _ ← check_overwritten klass_dict (sa_name <$> subanalyses base);
    _ ← for_each (check_override (cm_pipeline_builders cm)) (pipeline_builders base);
    Ok (mkComponents column_specs'
          (extend_by_name name (cm_pipeline_builders cm) (pipeline_builders base))
          parameters'
          (extend_by_name s_name (cm_switches cm) (switches base))
          (extend_by_name k_name (cm_checks cm) (checks base))
          subanalyses')
  else Raise (ValueError RedefinedSpace).

Fixpoint combine_with_bases (klass_dict : list (string * bool)) (space : string)
    (cm : Components) (bases : list AnalysisSpec) : result Components :=
  match bases with
  | [] => Ok cm
  | base :: bases' =>
      cm' ← combine_with_base klass_dict space cm base;
      combine_with_bases klass_dict space cm' bases'
  end.

(** [make_class] from "Combine with specs from base classes" on: [cm] holds
    the lists built from the class body, [bases] the [__spec__] of the classes
    of [__mro__[1:]] that have one, in that order. *)
Definition make_class (klass_dict : list (string * bool)) (space : string)
    (cm : Components) (bases : list AnalysisSpec) : result AnalysisSpec :=
  cm ← combine_with_bases klass_dict space cm bases;
  AnalysisSpec_init space
    (sorted c_name (cm_column_specs cm))
    (sorted name (cm_pipeline_builders cm))
    (sorted p_name (cm_parameters cm))
    (sorted s_name (cm_switches cm))
    (sorted k_name (cm_checks cm))
    (sorted sa_name (cm_subanalyses cm)).

(** ** Orders *)

(** A list whose items are in strictly increasing order of their key. *)
Fixpoint increasing {A} (key : A → string) (l : list A) : Prop :=
  match l with
  | [] => True
  | x :: l' => Forall (λ y, String.ltb (key x) (key y) = true) l' ∧ increasing key l'
  end.

(** ** The lists of [make_class] after the loop over the bases *)

(** A list of the class body extended, base after base, by
    [lst.extend(b for b in base_lst if b.name not in (x.name for x in lst))]. *)
Definition inherit_all {A} (name_of : A → string) (of_base : AnalysisSpec → list A)
    (lst : list A) (bases : list AnalysisSpec) : list A :=
  foldl (λ lst base, extend_by_name name_of lst (of_base base)) lst bases.

(** ** Reading the body of a class *)

(** The exceptions of the functions that [make_class] calls while it reads
    the body of the class.  The first four are raised only there, told apart
    by their message: the two [ValueError]s of [_UnresolvedOp.resolve] (their
    message shows the loop variable [operand], which holds the last operand),
    and the [ArcanaDesignError]s of [_get_args_automagically] and of
    [_TempParameterAttr.choices_validator].  [Exn] is an exception of [exn]. *)
Inductive body_exn :=
  | NotAParameter (operand : option Operand)
  | NotAColumnSpec (operand : option Operand)
  | UnrecognisedArgument (arg : string)
  | BoundsWithChoices (lower_bound upper_bound : option Number) (choices : list Atom)
  | Exn (e : exn).

Inductive outcome (A : Type) :=
  | Returns (a : A)
  | Raises (e : body_exn).
Arguments Returns {A} a.
Arguments Raises {A} e.

Global Instance outcome_ret : MRet outcome := λ A, Returns.
Global Instance outcome_bind : MBind outcome := λ A B f m,
  match m with Returns a => f a | Raises e => Raises e end.

Definition lift {A} (r : result A) : outcome A :=
  match r with Ok a => Returns a | Raise e => Raises (Exn e) end.

(** A [for] loop that appends what its body computes. *)
Fixpoint map_o {A B} (f : A → outcome B) (l : list A) : outcome (list B) :=
  match l with
  | [] => Returns []
  | x :: l' => y ← f x; ys ← map_o f l'; Returns (y :: ys)
  end.

(** ** [_UnresolvedOp] *)

(** An operand of an unresolved operation is a nested [_UnresolvedOp], an
    object that has an [attr_name] (a temporary attribute of the class body,
    whose [attr_name] is a string once [make_class] has set it and [None]
    before), or any other object, which has none. *)
Inductive _UnresolvedOp :=
  | mkUnresolvedOp (operator : string) (operands : list UnresolvedOperand)
with UnresolvedOperand :=
  | Unresolved (o : _UnresolvedOp)
  | Attribute (attr_name : Atom)
  | Literal (a : Atom).

Definition u_operator (o : _UnresolvedOp) : string :=
  match o with mkUnresolvedOp op _ => op end.
Definition u_operands (o : _UnresolvedOp) : list UnresolvedOperand :=
  match o with mkUnresolvedOp _ os => os end.

(** [operand in names] for a list of strings: only a string can be equal to
    one of them. *)
Definition operand_in (operand : Operand) (names : list string) : bool :=
  match operand with
  | Plain (AStr s) => bool_decide (s ∈ names)
  | _ => false
  end.

(** [_UnresolvedOp.resolve(klass, column_specs, parameters)]; [klass] is only
    handed on to the nested calls. *)
Fixpoint resolve (self : _UnresolvedOp) (column_specs : list ColumnSpec)
    (parameters : list ParameterSpec) {struct self} : outcome Operation :=
  match self with
  | mkUnresolvedOp operator operands =>
      let parameter_names := p_name <$> parameters in
      let column_names := c_name <$> column_specs in
      resolved ← map_o (λ operand,
                    match operand with
                    | Unresolved o =>
                        o' ← resolve o column_specs parameters; Returns (Nested o')
                    | Attribute attr_name => Returns (Plain attr_name)
                    | Literal a => Returns (Plain a)
                    end) operands;
      _ ← (if decide (operator = "value_of") then
             _ ← lift (assert (length resolved = 1%nat));
             first ← lift (getitem resolved 0);
             if operand_in first parameter_names then Returns ()
             else Raises (NotAParameter (last resolved))
           else if decide (operator = "is_provided") then
             _ ← lift (assert (length resolved ≤ 2)%nat);
             first ← lift (getitem resolved 0);
             if operand_in first column_names then Returns ()
             else Raises (NotAColumnSpec (last resolved))
           else Returns ());
      Returns (mkOperation operator resolved)
  end.

(** The operations of an expression: the expression itself and the
    operations nested in its operands. *)
Inductive node_of : Operation → Operation → Prop :=
  | node_self o : node_of o o
  | node_nested n o o' : Nested o' ∈ operands o → node_of n o' → node_of n o.

(** What the loop of [resolve] appends for an operand. *)
Definition resolved_operand (column_specs : list ColumnSpec) (parameters : list ParameterSpec)
    (operand : UnresolvedOperand) (r : Operand) : Prop :=
  match operand with
  | Unresolved o => ∃ o', resolve o column_specs parameters = Returns o' ∧ r = Nested o'
  | Attribute attr_name => r = Plain attr_name
  | Literal a => r = Plain a
  end.

(** ** [_get_args_automagically] *)

(** A method of the class body as [_get_args_automagically] reads it: the
    names of its parameters, in the order of [inspect.signature], and its
    [__annotations__]. *)
Record Method := mkMethod {
  m_name : string;
  signature : list string;
  annotations : gmap string Atom
}.

Section get_args.

(** [required_type.find_converter(column_type)] of the data types, which
    raises when there is no converter (and AttributeError when the class has
    no such method). *)
Variable find_converter : PyClass → PyClass → result unit.

(** The check of an input against the annotation of the argument. *)
Definition check_required_type (required_type : Atom) (column_spec : ColumnSpec) :
    outcome unit :=
  match required_type with
  | ANone => Returns ()
  | AClass t =>
      if is_class t (VAtom (AClass (c_type column_spec))) then Returns ()
      else lift (find_converter t (c_type column_spec))
  | _ => Raises (Exn AttributeError)
  end.

(** The loop over the arguments; [inputs] and [used_parameters] are the two
    lists that it appends to. *)
Fixpoint args_loop (column_specs : list ColumnSpec) (parameters : list ParameterSpec)
    (method_annotations : gmap string Atom) (args : list string)
    (inputs used_parameters : list string) : outcome (list string * list string) :=
  match args with
  | [] => Returns (inputs, used_parameters)
  | arg :: args' =>
      let required_type := default ANone (method_annotations !! arg) in
      if decide (arg ∈ c_name <$> column_specs) then
        column_spec ← lift (next (filter (λ c, c_name c = arg) column_specs));
        _ ← check_required_type required_type column_spec;
        args_loop column_specs parameters method_annotations args'
                  (inputs ++ [arg]) used_parameters
      else if decide (arg ∈ p_name <$> parameters) then
        args_loop column_specs parameters method_annotations args'
                  inputs (used_parameters ++ [arg])
      else Raises (UnrecognisedArgument arg)
  end.

Definition _get_args_automagically (column_specs : list ColumnSpec)
    (parameters : list ParameterSpec) (method : Method) (index_start : nat) :
    outcome (list string * list string) :=
  args_loop column_specs parameters (annotations method)
            (drop index_start (signature method)) [] [].

(** An argument that the loop accepts: the name of a column whose type the
    annotation of the argument, if any, is or converts from, or else the name
    of a parameter. *)
Definition accepted (column_specs : list ColumnSpec) (parameters : list ParameterSpec)
    (method : Method) (arg : string) : Prop :=
  (arg ∈ c_name <$> column_specs ∧
   (∀ column_spec, next (filter (λ c, c_name c = arg) column_specs) = Ok column_spec →
      check_required_type (default ANone (annotations method !! arg)) column_spec
        = Returns ())) ∨
  ((arg ∉ c_name <$> column_specs) ∧ arg ∈ p_name <$> parameters).

End get_args.

(** ** [_TempParameterAttr] *)

(** The temporary attribute that a parameter of the class body is before
    [make_class] turns it into a field. *)
Record _TempParameterAttr := mkTempParameterAttr {
  t_desc : string;
  t_default : Atom;
  t_salience : string;
  t_choices : option (list Atom);
  t_lower_bound : option Number;
  t_upper_bound : option Number;
  t_attr_name : option string;
  t_dtype : option PyClass
}.


(** ** The subanalyses of a class body *)

(** A subanalysis field of the class as the second loop of [make_class] reads
    it: its [name] and [type], and from its [metadata] the description, the
    [mappings] (each [to] given by its [attr_name], the name of the attribute
    of the class) and ["defined_in"], which may be missing. *)
Record SubanalysisAttr := mkSubanalysisAttr {
  f_name : string;
  f_type : string;
  f_desc : string;
  f_mappings : list (string * string);
  f_defined_in : option (list string)
}.

(** [x < y] on pairs of strings: the first components that differ decide. *)
Definition pair_ltb (x y : string * string) : bool :=
  if decide (x.1 = y.1) then String.ltb x.2 y.2 else String.ltb x.1 y.1.

(** [sorted(l)] on pairs of strings, as a stable insertion sort. *)
Fixpoint insert_pair (x : string * string) (l : list (string * string)) :
    list (string * string) :=
  match l with
  | [] => [x]
  | y :: l' => if pair_ltb y x then y :: insert_pair x l' else x :: y :: l'
  end.

Definition sorted_pairs (l : list (string * string)) : list (string * string) :=
  foldr insert_pair [] l.

(** [chain(column_specs, parameters)], each item with its [name] and
    [mapped_from]. *)
Definition chain_names (column_specs : list ColumnSpec) (parameters : list ParameterSpec) :
    list (string * option (string * string)) :=
  ((λ c, (c_name c, c_mapped_from c)) <$> column_specs)
  ++ ((λ p, (p_name p, p_mapped_from p)) <$> parameters).

(** The explicit mappings followed by the implicit ones, of the columns and
    parameters that are mapped from this subanalysis. *)
Definition resolved_mappings (attr : SubanalysisAttr) (column_specs : list ColumnSpec)
    (parameters : list ParameterSpec) : list (string * string) :=
  f_mappings attr
  ++ omap (λ col_or_param,
             match col_or_param.2 with
             | Some mapped_from =>
                 if decide (mapped_from.1 = f_name attr)
                 then Some (mapped_from.2, col_or_param.1)
                 else None
             | None => None
             end) (chain_names column_specs parameters).

(** The [SubanalysisSpec] that [make_class] appends for the field. *)
Definition subanalysis_spec (attrs_klass : string) (column_specs : list ColumnSpec)
    (parameters : list ParameterSpec) (attr : SubanalysisAttr) : SubanalysisSpec :=
  mkSubanalysisSpec (f_name attr) (f_desc attr) (f_type attr)
    (sorted_pairs (resolved_mappings attr column_specs parameters))
    (default [attrs_klass] (f_defined_in attr)).

(** A list of pairs in which no item is smaller than an item in front of it. *)
Fixpoint pairs_ordered (l : list (string * string)) : Prop :=
  match l with
  | [] => True
  | x :: l' => Forall (λ y, pair_ltb y x = false) l' ∧ pairs_ordered l'
  end.

(** * Data frequencies

    The definitions below follow [arcana2/data/enum.py]: the members of a
    [DataFrequency] enum are names with an integer value, whose bits are the
    layers of the data tree. *)

(** What a computation of this module comes to: a value, the ValueError of
    [cls(value)] for a value that no member of the enum has, or a [while]
    loop that is still running when the count of its iterations is used up. *)
Inductive run (A : Type) :=
  | Done (a : A)
  | NotAMember (value : Z)
  | Running.
Arguments Done {A} a.
Arguments NotAMember {A} value.
Arguments Running {A}.

Global Instance run_ret : MRet run := λ A, Done.
Global Instance run_bind : MBind run := λ A B f m,
  match m with Done a => f a | NotAMember v => NotAMember v | Running => Running end.

(** The loop [while v: w = v & (v - 1); nonzero.append(w ^ v); v = w], with
    at most [fuel] tests of its condition. *)
Fixpoint while_v (fuel : nat) (v : Z) (nonzero : list Z) : run (list Z) :=
  match fuel with
  | O => Running
  | S fuel' =>
      if decide (v ≠ 0) then
        let w := Z.land v (v - 1) in
        while_v fuel' w (nonzero ++ [Z.lxor w v])
      else Done nonzero
  end.

(** [_nonzero_bits(v)] *)
Definition _nonzero_bits (fuel : nat) (v : Z) : run (list Z) := while_v fuel v [].

(** A member of the enum: its [name] and its [value]. *)
Definition Member : Type := string * Z.

(** [is_basis()] *)
Definition is_basis (fuel : nat) (self : Member) : run bool :=
  bits ← _nonzero_bits fuel self.2; Done (bool_decide (length bits = 1%nat)).

(** [sorted(l)] on integers, as an insertion sort. *)
Fixpoint insert_z (x : Z) (l : list Z) : list Z :=
  match l with
  | [] => [x]
  | y :: l' => if bool_decide (y < x) then y :: insert_z x l' else x :: y :: l'
  end.
Definition sorted_z (l : list Z) : list Z := foldr insert_z [] l.

(** [cls(value)]: the first member that has the value. *)
Definition by_value (cls : list Member) (value : Z) : run Member :=
  match filter (λ m, m.2 = value) cls with
  | m :: _ => Done m
  | [] => NotAMember value
  end.

(** [[f(x) for x in l]] *)
Fixpoint map_run {A B} (f : A → run B) (l : list A) : run (list B) :=
  match l with
  | [] => Done []
  | x :: l' => y ← f x; ys ← map_run f l'; Done (y :: ys)
  end.

(** [layers()]: [[cls(b) for b in sorted(self._nonzero_bits(val))]] *)
Definition layers (fuel : nat) (cls : list Member) (self : Member) : run (list Member) :=
  bits ← _nonzero_bits fuel self.2;
  map_run (by_value cls) (sorted_z bits).

(** A list of integers in strictly increasing order. *)
Fixpoint ascending (l : list Z) : Prop :=
  match l with
  | [] => True
  | x :: l' => Forall (λ y, x < y) l' ∧ ascending l'
  end.

(** The sum of a list of integers. *)
Definition total (l : list Z) : Z := foldr Z.add 0 l.

(** [bits] lists the powers of two of the binary expansion of [v] in
    increasing order. *)
Definition digits_of (v : Z) (bits : list Z) : Prop :=
  ascending bits ∧
  Forall (λ b, ∃ k, 0 ≤ k ∧ b = 2 ^ k ∧ Z.testbit v k = true) bits ∧
  (∀ k, 0 ≤ k → Z.testbit v k = true → 2 ^ k ∈ bits) ∧
  total bits = v.

(** * Example data *)

Module Examples.

Definition FileGroup := mkClass "FileGroup" ["FileGroup"; "object"].
Definition Nifti := mkClass "Nifti" ["Nifti"; "FileGroup"; "object"].
Definition Text := mkClass "Text" ["Text"; "object"].
Definition Int := mkClass "int" ["int"; "object"].

Definition column (nm : string) (salience : ColumnSalience)
    (mapped_from : option (string * string)) : ColumnSpec :=
  mkColumnSpec nm Nifti "" "session" salience ["D"] [] mapped_from.

Definition builder (nm : string) (ins outs : list string)
    (cond : option Operation) (sw : option Switch) : PipelineBuilder :=
  mkPipelineBuilder nm "" [] ins outs cond sw nm "D".

Definition parameter (nm : string) (choices : option (list Atom))
    (lower upper : option Number) (default : Atom) : ParameterSpec :=
  mkParameter nm Int "" "recommended" choices lower upper ["D"] [] default None.

(** [a == b] on plain data: a NaN is equal to nothing. *)
Definition py_eq (a b : Value) : bool :=
  match a, b with
  | VAtom (ANum (NNaN _)), _ | _, VAtom (ANum (NNaN _)) => false
  | _, _ => bool_decide (a = b)
  end.

(** The [eq] and [ne] functions of the [operator] module, on plain data. *)
Definition operators (nm : string) : option (list Value → result Value) :=
  if decide (nm = "eq") then
    Some (λ args, match args with
                  | [a; b] => Ok (if py_eq a b then VTrue else VFalse)
                  | _ => Raise TypeError
                  end)
  else if decide (nm = "ne") then
    Some (λ args, match args with
                  | [a; b] => Ok (if py_eq a b then VFalse else VTrue)
                  | _ => Raise TypeError
                  end)
  else None.

(** A definition with one column [out] and two builders for it: [B1] under
    the condition [value_of("mode") == "fast"], [B2] unconditional. *)
Definition mode_is_fast : Operation :=
  mkOperation "eq" [Nested (mkOperation "value_of" [Plain (AStr "mode")]);
                    Plain (AStr "fast")].
Definition B1 := builder "B1" [] ["out"] (Some mode_is_fast) None.
Definition B2 := builder "B2" [] ["out"] None None.
Definition out := column "out" ColumnSalience.publication None.
Definition mode := parameter "mode" (Some [AStr "fast"; AStr "slow"]) None None (AStr "fast").
Definition threshold :=
  parameter "threshold" None (Some (NInt 0)) (Some (NInt 10)) (AInt 5).

Definition D_spec : AnalysisSpec :=
  mkAnalysisSpec "Clinical" [out] [B1; B2] [mode; threshold] [] [] [].
Definition D_default_only : AnalysisSpec :=
  mkAnalysisSpec "Clinical" [out] [B2] [mode; threshold] [] [] [].

Definition D_slow : Analysis :=
  mkAnalysis D_spec {[ "mode" := VStr "slow"; "threshold" := VInt 5; "out" := VNone ]}.
Definition D_only_default : Analysis :=
  mkAnalysis D_default_only
    {[ "mode" := VStr "slow"; "threshold" := VInt 5; "out" := VNone ]}.

Definition heap_slow : Heap := {[ 1%positive := Instance D_slow ]}.
Definition heap_default : Heap := {[ 1%positive := Instance D_only_default ]}.

(** A column bound to nothing, for [is_provided]. *)
Definition is_provided_x : Operation := mkOperation "is_provided" [Plain (AStr "x")].
Definition x_unbound : Analysis :=
  mkAnalysis (mkAnalysisSpec "Clinical" [column "x" ColumnSalience.primary None] [] [] [] [] [])
             {[ "x" := VNone ]}.
Definition heap_x : Heap := {[ 1%positive := Instance x_unbound ]}.

(** Attributes that the normal lookup finds on the class of a wrapper:
    special attributes and methods of [Subanalysis] and of [object]. *)
Definition Subanalysis_type : gmap string Value :=
  {[ "__class__" := VAtom (AClass (mkClass "Subanalysis" ["Subanalysis"; "object"]));
     "__doc__" := VStr "Wrapper around the actual analysis class of the subanalysis, which performs the
    mapping of attributes";
     "__module__" := VStr "arcana.core.analysis";
     "__init__" := VObject "Subanalysis.__init__";
     "__repr__" := VObject "Subanalysis.__repr__";
     "__eq__" := VObject "Subanalysis.__eq__";
     "__getattr__" := VObject "Subanalysis.__getattr__";
     "__setattr__" := VObject "Subanalysis.__setattr__";
     "__getattribute__" := VObject "object.__getattribute__";
     "__dir__" := VObject "object.__dir__";
     "__sizeof__" := VObject "object.__sizeof__" ]}.

(** A definition [P] whose column [c] is mapped from column [inner] of its
    subanalysis [sub]; the nested definition [N] has one unconditional
    builder for [inner]. *)
Definition Bi := builder "Bi" [] ["inner"] None None.
Definition N_spec : AnalysisSpec :=
  mkAnalysisSpec "Clinical" [column "inner" ColumnSalience.publication None] [Bi] [] [] [] [].
Definition sub_spec : SubanalysisSpec :=
  mkSubanalysisSpec "sub" "" "N" [("inner", "c")] ["P"].
Definition c := column "c" ColumnSalience.publication (Some ("sub", "inner")).
Definition P_spec : AnalysisSpec :=
  mkAnalysisSpec "Clinical" [c] [] [] [] [] [sub_spec].
Definition heap_nested : Heap :=
  {[ 1%positive := Instance (mkAnalysis P_spec {[ "c" := VNone; "sub" := VRef 2%positive ]});
     2%positive := Wrapper (mkSubanalysis Subanalysis_type (VSubanalysisSpec sub_spec)
                                          (VRef 3%positive) (VRef 1%positive));
     3%positive := Instance (mkAnalysis N_spec {[ "inner" := VNone ]}) ]}.

(** Columns that no builder produces: [raw_in] is an input of [Bc], [stray]
    is used by no builder. *)
Definition Bc := builder "Bc" ["raw_in"] ["out"] None None.
Definition raw_in (salience : ColumnSalience) := column "raw_in" salience None.
Definition stray := column "stray" ColumnSalience.primary None.

(** Two builders for [out] under the same (absent) condition and switch. *)
Definition B3 := builder "B3" [] ["out"] None None.

(** A wrapper whose mappings table names one of the wrapper's own fields. *)
Definition odd_spec : SubanalysisSpec :=
  mkSubanalysisSpec "sub" "" "N" [("_parent", "p")] ["P"].
Definition heap_odd : Heap :=
  {[ 1%positive := Instance (mkAnalysis P_spec {[ "p" := VInt 7 ]});
     2%positive := Wrapper (mkSubanalysis Subanalysis_type (VSubanalysisSpec odd_spec)
                                          (VRef 3%positive) (VRef 1%positive));
     3%positive := Instance (mkAnalysis N_spec {[ "inner" := VNone ]}) ]}.

(** A wrapper whose mappings table names an attribute of the class of the
    wrapper. *)
Definition doc_spec : SubanalysisSpec :=
  mkSubanalysisSpec "sub" "" "N" [("__doc__", "p")] ["P"].
Definition heap_doc : Heap :=
  {[ 1%positive := Instance (mkAnalysis P_spec {[ "p" := VInt 7 ]});
     2%positive := Wrapper (mkSubanalysis Subanalysis_type (VSubanalysisSpec doc_spec)
                                          (VRef 3%positive) (VRef 1%positive));
     3%positive := Instance (mkAnalysis N_spec {[ "inner" := VNone ]}) ]}.

(** A base definition with the builder [p] for the column [a], and two
    derived bodies that declare [p] again: one adds the output [b], the other
    drops [a]. *)
Definition a := column "a" ColumnSalience.publication None.
Definition b := column "b" ColumnSalience.publication None.
Definition p_base := builder "p" [] ["a"] None None.
Definition p_adds := builder "p" [] ["a"; "b"] None None.
Definition p_drops := builder "p" [] ["b"] None None.
Definition Base_spec : AnalysisSpec :=
  mkAnalysisSpec "Clinical" [a] [p_base] [] [] [] [].
Definition derived (p : PipelineBuilder) : Components :=
  mkComponents [b] [p] [] [] [] [].
Definition derived_dict : list (string * bool) := [("b", false); ("p", false)].

End Examples.

(** * Auxiliary definitions *)

(** The list a [defaultdict(list)] holds under the key [k]. *)
Fixpoint group_of (k : group_key) (d : list (group_key * list PipelineBuilder)) :
    list PipelineBuilder :=
  match d with
  | [] => []
  | (k', ps) :: d' => if decide (k' = k) then ps else group_of k d'
  end.

(** The builders that list the column among their outputs, and among their
    inputs. *)
Definition producers (builders : list PipelineBuilder) (c : ColumnSpec) :
    list PipelineBuilder :=
  filter (λ p, c_name c ∈ outputs p) builders.

Definition consumers (builders : list PipelineBuilder) (c : ColumnSpec) :
    list PipelineBuilder :=
  filter (λ p, c_name c ∈ inputs p) builders.

(** * Example class bodies *)

Module BodyExamples.

(** [value_of(mode) == "fast"] as the class body of [D] writes it: [mode] is
    the temporary attribute that [make_class] has named ["mode"]. *)
Definition mode_is_fast : _UnresolvedOp :=
  mkUnresolvedOp "eq"
    [Unresolved (mkUnresolvedOp "value_of" [Attribute (AStr "mode")]);
     Literal (AStr "fast")].

(** [is_provided(out, Nifti)] and, with the operands swapped,
    [is_provided(Nifti, out)]. *)
Definition out_is_nifti : _UnresolvedOp :=
  mkUnresolvedOp "is_provided" [Attribute (AStr "out"); Literal (AClass Examples.Nifti)].
Definition swapped : _UnresolvedOp :=
  mkUnresolvedOp "is_provided" [Literal (AClass Examples.Nifti); Attribute (AStr "out")].

End BodyExamples.

Module MethodExamples.

(** [def B(self, wf, out: Nifti, mode, extra)] *)
Definition B : Method :=
  mkMethod "B" ["self"; "wf"; "out"; "mode"; "extra"]
           {[ "out" := AClass Examples.Nifti ]}.

(** No data type converts to another. *)
Definition no_converter (required_type column_type : PyClass) : result unit :=
  Raise TypeError.

End MethodExamples.

Module ParameterExamples.

(** The declaration of the parameter [mode] of [D]. *)
Definition mode : _TempParameterAttr :=
  mkTempParameterAttr "" (AStr "fast") "recommended" (Some [AStr "fast"; AStr "slow"])
                      None None (Some "mode") (Some Examples.Int).

End ParameterExamples.

(** The [ClinicalStudy] enum. *)
Module ClinicalStudy.

Definition group : Member := ("group", 4).
Definition subject : Member := ("subject", 2).
Definition timepoint : Member := ("timepoint", 1).
Definition participant : Member := ("participant", 6).
Definition session : Member := ("session", 7).
Definition dataset : Member := ("dataset", 0).
Definition group_timepoint : Member := ("group_timepoint", 5).
Definition subject_timepoint : Member := ("subject_timepoint", 3).

Definition members : list Member :=
  [group; subject; timepoint; participant; session; dataset;
   group_timepoint; subject_timepoint].

End ClinicalStudy.

(** * Properties *)

(** ** Generators and lookups *)

(** Closes a goal [x ∉ [a; b; ...]] on literals. *)
Ltac not_in_list :=
  let Hin := fresh "Hin" in
  intros Hin;
  repeat (apply elem_of_cons in Hin as [Hin|Hin]; [discriminate Hin|]);
  by apply elem_of_nil in Hin.

Lemma filter_none {A} (P : A → Prop) `{∀ x, Decision (P x)} (l : list A) :
  (∀ x, x ∈ l → ¬ P x) → filter P l = [].
Proof.
  intros Hno. induction l as [|x l IH]; [reflexivity|].
  rewrite filter_cons. destruct (decide (P x)) as [HP|_].
  - exfalso. apply (Hno x); [left|exact HP].
  - apply IH. intros y Hy. apply Hno. by right.
Qed.

Lemma next_filter_absent {A} (P : A → Prop) `{∀ x, Decision (P x)} (l : list A) :
  (∀ x, x ∈ l → ¬ P x) → next (filter P l) = Raise StopIteration.
Proof. intros Hno. by rewrite filter_none. Qed.

Lemma next_filter_ok {A} (P : A → Prop) `{∀ x, Decision (P x)} (l : list A) x :
  next (filter P l) = Ok x → x ∈ l ∧ P x.
Proof.
  induction l as [|y l IH]; [discriminate|].
  rewrite filter_cons. destruct (decide (P y)) as [HP|_]; simpl.
  - intros [= ->]. split; [left|exact HP].
  - intros Hx. destruct (IH Hx). split; [by right|done].
Qed.

(** C10: a lookup by name on an [AnalysisSpec] for a name that no entity of
    the queried kind carries raises a bare StopIteration, for each of the six
    accessors [column_spec], [parameter], [pipeline_builder], [switch],
    [check] and [subanalysis]. *)
Theorem lookup_of_absent_name_raises_StopIteration (self : AnalysisSpec) (nm : string) :
  ((∀ c, c ∈ column_specs self → c_name c ≠ nm) →
     AnalysisSpec.column_spec self nm = Raise StopIteration) ∧
  ((∀ p, p ∈ parameters self → p_name p ≠ nm) →
     AnalysisSpec.parameter self nm = Raise StopIteration) ∧
  ((∀ p, p ∈ pipeline_builders self → name p ≠ nm) →
     AnalysisSpec.pipeline_builder self nm = Raise StopIteration) ∧
  ((∀ s, s ∈ switches self → s_name s ≠ nm) →
     AnalysisSpec.switch self nm = Raise StopIteration) ∧
  ((∀ c, c ∈ checks self → k_name c ≠ nm) →
     AnalysisSpec.check self nm = Raise StopIteration) ∧
  ((∀ s, s ∈ subanalyses self → sa_name s ≠ nm) →
     AnalysisSpec.subanalysis self nm = Raise StopIteration).
Proof.
  repeat split; intros Habsent; apply next_filter_absent; exact Habsent.
Qed.

Lemma lookup_of_absent_name_witness :
  AnalysisSpec.column_spec Examples.D_spec "missing" = Raise StopIteration ∧
  AnalysisSpec.parameter Examples.D_spec "missing" = Raise StopIteration ∧
  AnalysisSpec.pipeline_builder Examples.D_spec "missing" = Raise StopIteration ∧
  AnalysisSpec.switch Examples.D_spec "missing" = Raise StopIteration ∧
  AnalysisSpec.check Examples.D_spec "missing" = Raise StopIteration ∧
  AnalysisSpec.subanalysis Examples.D_spec "missing" = Raise StopIteration.
Proof.
  destruct (lookup_of_absent_name_raises_StopIteration Examples.D_spec "missing")
    as (H1 & H2 & H3 & H4 & H5 & H6).
  assert (∀ {A} (f : A → string) (l : list A),
            Forall (λ x, f x ≠ "missing") l → ∀ x, x ∈ l → f x ≠ "missing") as Hall.
  { intros A f l Hl x Hx. by eapply Forall_forall in Hl. }
  refine (conj (H1 _) (conj (H2 _) (conj (H3 _) (conj (H4 _) (conj (H5 _) (H6 _))))));
    apply Hall; repeat constructor; discriminate.
Defined.

(** ** Parameter values: [_parameter_validator] on every write *)


(** The order on numbers is the order of their exact values. *)
Lemma num_leb_exact (a b : Number) (x y : Q) :
  rational a = Some x → rational b = Some y → num_leb a b = true ↔ (x <= y)%Q.
Proof.
  intros Ha Hb. rewrite <- Qle_bool_iff.
  destruct a, b; simpl in *; try discriminate; by injection Ha as <-; injection Hb as <-.
Qed.

Lemma num_leb_integers (a b : Z) : num_leb (NInt a) (NInt b) = bool_decide (a ≤ b).
Proof.
  destruct (num_leb (NInt a) (NInt b)) eqn:Hle; symmetry.
  - apply bool_decide_eq_true. rewrite Zle_Qle.
    by apply (num_leb_exact (NInt a) (NInt b)).
  - apply bool_decide_eq_false. rewrite Zle_Qle. intros Hab.
    apply (num_leb_exact (NInt a) (NInt b) _ _ eq_refl eq_refl) in Hab. congruence.
Qed.







(** ** The dispatcher *)

Lemma count_of_member `{EqDecision A} (x : A) (l : list A) : x ∈ l → count x l ≠ 0%nat.
Proof.
  intros Hx. unfold count. induction Hx as [x l|x y l _ IH].
  - rewrite filter_cons, decide_True by reflexivity. discriminate.
  - rewrite filter_cons. destruct (decide (y = x)); [discriminate|exact IH].
Qed.

Lemma filter_all {A} (P : A → Prop) `{∀ x, Decision (P x)} (l : list A) :
  (∀ x, x ∈ l → P x) → filter P l = l.
Proof.
  intros Hall. induction l as [|x l IH]; [reflexivity|].
  rewrite filter_cons, decide_True by (apply Hall; left).
  f_equal. apply IH. intros y Hy. apply Hall. by right.
Qed.

(** The closing check keeps every selected builder in
    [with_duplicate_switches], since each one counts its own switch: it
    raises whenever anything is selected. *)
Lemma check_duplicate_switches_raises (selected : list PipelineBuilder) :
  selected ≠ [] →
  check_duplicate_switches selected =
    Raise (ArcanaDesignError (MultipleMatchingBuilders selected)).
Proof.
  intros Hne. unfold check_duplicate_switches.
  rewrite filter_all.
  - by destruct selected.
  - intros p Hp. apply count_of_member, list_elem_of_fmap. by exists p.
Qed.

Lemma closing_check_never_returns (candidates selected : list PipelineBuilder) :
  is_ok (match selected with
         | [] => Raise (ArcanaDesignError (NoMatchingBuilders candidates))
         | _ => check_duplicate_switches selected
         end) = false.
Proof.
  destruct selected as [|p l]; [reflexivity|].
  by rewrite check_duplicate_switches_raises.
Qed.

(** No call of [select_pipeline_builders] returns a selection: it ends in one
    of its two errors, or in an exception raised on the way. *)
Lemma select_pipeline_builders_never_returns
    (om : string → option (list Value → result Value)) (depth : nat) (h : Heap)
    (self : ColumnSpec) (analysis : Value) (dataset : Dataset) :
  is_ok (select_pipeline_builders om depth h self analysis dataset) = false.
Proof.
  destruct depth as [|depth]; [reflexivity|]. simpl.
  destruct (getattr depth h analysis "__spec__") as [spec|]; [simpl|reflexivity].
  destruct (get_pipeline_builders spec) as [builders|]; [simpl|reflexivity].
  destruct (filter_r _ _) as [selected|]; [simpl|reflexivity].
  match goal with
  | |- is_ok (mbind _ ?r) = false => destruct r as [selected'|]; [simpl|reflexivity]
  end.
  apply closing_check_never_returns.
Qed.

(** C1: with exactly one builder selected (the unconditional [B2], which has
    no switch), the closing check of [select_pipeline_builders] raises the
    "multiple potential pipelines" error instead of returning the
    selection. *)
Theorem single_selected_builder_is_reported_ambiguous :
  select_pipeline_builders Examples.operators 2 Examples.heap_default
    Examples.out (VRef 1%positive) ∅
  = Raise (ArcanaDesignError (MultipleMatchingBuilders [Examples.B2])).
Proof. vm_compute. reflexivity. Qed.

(** ** Evaluation of conditions *)

(** An operation whose first operand is a plain value raises AttributeError
    while its operands are evaluated, whatever its operator. *)
Lemma evaluate_plain_operand (om : string → option (list Value → result Value))
    (depth : nat) (h : Heap) (operator : string) (a : Atom) (rest : list Operand)
    (analysis : Value) (dataset : Dataset) :
  evaluate om depth h (mkOperation operator (Plain a :: rest)) analysis dataset
  = Raise AttributeError.
Proof. reflexivity. Qed.

(** The [is_provided] branch itself, on operands that have been evaluated:
    false when the slot of the analysis holds [None]; otherwise true without
    a format operand, and with one true exactly when the format of the
    dataset column is that class or has it among its bases. *)
Lemma is_provided_on_evaluated_operands
    (om : string → option (list Value → result Value)) (depth : nat) (h : Heap)
    (slot : string) (analysis : Value) (dataset : Dataset) :
  (∀ rest, (length rest ≤ 1)%nat →
     getattr depth h analysis slot = Ok VNone →
     apply_operator om depth h "is_provided" (VStr slot :: rest) analysis dataset
     = Ok VFalse) ∧
  (∀ column_name column,
     getattr depth h analysis slot = Ok (VStr column_name) →
     dataset !! column_name = Some column →
     apply_operator om depth h "is_provided" [VStr slot] analysis dataset = Ok VTrue ∧
     ∀ fmt,
       apply_operator om depth h "is_provided" [VStr slot; VAtom (AClass fmt)]
         analysis dataset
       = Ok (if decide (cls_name (format column) = cls_name fmt ∨
                        cls_name fmt ∈ cls_mro (format column))
             then VTrue else VFalse)).
Proof.
  split.
  - intros rest Hlen Hnone. unfold apply_operator. simpl.
    unfold assert. rewrite decide_True by (simpl; lia). simpl.
    by rewrite Hnone.
  - intros column_name column Hbound Hcol. split.
    + unfold apply_operator. simpl. by rewrite Hbound; simpl; rewrite Hcol.
    + intros fmt. unfold apply_operator. simpl. rewrite Hbound; simpl. rewrite Hcol; simpl.
      repeat case_bool_decide; case_decide as Hor; try reflexivity;
        try (exfalso; apply Hor; auto); by destruct Hor.
Qed.

(** C7: [is_provided("x")] on an analysis whose slot [x] is bound to [None]
    does not return false: evaluating the operand ["x"] raises
    AttributeError before the [is_provided] branch is reached. *)
Theorem is_provided_of_unbound_slot_raises :
  getattr 1 Examples.heap_x (VRef 1%positive) "x" = Ok VNone ∧
  evaluate Examples.operators 1 Examples.heap_x Examples.is_provided_x
    (VRef 1%positive) ∅
  = Raise AttributeError.
Proof. split; vm_compute; reflexivity. Qed.

(** C2: with the conditional builder [B1] and the unconditional builder [B2]
    for the column [out], on an instance with [mode = "slow"], resolving
    [out] does not return [B2]: the call of [evaluate] on the condition of
    [B1] with three arguments raises TypeError. *)
Theorem default_after_false_condition_raises :
  select_pipeline_builders Examples.operators 3 Examples.heap_slow
    Examples.out (VRef 1%positive) ∅
  = Raise TypeError.
Proof. vm_compute. reflexivity. Qed.

(** The same condition evaluated with the two arguments [evaluate] declares
    raises AttributeError on its operand ["mode"]. *)
Lemma condition_of_B1_raises :
  evaluate Examples.operators 3 Examples.heap_slow Examples.mode_is_fast
    (VRef 1%positive) ∅
  = Raise AttributeError.
Proof. vm_compute. reflexivity. Qed.

(** C4: a column [c] mapped from column [inner] of the subanalysis [sub], with
    no local builder, does not resolve to the builder [Bi] of the nested
    definition: the wrapper and the nested [__spec__] are fetched, and the
    lookup of the method [column] on that [AnalysisSpec] raises
    AttributeError. *)
Theorem delegation_to_subanalysis_raises :
  getattr 2 Examples.heap_nested (VRef 2%positive) "__spec__"
    = Ok (VAnalysisSpec Examples.N_spec) ∧
  AnalysisSpec.column_spec Examples.N_spec "inner"
    = Ok (Examples.column "inner" ColumnSalience.publication None) ∧
  select_pipeline_builders Examples.operators 3 Examples.heap_nested
    Examples.c (VRef 1%positive) ∅
  = Raise AttributeError.
Proof. repeat split; vm_compute; reflexivity. Qed.

(** ** Validation of an [AnalysisSpec] *)

Lemma for_each_ok {A} (f : A → result unit) (l : list A) :
  for_each f l = Ok () ↔ ∀ x, x ∈ l → f x = Ok ().
Proof.
  induction l as [|x l IH]; simpl.
  - split; [intros _ y Hy; by apply elem_of_nil in Hy|done].
  - destruct (f x) as [[]|e] eqn:Hx; simpl.
    + rewrite IH. split.
      * intros Hl y [->|Hy]%elem_of_cons; auto.
      * intros Hl y Hy. apply Hl. by right.
    + split; [discriminate|]. intros Hl. specialize (Hl x). rewrite Hx in Hl.
      discriminate Hl. by left.
Qed.

Lemma for_each_raises {A} (f : A → result unit) (l : list A) (x : A) (e : exn) :
  x ∈ l → f x = Raise e → ∃ e', for_each f l = Raise e'.
Proof.
  intros Hx Hf. destruct (for_each f l) as [[]|e'] eqn:Hl; [|by exists e'].
  rewrite for_each_ok in Hl. rewrite (Hl x Hx) in Hf. discriminate.
Qed.

(** The first item on which the body raises decides the exception. *)
Lemma for_each_first_raise {A} (f : A → result unit) (l1 l2 : list A) (x : A) (e : exn) :
  (∀ y, y ∈ l1 → f y = Ok ()) → f x = Raise e →
  for_each f (l1 ++ x :: l2) = Raise e.
Proof.
  intros Hl1 Hx. induction l1 as [|y l1 IH]; simpl.
  - by rewrite Hx.
  - rewrite (Hl1 y) by left. simpl. apply IH. intros z Hz. apply Hl1. by right.
Qed.

Lemma bind_ok {A B} (m : result A) (f : A → result B) (b : B) :
  (m ≫= f) = Ok b → ∃ a, m = Ok a ∧ f a = Ok b.
Proof. destruct m as [a|e]; simpl; [by exists a|discriminate]. Qed.

Lemma init_ok_validate (space : string) (cs : list ColumnSpec) (bs : list PipelineBuilder)
    (ps : list ParameterSpec) (sw : list Switch) (ch : list CheckSpec)
    (sub : list SubanalysisSpec) (spec : AnalysisSpec) :
  AnalysisSpec_init space cs bs ps sw ch sub = Ok spec →
  spec = mkAnalysisSpec space cs bs ps sw ch sub ∧ validate spec = Ok ().
Proof.
  unfold AnalysisSpec_init. intros (u & Hv & [= <-])%bind_ok.
  by destruct u.
Qed.

Lemma validate_ok_columns (self : AnalysisSpec) :
  validate self = Ok () →
  ∀ c, c ∈ column_specs self → validate_column_spec (pipeline_builders self) c = Ok ().
Proof.
  unfold validate. intros (_ & _ & (u & Hcols & _)%bind_ok)%bind_ok.
  destruct u. by apply for_each_ok.
Qed.

Lemma validate_column_raises (self : AnalysisSpec) (c : ColumnSpec) (e : exn) :
  c ∈ column_specs self →
  validate_column_spec (pipeline_builders self) c = Raise e →
  ∃ e', validate self = Raise e'.
Proof.
  intros Hc He. unfold validate.
  destruct (unique_names c_name (column_specs self)) as [[]|e0]; [simpl|by exists e0].
  unfold column_specs_validator.
  destruct (for_each_raises _ _ _ _ Hc He) as [e' ->]. by exists e'.
Qed.

Lemma init_raises_of_validate (space : string) (cs : list ColumnSpec)
    (bs : list PipelineBuilder) (ps : list ParameterSpec) (sw : list Switch)
    (ch : list CheckSpec) (sub : list SubanalysisSpec) (e : exn) :
  validate (mkAnalysisSpec space cs bs ps sw ch sub) = Raise e →
  AnalysisSpec_init space cs bs ps sw ch sub = Raise e.
Proof. unfold AnalysisSpec_init. by intros ->. Qed.

(** *** The dictionary [sorted_by_cond] *)

Lemma append_to_not_nil (k : group_key) (p : PipelineBuilder)
    (d : list (group_key * list PipelineBuilder)) :
  append_to k p d ≠ [].
Proof. destruct d as [|[k' ps] d]; simpl; [done|]. by case_decide. Qed.

Lemma group_of_append_to (k k' : group_key) (p : PipelineBuilder)
    (d : list (group_key * list PipelineBuilder)) :
  group_of k (append_to k' p d) =
    if decide (k' = k) then group_of k d ++ [p] else group_of k d.
Proof.
  induction d as [|[k0 ps] d IH]; simpl.
  - by repeat case_decide.
  - destruct (decide (k0 = k')) as [->|Hne]; simpl.
    + by repeat case_decide.
    + destruct (decide (k0 = k)) as [->|]; [by rewrite decide_False|].
      exact IH.
Qed.

Lemma group_of_entry (k : group_key) (d : list (group_key * list PipelineBuilder)) :
  group_of k d ≠ [] → (k, group_of k d) ∈ d.
Proof.
  induction d as [|[k0 ps] d IH]; simpl; [done|].
  destruct (decide (k0 = k)) as [->|]; [left|]. intros Hne. right. by apply IH.
Qed.

Lemma keys_append_to (k : group_key) (p : PipelineBuilder)
    (d : list (group_key * list PipelineBuilder)) :
  (append_to k p d).*1 = if decide (k ∈ d.*1) then d.*1 else d.*1 ++ [k].
Proof.
  induction d as [|[k0 ps] d IH].
  - destruct (decide (k ∈ [].*1)) as [Hin|_]; [by apply elem_of_nil in Hin|done].
  - simpl append_to. destruct (decide (k0 = k)) as [->|Hne].
    + rewrite decide_True; [done|]. simpl. left.
    + rewrite !fmap_cons, IH. simpl.
      destruct (decide (k ∈ d.*1)) as [Hin|Hnin].
      * rewrite decide_True; [done|by right].
      * rewrite decide_False; [done|]. intros [->|?]%elem_of_cons; done.
Qed.

Lemma NoDup_keys_append_to (k : group_key) (p : PipelineBuilder)
    (d : list (group_key * list PipelineBuilder)) :
  NoDup d.*1 → NoDup (append_to k p d).*1.
Proof.
  intros Hd. rewrite keys_append_to. case_decide as Hk; [done|].
  apply NoDup_app. repeat split; [done| |apply NoDup_singleton].
  intros x Hx ->%list_elem_of_singleton. done.
Qed.

Lemma entry_is_group (k : group_key) (ps : list PipelineBuilder)
    (d : list (group_key * list PipelineBuilder)) :
  NoDup d.*1 → (k, ps) ∈ d → group_of k d = ps.
Proof.
  induction d as [|[k0 ps0] d IH]; simpl; [by intros _ ?%elem_of_nil|].
  intros [Hk0 Hd]%NoDup_cons [[= -> ->]|Hin]%elem_of_cons.
  - by rewrite decide_True.
  - rewrite decide_False; [by apply IH|].
    intros ->. apply Hk0. apply list_elem_of_fmap. by exists (k, ps).
Qed.

Lemma foldl_file_builder_group (c : ColumnSpec) (k : group_key)
    (builders : list PipelineBuilder) (d : list (group_key * list PipelineBuilder)) :
  group_of k (foldl (file_builder c) d builders) =
    group_of k d ++
    filter (λ p, c_name c ∈ outputs p ∧ (condition p, switch p) = k) builders.
Proof.
  revert d. induction builders as [|p builders IH]; intros d; simpl.
  - by rewrite app_nil_r.
  - rewrite IH, filter_cons. unfold file_builder.
    destruct (decide (c_name c ∈ outputs p)) as [Hout|Hout].
    + rewrite group_of_append_to.
      destruct (decide ((condition p, switch p) = k)) as [Hk|Hk].
      * rewrite decide_True by done. by rewrite <- app_assoc.
      * rewrite decide_False; [done|]. by intros [_ ?].
    + rewrite decide_False; [done|]. by intros [? _].
Qed.

Lemma foldl_file_builder_NoDup (c : ColumnSpec) (builders : list PipelineBuilder)
    (d : list (group_key * list PipelineBuilder)) :
  NoDup d.*1 → NoDup (foldl (file_builder c) d builders).*1.
Proof.
  revert d. induction builders as [|p builders IH]; intros d Hd; simpl; [done|].
  apply IH. unfold file_builder. case_decide; [by apply NoDup_keys_append_to|done].
Qed.

Lemma foldl_file_builder_nil (c : ColumnSpec) (builders : list PipelineBuilder)
    (d : list (group_key * list PipelineBuilder)) :
  foldl (file_builder c) d builders = [] ↔ d = [] ∧ producers builders c = [].
Proof.
  revert d. induction builders as [|p builders IH]; intros d; simpl.
  - unfold producers. rewrite filter_nil. split; [by intros ->|by intros [-> _]].
  - rewrite IH. unfold producers, file_builder. rewrite filter_cons.
    destruct (decide (c_name c ∈ outputs p)).
    + split; [intros [[]%append_to_not_nil _]|intros [_ [=]]].
    + done.
Qed.

(** The group the validator files under a key holds the builders that produce
    the column and carry that (condition, switch) pair, in declaration
    order. *)
Lemma sorted_by_cond_group (builders : list PipelineBuilder) (c : ColumnSpec)
    (k : group_key) :
  group_of k (sorted_by_cond builders c) =
    filter (λ p, c_name c ∈ outputs p ∧ (condition p, switch p) = k) builders.
Proof. unfold sorted_by_cond. by rewrite foldl_file_builder_group. Qed.

Lemma sorted_by_cond_entry (builders : list PipelineBuilder) (c : ColumnSpec)
    (k : group_key) (ps : list PipelineBuilder) :
  (k, ps) ∈ sorted_by_cond builders c →
  ps = filter (λ p, c_name c ∈ outputs p ∧ (condition p, switch p) = k) builders.
Proof.
  intros Hin. rewrite <- sorted_by_cond_group. symmetry.
  apply entry_is_group; [|done].
  unfold sorted_by_cond. apply foldl_file_builder_NoDup. constructor.
Qed.

Lemma sorted_by_cond_nil (builders : list PipelineBuilder) (c : ColumnSpec) :
  sorted_by_cond builders c = [] ↔ producers builders c = [].
Proof.
  unfold sorted_by_cond. rewrite foldl_file_builder_nil.
  split; [by intros [_ ?]|by intros ?].
Qed.

(** *** Columns that no builder produces *)

Lemma validate_column_without_producer (builders : list PipelineBuilder) (c : ColumnSpec) :
  producers builders c = [] → c_mapped_from c = None →
  validate_column_spec builders c =
    match consumers builders c with
    | [] => Raise (ArcanaDesignError (NeitherInputNorOutput (c_name c)))
    | _ :: _ =>
        if decide (level (c_salience c) ≤ level ColumnSalience.publication)
        then Raise (ArcanaDesignError (NotGenerated (c_name c)))
        else Ok ()
    end.
Proof.
  intros Hprod%sorted_by_cond_nil Hmap. unfold validate_column_spec.
  by rewrite Hprod, Hmap.
Qed.

(** C3 (amended): for a column that no builder produces and that is not mapped
    from a subanalysis, the check of the column raises when no builder takes
    it as an input; when some builder does, it raises the "not generated by
    any pipeline" error for a salience at or below [publication], and passes
    for a salience strictly above [publication].  Constructing an
    [AnalysisSpec] that holds such a column with a salience at or below
    [publication] fails, and one that is constructed has every such column
    strictly above [publication] and consumed by some builder. *)
Theorem column_without_producer_needs_salience_above_publication
    (builders : list PipelineBuilder) (c : ColumnSpec) :
  producers builders c = [] → c_mapped_from c = None →
  (consumers builders c = [] →
     validate_column_spec builders c =
       Raise (ArcanaDesignError (NeitherInputNorOutput (c_name c)))) ∧
  (consumers builders c ≠ [] →
     level (c_salience c) ≤ level ColumnSalience.publication →
     validate_column_spec builders c = Raise (ArcanaDesignError (NotGenerated (c_name c)))) ∧
  (consumers builders c ≠ [] →
     level ColumnSalience.publication < level (c_salience c) →
     validate_column_spec builders c = Ok ()) ∧
  (∀ space cs ps sw ch sub,
     c ∈ cs →
     (level (c_salience c) ≤ level ColumnSalience.publication →
        ∃ e, AnalysisSpec_init space cs builders ps sw ch sub = Raise e) ∧
     (∀ spec, AnalysisSpec_init space cs builders ps sw ch sub = Ok spec →
        level ColumnSalience.publication < level (c_salience c) ∧
        consumers builders c ≠ [])).
Proof.
  intros Hprod Hmap.
  pose proof (validate_column_without_producer builders c Hprod Hmap) as Hv.
  assert (level (c_salience c) ≤ level ColumnSalience.publication →
          ∃ e, validate_column_spec builders c = Raise e) as Hlow.
  { intros Hle. rewrite Hv. destruct (consumers builders c); [by eexists|].
    rewrite decide_True by done. by eexists. }
  split; [|split; [|split]].
  - intros Hcons. by rewrite Hv, Hcons.
  - intros Hcons Hle. rewrite Hv. destruct (consumers builders c); [done|].
    by rewrite decide_True.
  - intros Hcons Hlt. rewrite Hv. destruct (consumers builders c); [done|].
    rewrite decide_False; [done|lia].
  - intros space cs ps sw ch sub Hc. split.
    + intros [e He]%Hlow.
      destruct (validate_column_raises (mkAnalysisSpec space cs builders ps sw ch sub)
                  c e Hc He) as [e' He'].
      exists e'. by apply init_raises_of_validate.
    + intros spec [-> Hok]%init_ok_validate.
      pose proof (validate_ok_columns _ Hok c Hc) as Hcol. simpl in Hcol.
      rewrite Hv in Hcol. destruct (consumers builders c); [discriminate|].
      case_decide; [discriminate|]. split; [lia|done].
Qed.

Lemma column_without_producer_witness :
  validate_column_spec [Examples.Bc] (Examples.raw_in ColumnSalience.primary) = Ok () ∧
  validate_column_spec [Examples.Bc] (Examples.raw_in ColumnSalience.qa)
    = Raise (ArcanaDesignError (NotGenerated "raw_in")).
Proof.
  split.
  - refine (proj1 (proj2 (proj2
      (column_without_producer_needs_salience_above_publication
         [Examples.Bc] (Examples.raw_in ColumnSalience.primary) eq_refl eq_refl))) _ _).
    + discriminate.
    + reflexivity.
  - refine (proj1 (proj2
      (column_without_producer_needs_salience_above_publication
         [Examples.Bc] (Examples.raw_in ColumnSalience.qa) eq_refl eq_refl)) _ _).
    + discriminate.
    + discriminate.
Defined.

(** C3, as stated, fails at [publication]: the column [raw_in] has that
    salience, no producing builder and no [mapped_from], it is an input of
    [Bc], and the construction raises the "not generated by any pipeline"
    error; the column [stray], of salience [primary], is used by no builder
    and the construction fails as well. *)
Lemma publication_column_without_producer_is_rejected :
  producers [Examples.Bc] (Examples.raw_in ColumnSalience.publication) = [] ∧
  c_mapped_from (Examples.raw_in ColumnSalience.publication) = None ∧
  level ColumnSalience.publication
    ≤ level (c_salience (Examples.raw_in ColumnSalience.publication)) ∧
  AnalysisSpec_init "Clinical"
    [Examples.out; Examples.raw_in ColumnSalience.publication] [Examples.Bc] [] [] [] []
    = Raise (ArcanaDesignError (NotGenerated "raw_in")) ∧
  AnalysisSpec_init "Clinical" [Examples.out; Examples.stray] [Examples.Bc] [] [] [] []
    = Raise (ArcanaDesignError (NeitherInputNorOutput "stray")).
Proof. repeat split; vm_compute; congruence. Qed.

(** *** Builders under the same condition and switch *)

Lemma filter_two_positions {A} (P : A → Prop) `{∀ x, Decision (P x)} (l : list A)
    (i j : nat) (a b : A) :
  i ≠ j → l !! i = Some a → l !! j = Some b → P a → P b →
  (1 < length (filter P l))%nat.
Proof.
  revert i j. induction l as [|x l IH]; intros i j Hij Hi Hj Ha Hb; [done|].
  assert (∀ y, y ∈ l → P y → (0 < length (filter P l))%nat) as Hone.
  { intros y Hy HPy. assert (y ∈ filter P l) as Hin by by apply list_elem_of_filter.
    destruct (filter P l); [by apply elem_of_nil in Hin|simpl; lia]. }
  rewrite filter_cons. destruct i as [|i], j as [|j]; simpl in *; simplify_eq.
  - rewrite decide_True by done. simpl.
    apply list_elem_of_lookup_2 in Hj. specialize (Hone _ Hj Hb). lia.
  - rewrite decide_True by done. simpl.
    apply list_elem_of_lookup_2 in Hi. specialize (Hone _ Hi Ha). lia.
  - assert (i ≠ j) as Hij' by congruence.
    specialize (IH i j Hij' Hi Hj Ha Hb). case_decide; simpl; lia.
Qed.

Lemma validate_builder_raises (self : AnalysisSpec) (p : PipelineBuilder) (e : exn) :
  p ∈ pipeline_builders self →
  validate_pipeline_builder self p = Raise e →
  ∃ e', validate self = Raise e'.
Proof.
  intros Hp He. unfold validate.
  destruct (unique_names c_name (column_specs self)) as [[]|e0]; [simpl|by exists e0].
  destruct (column_specs_validator self (column_specs self)) as [[]|e0];
    [simpl|by exists e0].
  destruct (unique_names name (pipeline_builders self)) as [[]|e0]; [simpl|by exists e0].
  unfold pipeline_builders_validator.
  destruct (for_each_raises _ _ _ _ Hp He) as [e' ->]. by exists e'.
Qed.

(** The check of a column that two builders produce under the same pair. *)
Lemma validate_column_with_conflict (builders : list PipelineBuilder) (c : ColumnSpec)
    (i j : nat) (p1 p2 : PipelineBuilder) :
  i ≠ j → builders !! i = Some p1 → builders !! j = Some p2 →
  c_name c ∈ outputs p1 → c_name c ∈ outputs p2 →
  (condition p1, switch p1) = (condition p2, switch p2) →
  ∃ duplicated group,
    validate_column_spec builders c =
      Raise (ArcanaDesignError (MultipleProviders (c_name c) duplicated)) ∧
    ((condition p1, switch p1), group) ∈ duplicated ∧ p1 ∈ group ∧ p2 ∈ group.
Proof.
  intros Hij Hi Hj Ho1 Ho2 Hk.
  set (k := (condition p1, switch p1)) in *.
  set (group := group_of k (sorted_by_cond builders c)).
  assert (1 < length group)%nat as Hlen.
  { unfold group. rewrite sorted_by_cond_group.
    by eapply (filter_two_positions _ builders i j p1 p2). }
  assert ((k, group) ∈ filter (λ cd : group_key * list PipelineBuilder,
                                 (1 < length cd.2)%nat)
                              (sorted_by_cond builders c)) as Hin.
  { apply list_elem_of_filter. split; [done|].
    apply group_of_entry. fold group. intros Hnil. rewrite Hnil in Hlen.
    simpl in Hlen. lia. }
  unfold validate_column_spec.
  destruct (filter _ (sorted_by_cond builders c)) as [|x dup] eqn:Hdup;
    [by apply elem_of_nil in Hin|].
  exists (x :: dup), group. split; [done|]. split; [done|].
  unfold group. rewrite sorted_by_cond_group.
  split; apply list_elem_of_filter; (split; [done|by eapply list_elem_of_lookup_2]).
Qed.

(** When the names of the columns are unique and the columns in front of the
    conflicting one pass their checks, the construction raises the error of
    that column. *)
Lemma first_failing_column_decides (space : string) (cs1 cs2 : list ColumnSpec)
    (c : ColumnSpec) (builders : list PipelineBuilder) (ps : list ParameterSpec)
    (sw : list Switch) (ch : list CheckSpec) (sub : list SubanalysisSpec) (e : exn) :
  unique_names c_name (cs1 ++ c :: cs2) = Ok () →
  (∀ c', c' ∈ cs1 → validate_column_spec builders c' = Ok ()) →
  validate_column_spec builders c = Raise e →
  AnalysisSpec_init space (cs1 ++ c :: cs2) builders ps sw ch sub = Raise e.
Proof.
  intros Hunique Hfront Hc. apply init_raises_of_validate.
  unfold validate. simpl. rewrite Hunique. simpl.
  unfold column_specs_validator. simpl.
  by rewrite (for_each_first_raise _ cs1 cs2 c e Hfront Hc).
Qed.

(** C5: a constructed [AnalysisSpec] has, for every column and every
    (condition, switch) pair, at most one builder that produces the column
    under that pair, and the dictionary of the validator holds no longer
    group.  When two builders (at different positions) share an output under
    the same pair, the construction fails; and for a column of the definition
    of that name, the check of the column raises the "multiple pipelines"
    error, whose listing has the group of that pair with both builders in
    it, and this is the error of the construction when the column names are
    unique and the columns in front of that one pass their checks. *)
Theorem builders_of_a_column_differ_in_condition_or_switch
    (space : string) (cs : list ColumnSpec) (builders : list PipelineBuilder)
    (ps : list ParameterSpec) (sw : list Switch) (ch : list CheckSpec)
    (sub : list SubanalysisSpec) :
  (∀ spec, AnalysisSpec_init space cs builders ps sw ch sub = Ok spec →
     ∀ c, c ∈ column_specs spec →
       (∀ k group, (k, group) ∈ sorted_by_cond (pipeline_builders spec) c →
          (length group ≤ 1)%nat) ∧
       (∀ k, (length (filter (λ p, c_name c ∈ outputs p ∧ (condition p, switch p) = k)
                        (pipeline_builders spec)) ≤ 1)%nat)) ∧
  (∀ i j p1 p2 o,
     i ≠ j → builders !! i = Some p1 → builders !! j = Some p2 →
     o ∈ outputs p1 → o ∈ outputs p2 →
     (condition p1, switch p1) = (condition p2, switch p2) →
     (∃ e, AnalysisSpec_init space cs builders ps sw ch sub = Raise e) ∧
     (∀ c, c ∈ cs → c_name c = o →
        ∃ duplicated group,
          validate_column_spec builders c =
            Raise (ArcanaDesignError (MultipleProviders (c_name c) duplicated)) ∧
          ((condition p1, switch p1), group) ∈ duplicated ∧ p1 ∈ group ∧ p2 ∈ group ∧
          (∀ cs1 cs2,
             cs = cs1 ++ c :: cs2 →
             unique_names c_name cs = Ok () →
             (∀ c', c' ∈ cs1 → validate_column_spec builders c' = Ok ()) →
             AnalysisSpec_init space cs builders ps sw ch sub =
               Raise (ArcanaDesignError (MultipleProviders (c_name c) duplicated))))).
Proof.
  split.
  - intros spec [-> Hok]%init_ok_validate c Hc.
    pose proof (validate_ok_columns _ Hok c Hc) as Hcol. simpl in *.
    unfold validate_column_spec in Hcol.
    destruct (filter _ (sorted_by_cond builders c)) as [|x dup] eqn:Hdup; [|discriminate].
    assert (∀ k group, (k, group) ∈ sorted_by_cond builders c → (length group ≤ 1)%nat)
      as Hgroups.
    { intros k group Hin. destruct (decide (1 < length group)%nat) as [Hlt|]; [|lia].
      assert ((k, group) ∈ filter (λ cd : group_key * list PipelineBuilder,
                                     (1 < length cd.2)%nat)
                                  (sorted_by_cond builders c)) as Hin'
        by by apply list_elem_of_filter.
      rewrite Hdup in Hin'. by apply elem_of_nil in Hin'. }
    split; [exact Hgroups|].
    intros k. rewrite <- sorted_by_cond_group.
    destruct (group_of k (sorted_by_cond builders c)) as [|p l] eqn:Hg; [simpl; lia|].
    rewrite <- Hg. apply (Hgroups k). apply group_of_entry. by rewrite Hg.
  - intros i j p1 p2 o Hij Hi Hj Ho1 Ho2 Hk.
    assert (∀ c, c ∈ cs → c_name c = o →
              ∃ duplicated group,
                validate_column_spec builders c =
                  Raise (ArcanaDesignError (MultipleProviders (c_name c) duplicated)) ∧
                ((condition p1, switch p1), group) ∈ duplicated ∧ p1 ∈ group ∧ p2 ∈ group)
      as Hcheck.
    { intros c _ <-. by eapply validate_column_with_conflict. }
    split.
    + set (self := mkAnalysisSpec space cs builders ps sw ch sub).
      assert (∃ e, validate self = Raise e) as [e He].
      { destruct (decide (o ∈ c_name <$> cs)) as [Hdecl|Hundecl].
        - apply list_elem_of_fmap in Hdecl as (c & -> & Hc).
          destruct (Hcheck c Hc eq_refl) as (duplicated & group & Hraise & _).
          by eapply (validate_column_raises self c).
        - apply (validate_builder_raises self p1
                   (ArcanaDesignError
                      (UnknownOutputColumns (name p1)
                         (filter (λ o, o ∉ c_name <$> cs) (outputs p1))))).
          + by eapply list_elem_of_lookup_2.
          + unfold validate_pipeline_builder. simpl.
            assert (o ∈ filter (λ o, o ∉ c_name <$> cs) (outputs p1)) as Hin
              by by apply list_elem_of_filter.
            destruct (filter _ (outputs p1)); [by apply elem_of_nil in Hin|done]. }
      exists e. by apply init_raises_of_validate.
    + intros c Hc Ho.
      destruct (Hcheck c Hc Ho) as (duplicated & group & Hraise & Hin & Hp1 & Hp2).
      exists duplicated, group. repeat (split; [done|]).
      intros cs1 cs2 -> Hunique Hfront. by apply first_failing_column_decides.
Qed.

Lemma builders_of_a_column_witness :
  (∃ e, AnalysisSpec_init "Clinical" [Examples.out] [Examples.B2; Examples.B3] [] [] [] []
        = Raise e) ∧
  (∀ k, (length (filter (λ p, "out" ∈ outputs p ∧ (condition p, switch p) = k)
                   [Examples.B1; Examples.B2]) ≤ 1)%nat).
Proof.
  split.
  - refine (proj1 (proj2 (builders_of_a_column_differ_in_condition_or_switch
      "Clinical" [Examples.out] [Examples.B2; Examples.B3] [] [] [] [])
      0%nat 1%nat Examples.B2 Examples.B3 "out" _ eq_refl eq_refl _ _ eq_refl)).
    + discriminate.
    + left.
    + left.
  - refine (proj2 (proj1 (builders_of_a_column_differ_in_condition_or_switch
      "Clinical" [Examples.out] [Examples.B1; Examples.B2] [] [] [] [])
      (mkAnalysisSpec "Clinical" [Examples.out] [Examples.B1; Examples.B2] [] [] [] [])
      _ Examples.out _)).
    + vm_compute. reflexivity.
    + left.
Defined.

(** Two unconditional builders without a switch for the same column: the
    construction raises the error that lists both. *)
Lemma two_default_builders_are_rejected :
  AnalysisSpec_init "Clinical" [Examples.out] [Examples.B2; Examples.B3] [] [] [] []
  = Raise (ArcanaDesignError
             (MultipleProviders "out" [((None, None), [Examples.B2; Examples.B3])])).
Proof. vm_compute. reflexivity. Qed.

(** ** The [Subanalysis] wrapper *)

Lemma mapping_of_mapped (spec : SubanalysisSpec) (attr : string) :
  attr ∈ (mappings spec).*1 →
  ∃ mapped_name, (attr, mapped_name) ∈ mappings spec ∧ mapping spec attr = Ok mapped_name.
Proof.
  unfold mapping. induction (mappings spec) as [|[n m] l IH]; simpl.
  - by intros ?%elem_of_nil.
  - intros Hin. rewrite filter_cons. simpl.
    destruct (decide (attr = n)) as [->|Hne]; simpl.
    + exists m. split; [left|done].
    + apply elem_of_cons in Hin as [?|Hin]; [done|].
      destruct (IH Hin) as (m' & Hm' & Heq). exists m'. split; [by right|done].
Qed.

Lemma mapping_of_unmapped (spec : SubanalysisSpec) (attr : string) :
  attr ∉ (mappings spec).*1 → mapping spec attr = Raise KeyError.
Proof.
  intros Hnin. unfold mapping. rewrite filter_none; [done|].
  intros [n m] Hin ->. apply Hnin. apply list_elem_of_fmap. by exists (n, m).
Qed.

Lemma not_own_field (attr : string) :
  attr ∉ ["_spec"; "_analysis"; "_parent"] →
  attr ≠ "_spec" ∧ attr ≠ "_analysis" ∧ attr ≠ "_parent".
Proof. intros Hown. repeat split; intros ->; apply Hown; repeat constructor. Qed.

Lemma getattr_wrapper (depth : nat) (h : Heap) (o : oid) (self : Subanalysis)
    (spec : SubanalysisSpec) (attr : string) :
  h !! o = Some (Wrapper self) →
  _spec self = VSubanalysisSpec spec →
  attr ∉ ["_spec"; "_analysis"; "_parent"] →
  _type self !! attr = None →
  getattr (S depth) h (VRef o) attr =
    match mapping spec attr with
    | Raise KeyError => getattr depth h (_analysis self) attr
    | Raise e => Raise e
    | Ok mapped_name => getattr depth h (_parent self) mapped_name
    end.
Proof.
  intros Ho Hspec (Hn1 & Hn2 & Hn3)%not_own_field Htype. simpl. rewrite Ho.
  rewrite (decide_False _ _ Hn1), (decide_False _ _ Hn2), (decide_False _ _ Hn3).
  by rewrite Htype, Hspec.
Qed.

Lemma getattr_wrapper_on_class (depth : nat) (h : Heap) (o : oid) (self : Subanalysis)
    (attr : string) (x : Value) :
  h !! o = Some (Wrapper self) →
  attr ∉ ["_spec"; "_analysis"; "_parent"] →
  _type self !! attr = Some x →
  getattr (S depth) h (VRef o) attr = Ok x.
Proof.
  intros Ho (Hn1 & Hn2 & Hn3)%not_own_field Htype. simpl. rewrite Ho.
  rewrite (decide_False _ _ Hn1), (decide_False _ _ Hn2), (decide_False _ _ Hn3).
  by rewrite Htype.
Qed.

Lemma setattr_wrapper (depth : nat) (h : Heap) (o : oid) (self : Subanalysis)
    (spec : SubanalysisSpec) (attr : string) (value : Value) :
  h !! o = Some (Wrapper self) →
  _spec self = VSubanalysisSpec spec →
  attr ∉ ["_spec"; "_analysis"; "_parent"] →
  setattr (S depth) h (VRef o) attr value =
    match mapping spec attr with
    | Raise KeyError => setattr depth h (_analysis self) attr value
    | Raise e => Raise e
    | Ok mapped_name => Raise AttributeError
    end.
Proof.
  intros Ho Hspec (Hn1 & Hn2 & Hn3)%not_own_field. simpl. rewrite Ho.
  rewrite (decide_False _ _ Hn1), (decide_False _ _ Hn2), (decide_False _ _ Hn3).
  by rewrite Hspec.
Qed.

(** C8 (amended): on a [Subanalysis] wrapper, for every name other than the
    wrapper's own fields [_spec], [_analysis] and [_parent]: a write to a
    name of the mappings table raises AttributeError, and a write to a name
    that is not in the table is the write of that attribute on the nested
    analysis; a read of a name that the normal lookup does not find on the
    class of the wrapper returns, for a name of the table, the attribute of
    the parent under the mapped name and, for a name that is not in the
    table, the attribute of the nested analysis; a read of a name that the
    normal lookup finds on the class returns the attribute of the class,
    whether the table has the name or not. *)
Theorem wrapper_redirects_mapped_names (depth : nat) (h : Heap) (o : oid)
    (self : Subanalysis) (spec : SubanalysisSpec) (attr : string) :
  h !! o = Some (Wrapper self) →
  _spec self = VSubanalysisSpec spec →
  attr ∉ ["_spec"; "_analysis"; "_parent"] →
  (attr ∈ (mappings spec).*1 →
     ∃ mapped_name,
       (attr, mapped_name) ∈ mappings spec ∧
       (_type self !! attr = None →
          getattr (S depth) h (VRef o) attr
          = getattr depth h (_parent self) mapped_name) ∧
       ∀ value, setattr (S depth) h (VRef o) attr value = Raise AttributeError) ∧
  (attr ∉ (mappings spec).*1 →
     (_type self !! attr = None →
        getattr (S depth) h (VRef o) attr = getattr depth h (_analysis self) attr) ∧
     ∀ value, setattr (S depth) h (VRef o) attr value
              = setattr depth h (_analysis self) attr value) ∧
  (∀ x, _type self !! attr = Some x → getattr (S depth) h (VRef o) attr = Ok x).
Proof.
  intros Ho Hspec Hown. split; [|split].
  - intros (mapped_name & Hin & Hmap)%mapping_of_mapped.
    exists mapped_name. split; [done|]. split.
    + intros Htype. by rewrite (getattr_wrapper _ _ _ _ _ _ Ho Hspec Hown Htype), Hmap.
    + intros value. by rewrite (setattr_wrapper _ _ _ _ _ _ _ Ho Hspec Hown), Hmap.
  - intros Hmap%mapping_of_unmapped. split.
    + intros Htype. by rewrite (getattr_wrapper _ _ _ _ _ _ Ho Hspec Hown Htype), Hmap.
    + intros value. by rewrite (setattr_wrapper _ _ _ _ _ _ _ Ho Hspec Hown), Hmap.
  - intros x Htype. by apply (getattr_wrapper_on_class _ _ _ self).
Qed.

Lemma wrapper_redirects_witness :
  getattr 2 Examples.heap_nested (VRef 2%positive) "inner"
    = getattr 1 Examples.heap_nested (VRef 1%positive) "c" ∧
  setattr 2 Examples.heap_nested (VRef 2%positive) "inner" (VStr "t1w")
    = Raise AttributeError ∧
  getattr 2 Examples.heap_nested (VRef 2%positive) "_dataset"
    = getattr 1 Examples.heap_nested (VRef 3%positive) "_dataset" ∧
  setattr 2 Examples.heap_nested (VRef 2%positive) "_dataset" VNone
    = setattr 1 Examples.heap_nested (VRef 3%positive) "_dataset" VNone.
Proof.
  pose proof (λ attr Hown,
    wrapper_redirects_mapped_names 1 Examples.heap_nested 2%positive _
      Examples.sub_spec attr eq_refl eq_refl Hown) as Hw.
  assert ("inner" ∉ ["_spec"; "_analysis"; "_parent"]) as Hinner by not_in_list.
  assert ("_dataset" ∉ ["_spec"; "_analysis"; "_parent"]) as Hdataset by not_in_list.
  destruct (proj1 (Hw "inner" Hinner)) as (mapped_name & Hin & Hget & Hset); [left|].
  apply list_elem_of_singleton in Hin. injection Hin as <-.
  split; [exact (Hget eq_refl)|]. split; [apply Hset|].
  assert ("_dataset" ∉ (mappings Examples.sub_spec).*1) as Hunmapped
    by (simpl; not_in_list).
  destruct (proj1 (proj2 (Hw "_dataset" Hdataset)) Hunmapped) as [Hget' Hset'].
  split; [exact (Hget' eq_refl)|apply Hset'].
Defined.

(** C8, as stated, fails for a name of the mappings table that is one of the
    wrapper's own fields: with [_parent] mapped to [p], a write to [_parent]
    on the wrapper raises nothing and replaces the field, and a read of
    [_parent] returns the field, not the attribute [p] of the parent. *)
Lemma write_to_mapped_own_field_is_accepted :
  "_parent" ∈ (mappings Examples.odd_spec).*1 ∧
  setattr 2 Examples.heap_odd (VRef 2%positive) "_parent" VNone
    = Ok (<[2%positive := Wrapper (mkSubanalysis Examples.Subanalysis_type
                                                 (VSubanalysisSpec Examples.odd_spec)
                                                 (VRef 3%positive) VNone)]>
            Examples.heap_odd) ∧
  getattr 2 Examples.heap_odd (VRef 2%positive) "_parent" = Ok (VRef 1%positive) ∧
  getattr 2 Examples.heap_odd (VRef 1%positive) "p" = Ok (VInt 7).
Proof. split; [left|]. repeat split; vm_compute; reflexivity. Qed.

(** It fails as well for a name of the mappings table that the normal lookup
    finds on the class of the wrapper: with [__doc__] mapped to [p], a read
    of [__doc__] returns the docstring of [Subanalysis], not the attribute
    [p] of the parent, and a read of the unmapped [__class__] returns the
    class of the wrapper, not that of the nested analysis. *)
Lemma read_of_class_attribute_is_not_redirected :
  "__doc__" ∈ (mappings Examples.doc_spec).*1 ∧
  getattr 2 Examples.heap_doc (VRef 2%positive) "__doc__"
    = Ok (VStr "Wrapper around the actual analysis class of the subanalysis, which performs the
    mapping of attributes") ∧
  getattr 2 Examples.heap_doc (VRef 1%positive) "p" = Ok (VInt 7) ∧
  getattr 2 Examples.heap_doc (VRef 2%positive) "__class__"
    = Ok (VAtom (AClass (mkClass "Subanalysis" ["Subanalysis"; "object"]))).
Proof. split; [left|]. repeat split; vm_compute; reflexivity. Qed.

(** ** Overriding a builder of a base class *)

Lemma extend_by_name_prefix {A} (name_of : A → string) (base_lst lst : list A) :
  ∃ added, extend_by_name name_of lst base_lst = lst ++ added.
Proof.
  unfold extend_by_name. revert lst.
  induction base_lst as [|b base_lst IH]; intros lst; simpl.
  - exists []. by rewrite app_nil_r.
  - case_decide; [apply IH|].
    destruct (IH (lst ++ [b])) as [added ->]. exists (b :: added).
    by rewrite <- app_assoc.
Qed.

Lemma next_filter_app {A} (P : A → Prop) `{∀ x, Decision (P x)} (l added : list A) (x : A) :
  next (filter P l) = Ok x → next (filter P (l ++ added)) = Ok x.
Proof. rewrite filter_app. by destruct (filter P l). Qed.

Lemma next_filter_extend (nm : string) (base_lst lst : list PipelineBuilder)
    (builder : PipelineBuilder) :
  next (filter (λ b, name b = nm) lst) = Ok builder →
  next (filter (λ b, name b = nm) (extend_by_name name lst base_lst)) = Ok builder.
Proof.
  intros Hb. destruct (extend_by_name_prefix name base_lst lst) as [added ->].
  by apply next_filter_app.
Qed.

Lemma filter_insert_sorted {A} (key : A → string) (nm : string) (x : A) (l : list A) :
  filter (λ b, key b = nm) (insert_sorted key x l) =
    filter (λ b, key b = nm) (x :: l).
Proof.
  induction l as [|y l IH]; simpl; [done|].
  destruct (String.leb (key x) (key y)) eqn:Hle; [done|].
  rewrite (filter_cons _ y), IH, !filter_cons.
  destruct (decide (key y = nm)) as [Hy|]; [|done].
  destruct (decide (key x = nm)) as [Hx|]; [|done].
  rewrite Hx, Hy in Hle. destruct (String.leb_total nm nm); congruence.
Qed.

(** Sorting on the name keeps, for each name, the items of that name in their
    order. *)
Lemma filter_sorted {A} (key : A → string) (nm : string) (l : list A) :
  filter (λ b, key b = nm) (sorted key l) = filter (λ b, key b = nm) l.
Proof.
  induction l as [|x l IH]; [done|]. unfold sorted. simpl.
  rewrite filter_insert_sorted, !filter_cons. fold (sorted key l). by rewrite IH.
Qed.

Lemma check_override_spec (builders : list PipelineBuilder)
    (base_builder builder : PipelineBuilder) :
  next (filter (λ b, name b = name base_builder) builders) = Ok builder →
  (outputs base_builder ⊆ outputs builder → check_override builders base_builder = Ok ()) ∧
  (∀ o, o ∈ outputs base_builder → o ∉ outputs builder →
     ∃ missing_outputs,
       o ∈ missing_outputs ∧
       check_override builders base_builder =
         Raise (ArcanaDesignError (MissingOutputs missing_outputs (name builder)))).
Proof.
  intros Hb. unfold check_override. rewrite Hb. split.
  - intros Hsub. rewrite filter_none; [done|]. intros o Ho Hno. by apply Hno, Hsub.
  - intros o Ho Hno.
    assert (o ∈ filter (λ o, o ∉ outputs builder) (outputs base_builder)) as Hin
      by by apply list_elem_of_filter.
    destruct (filter _ (outputs base_builder)) as [|o' l] eqn:Hf;
      [by apply elem_of_nil in Hin|].
    by eexists.
Qed.

Lemma combine_with_base_ok (klass_dict : list (string * bool)) (space : string)
    (cm cm' : Components) (base : AnalysisSpec) :
  combine_with_base klass_dict space cm base = Ok cm' →
  cm_pipeline_builders cm' =
    extend_by_name name (cm_pipeline_builders cm) (pipeline_builders base) ∧
  ∀ base_builder, base_builder ∈ pipeline_builders base →
    check_override (cm_pipeline_builders cm) base_builder = Ok ().
Proof.
  unfold combine_with_base. case_decide; [|discriminate].
  intros (_ & _ & (_ & _ & (_ & _ & (u & Hover & [= <-])%bind_ok)%bind_ok)%bind_ok)%bind_ok.
  split; [done|]. destruct u. by apply for_each_ok.
Qed.

Lemma next_filter_cases {A} (P : A → Prop) `{∀ x, Decision (P x)} (l : list A) :
  next (filter P l) = Raise StopIteration ∨ ∃ x, next (filter P l) = Ok x.
Proof. destruct (filter P l) as [|x l']; [by left|right; by exists x]. Qed.

Lemma check_override_ok_iff (builders : list PipelineBuilder) (base_builder : PipelineBuilder) :
  check_override builders base_builder = Ok () ↔
  ∀ builder, next (filter (λ b, name b = name base_builder) builders) = Ok builder →
             outputs base_builder ⊆ outputs builder.
Proof.
  destruct (next_filter_cases (λ b, name b = name base_builder) builders)
    as [Hnone|[builder Hb]].
  - unfold check_override. rewrite Hnone. split; [by intros _ builder [=]|done].
  - destruct (check_override_spec _ _ _ Hb) as [Hok Hraise]. split.
    + intros Hcheck builder' Hb'. rewrite Hb in Hb'. injection Hb' as <-.
      intros o Ho. destruct (decide (o ∈ outputs builder)) as [|Hno]; [done|].
      destruct (Hraise o Ho Hno) as (m & _ & Hr). rewrite Hr in Hcheck. discriminate.
    + intros Hsub. by apply Hok, Hsub.
Qed.

(** Combining with a base succeeds exactly when the space is the same, no
    attribute of the base is overwritten without [Inherited], and every
    builder that the class declares under the name of a builder of the base
    keeps the outputs of that builder. *)
Lemma combine_with_base_succeeds_iff (klass_dict : list (string * bool)) (space' : string)
    (cm cm' : Components) (base : AnalysisSpec) :
  combine_with_base klass_dict space' cm base = Ok cm' ↔
    space base = space' ∧
    overwritten klass_dict (c_name <$> column_specs base) = [] ∧
    overwritten klass_dict (p_name <$> parameters base) = [] ∧
    overwritten klass_dict (sa_name <$> subanalyses base) = [] ∧
    (∀ base_builder builder,
       base_builder ∈ pipeline_builders base →
       next (filter (λ b, name b = name base_builder) (cm_pipeline_builders cm))
         = Ok builder →
       outputs base_builder ⊆ outputs builder) ∧
    cm' = mkComponents
            (extend_by_name c_name (cm_column_specs cm) (column_specs base))
            (extend_by_name name (cm_pipeline_builders cm) (pipeline_builders base))
            (extend_by_name p_name (cm_parameters cm) (parameters base))
            (extend_by_name s_name (cm_switches cm) (switches base))
            (extend_by_name k_name (cm_checks cm) (checks base))
            (extend_by_name sa_name (cm_subanalyses cm) (subanalyses base)).
Proof.
  unfold combine_with_base, check_overwritten.
  destruct (decide (space base = space')) as [Hs|Hs]; [|split; [discriminate|by intros []]].
  destruct (overwritten klass_dict (c_name <$> column_specs base));
    [simpl|split; [discriminate|by intros (_ & [=] & _)]].
  destruct (overwritten klass_dict (p_name <$> parameters base));
    [simpl|split; [discriminate|by intros (_ & _ & [=] & _)]].
  destruct (overwritten klass_dict (sa_name <$> subanalyses base));
    [simpl|split; [discriminate|by intros (_ & _ & _ & [=] & _)]].
  destruct (for_each _ (pipeline_builders base)) as [[]|e] eqn:Hfor; simpl.
  - rewrite for_each_ok in Hfor. split.
    + intros [= <-]. repeat split; try done.
      intros bb b Hbb. by apply check_override_ok_iff, Hfor.
    + by intros (_ & _ & _ & _ & _ & ->).
  - split; [discriminate|]. intros (_ & _ & _ & _ & Hsub & _).
    assert (for_each (check_override (cm_pipeline_builders cm)) (pipeline_builders base)
            = Ok ()) as Hok.
    { apply for_each_ok. intros bb Hbb. apply check_override_ok_iff.
      intros b. by apply Hsub. }
    rewrite Hok in Hfor. discriminate.
Qed.

Lemma combine_with_bases_keeps_first (klass_dict : list (string * bool)) (space : string)
    (bases : list AnalysisSpec) (cm cm' : Components) (nm : string)
    (builder : PipelineBuilder) :
  combine_with_bases klass_dict space cm bases = Ok cm' →
  next (filter (λ b, name b = nm) (cm_pipeline_builders cm)) = Ok builder →
  next (filter (λ b, name b = nm) (cm_pipeline_builders cm')) = Ok builder.
Proof.
  revert cm. induction bases as [|base bases IH]; intros cm; simpl.
  - by intros [= <-].
  - intros (cm1 & H1 & Hrest)%bind_ok Hb. apply (IH cm1 Hrest).
    apply combine_with_base_ok in H1 as [-> _]. by apply next_filter_extend.
Qed.

Lemma combine_with_bases_checks (klass_dict : list (string * bool)) (space : string)
    (bases : list AnalysisSpec) (cm cm' : Components) (base : AnalysisSpec)
    (base_builder builder : PipelineBuilder) :
  combine_with_bases klass_dict space cm bases = Ok cm' →
  base ∈ bases → base_builder ∈ pipeline_builders base →
  next (filter (λ b, name b = name base_builder) (cm_pipeline_builders cm)) = Ok builder →
  outputs base_builder ⊆ outputs builder.
Proof.
  revert cm. induction bases as [|base0 bases IH]; intros cm; simpl.
  - by intros _ ?%elem_of_nil.
  - intros (cm1 & H1 & Hrest)%bind_ok Hbase Hbb Hb.
    apply combine_with_base_ok in H1 as [Hpbs Hchecks].
    apply elem_of_cons in Hbase as [->|Hbase].
    + specialize (Hchecks _ Hbb). intros o Ho.
      destruct (decide (o ∈ outputs builder)) as [|Hno]; [done|].
      destruct (proj2 (check_override_spec _ _ _ Hb) o Ho Hno) as (m & _ & Hraise).
      rewrite Hraise in Hchecks. discriminate.
    + apply (IH cm1 Hrest Hbase Hbb). rewrite Hpbs. by apply next_filter_extend.
Qed.

(** C6: for a base of the chain and a builder of it that the derived class
    declares again under the same name ([builder] is the one of that name in
    the lists of the class body): if an output of the base builder is missing
    from the outputs of the derived one, [make_class] fails; if the outputs of
    the derived builder include those of the base one, the override check
    accepts the builder, the merged list of builders holds the derived
    builder under that name, and the spec that [make_class] returns gives the
    derived builder, with its outputs, for that name.  With one base,
    [make_class] returns the merged spec when the space is the same, nothing
    is overwritten without [Inherited], every builder declared again keeps
    the outputs of the base and the merged spec passes its validators. *)
Theorem override_must_keep_the_outputs_of_the_base
    (klass_dict : list (string * bool)) (space' : string) (cm : Components)
    (bases : list AnalysisSpec) (base : AnalysisSpec)
    (base_builder builder : PipelineBuilder) :
  base ∈ bases →
  base_builder ∈ pipeline_builders base →
  next (filter (λ b, name b = name base_builder) (cm_pipeline_builders cm)) = Ok builder →
  ((∃ o, o ∈ outputs base_builder ∧ o ∉ outputs builder) →
     ∃ e, make_class klass_dict space' cm bases = Raise e) ∧
  (outputs base_builder ⊆ outputs builder →
     check_override (cm_pipeline_builders cm) base_builder = Ok () ∧
     next (filter (λ b, name b = name base_builder)
             (extend_by_name name (cm_pipeline_builders cm) (pipeline_builders base)))
       = Ok builder ∧
     (∀ spec, make_class klass_dict space' cm bases = Ok spec →
        AnalysisSpec.pipeline_builder spec (name base_builder) = Ok builder ∧
        ∀ o, o ∈ outputs builder ↔ o ∈ outputs base_builder ∨ o ∈ outputs builder) ∧
     (bases = [base] →
      space base = space' →
      overwritten klass_dict (c_name <$> column_specs base) = [] →
      overwritten klass_dict (p_name <$> parameters base) = [] →
      overwritten klass_dict (sa_name <$> subanalyses base) = [] →
      (∀ base_builder' builder',
         base_builder' ∈ pipeline_builders base →
         next (filter (λ b, name b = name base_builder') (cm_pipeline_builders cm))
           = Ok builder' →
         outputs base_builder' ⊆ outputs builder') →
      ∀ merged,
        merged = mkAnalysisSpec space'
          (sorted c_name (extend_by_name c_name (cm_column_specs cm) (column_specs base)))
          (sorted name
             (extend_by_name name (cm_pipeline_builders cm) (pipeline_builders base)))
          (sorted p_name (extend_by_name p_name (cm_parameters cm) (parameters base)))
          (sorted s_name (extend_by_name s_name (cm_switches cm) (switches base)))
          (sorted k_name (extend_by_name k_name (cm_checks cm) (checks base)))
          (sorted sa_name
             (extend_by_name sa_name (cm_subanalyses cm) (subanalyses base))) →
        validate merged = Ok () →
        make_class klass_dict space' cm bases = Ok merged)).
Proof.
  intros Hbase Hbb Hb. split.
  - intros (o & Ho & Hno).
    destruct (make_class klass_dict space' cm bases) as [spec|e] eqn:Hmk; [|by exists e].
    exfalso. unfold make_class in Hmk. apply bind_ok in Hmk as (cm' & Hcm & _).
    apply Hno. by eapply (combine_with_bases_checks _ _ _ _ _ _ _ _ Hcm Hbase Hbb Hb).
  - intros Hsub. split; [by apply (check_override_spec _ _ _ Hb)|].
    split; [by apply next_filter_extend|]. split.
    + intros spec Hmk. unfold make_class in Hmk.
      apply bind_ok in Hmk as (cm' & Hcm & Hinit).
      apply init_ok_validate in Hinit as [-> _]. split.
      * unfold AnalysisSpec.pipeline_builder. simpl. rewrite filter_sorted.
        by eapply combine_with_bases_keeps_first.
      * intros o. split; [by right|]. intros [Ho|Ho]; [by apply Hsub|done].
    + intros -> Hspace Hc Hp Hs Hall merged -> Hvalid.
      unfold make_class. simpl.
      assert (combine_with_base klass_dict space' cm base =
              Ok (mkComponents
                    (extend_by_name c_name (cm_column_specs cm) (column_specs base))
                    (extend_by_name name (cm_pipeline_builders cm) (pipeline_builders base))
                    (extend_by_name p_name (cm_parameters cm) (parameters base))
                    (extend_by_name s_name (cm_switches cm) (switches base))
                    (extend_by_name k_name (cm_checks cm) (checks base))
                    (extend_by_name sa_name (cm_subanalyses cm) (subanalyses base))))
        as -> by by apply combine_with_base_succeeds_iff.
      simpl. unfold AnalysisSpec_init. by rewrite Hvalid.
Qed.


Lemma override_witness :
  (∃ e, make_class Examples.derived_dict "Clinical" (Examples.derived Examples.p_drops)
          [Examples.Base_spec] = Raise e) ∧
  make_class Examples.derived_dict "Clinical" (Examples.derived Examples.p_adds)
    [Examples.Base_spec]
    = Ok (mkAnalysisSpec "Clinical" [Examples.a; Examples.b] [Examples.p_adds] [] [] [] []) ∧
  AnalysisSpec.pipeline_builder
    (mkAnalysisSpec "Clinical" [Examples.a; Examples.b] [Examples.p_adds] [] [] [] []) "p"
    = Ok Examples.p_adds.
Proof.
  assert (outputs Examples.p_base ⊆ outputs Examples.p_adds) as Hsub.
  { intros o Ho. apply list_elem_of_singleton in Ho as ->. left. }
  pose proof (override_must_keep_the_outputs_of_the_base
      Examples.derived_dict "Clinical" (Examples.derived Examples.p_adds)
      [Examples.Base_spec] Examples.Base_spec Examples.p_base Examples.p_adds
      ltac:(left) ltac:(left) eq_refl) as [_ Hadds].
  destruct (Hadds Hsub) as (_ & _ & Hspec & Hmake).
  assert (make_class Examples.derived_dict "Clinical" (Examples.derived Examples.p_adds)
            [Examples.Base_spec]
          = Ok (mkAnalysisSpec "Clinical" [Examples.a; Examples.b] [Examples.p_adds]
                               [] [] [] [])) as Hok.
  { apply (Hmake eq_refl eq_refl eq_refl eq_refl eq_refl).
    - intros bb b Hbb Hb. apply list_elem_of_singleton in Hbb as ->.
      injection Hb as <-. exact Hsub.
    - reflexivity.
    - reflexivity. }
  split; [|split; [exact Hok|exact (proj1 (Hspec _ Hok))]].
  refine (proj1 (override_must_keep_the_outputs_of_the_base
      Examples.derived_dict "Clinical" (Examples.derived Examples.p_drops)
      [Examples.Base_spec] Examples.Base_spec Examples.p_base Examples.p_drops
      _ _ eq_refl) _).
  - left.
  - left.
  - exists "a". split; [left|not_in_list].
Defined.

(** * Further properties of the module *)

(** ** Names within a specification *)

Lemma count_cons `{EqDecision A} (x a : A) (l : list A) :
  count x (a :: l) = if decide (a = x) then S (count x l) else count x l.
Proof. unfold count. rewrite filter_cons. by case_decide. Qed.

Lemma count_zero `{EqDecision A} (x : A) (l : list A) : count x l = 0%nat ↔ x ∉ l.
Proof.
  induction l as [|a l IH]; [split; [intros _; apply not_elem_of_nil|done]|].
  rewrite count_cons, not_elem_of_cons. case_decide as Ha.
  - split; [discriminate|]. intros [Hne _]. by destruct Hne.
  - rewrite IH. split; [by intros ?; split; [congruence|]|by intros [_ ?]].
Qed.

Lemma NoDup_count `{EqDecision A} (l : list A) :
  NoDup l ↔ ∀ x, (count x l ≤ 1)%nat.
Proof.
  induction l as [|a l IH].
  - split; [intros _ x; unfold count; simpl; lia|constructor].
  - rewrite NoDup_cons, IH. split.
    + intros [Ha Hl] x. rewrite count_cons. case_decide as Hx; [|apply Hl].
      subst. apply count_zero in Ha. lia.
    + intros Hall. split.
      * apply count_zero. specialize (Hall a). rewrite count_cons, decide_True in Hall by done.
        lia.
      * intros x. specialize (Hall x). rewrite count_cons in Hall. case_decide; lia.
Qed.

Lemma filter_nil_iff {A} (P : A → Prop) `{∀ x, Decision (P x)} (l : list A) :
  filter P l = [] ↔ ∀ x, x ∈ l → ¬ P x.
Proof.
  split; [|apply filter_none].
  intros Hnil x Hx HP.
  assert (x ∈ filter P l) as Hin by by apply list_elem_of_filter.
  rewrite Hnil in Hin. by apply elem_of_nil in Hin.
Qed.

(** X1: [unique_names] accepts a tuple exactly when no two of its items share
    a name; when it raises, it raises ValueError with the items whose name
    occurs more than once. *)
Theorem unique_names_accepts_exactly_distinct_names {A} (name_of : A → string)
    (val : list A) :
  (unique_names name_of val = Ok () ↔ NoDup (name_of <$> val)) ∧
  (∀ e, unique_names name_of val = Raise e →
     ∃ duplicates,
       e = ValueError (DuplicateNames duplicates) ∧
       ∀ n, n ∈ duplicates ↔ (1 < count n (name_of <$> val))%nat).
Proof.
  unfold unique_names.
  set (names := name_of <$> val).
  set (dups := filter (λ v, (1 < count (name_of v) names)%nat) val).
  assert (dups = [] ↔ NoDup names) as Hiff.
  { unfold dups. rewrite filter_nil_iff, NoDup_count. split.
    - intros Hall n. destruct (decide (n ∈ names)) as [Hn|Hn].
      + apply list_elem_of_fmap in Hn as (v & -> & Hv). specialize (Hall v Hv). lia.
      + apply count_zero in Hn. lia.
    - intros Hall v _. specialize (Hall (name_of v)). lia. }
  split.
  - rewrite <- Hiff. destruct dups; split; done.
  - intros e He. exists (name_of <$> dups). split.
    + destruct dups; [discriminate|]. by injection He as <-.
    + intros n. rewrite list_elem_of_fmap. split.
      * intros (v & -> & Hv). unfold dups in Hv. by apply list_elem_of_filter in Hv as [? _].
      * intros Hn. assert (n ∈ names) as Hin.
        { destruct (decide (n ∈ names)) as [|Hnin]; [done|].
          apply count_zero in Hnin. lia. }
        apply list_elem_of_fmap in Hin as (v & -> & Hv).
        exists v. split; [done|]. unfold dups. by apply list_elem_of_filter.
Qed.

Lemma validate_ok_parts (self : AnalysisSpec) :
  validate self = Ok () →
  unique_names c_name (column_specs self) = Ok () ∧
  column_specs_validator self (column_specs self) = Ok () ∧
  unique_names name (pipeline_builders self) = Ok () ∧
  pipeline_builders_validator self (pipeline_builders self) = Ok () ∧
  unique_names p_name (parameters self) = Ok () ∧
  unique_names s_name (switches self) = Ok () ∧
  unique_names k_name (checks self) = Ok () ∧
  unique_names sa_name (subanalyses self) = Ok ().
Proof.
  unfold validate.
  intros ([] & H1 & ([] & H2 & ([] & H3 & ([] & H4 & ([] & H5 & ([] & H6 &
          ([] & H7 & H8)%bind_ok)%bind_ok)%bind_ok)%bind_ok)%bind_ok)%bind_ok)%bind_ok.
  done.
Qed.

Lemma unique_names_NoDup {A} (name_of : A → string) (val : list A) :
  unique_names name_of val = Ok () → NoDup (name_of <$> val).
Proof.
  unfold unique_names.
  destruct (filter _ val) eqn:Hf; [|discriminate]. intros _.
  apply NoDup_count. intros n.
  destruct (decide (n ∈ name_of <$> val)) as [Hn|Hn].
  - apply list_elem_of_fmap in Hn as (v & -> & Hv).
    pose proof (proj1 (filter_nil_iff _ _) Hf v Hv) as Hnot. simpl in Hnot. lia.
  - apply count_zero in Hn. lia.
Qed.

Lemma constructed_spec_has_unique_names_aux (space' : string) (cs : list ColumnSpec)
    (bs : list PipelineBuilder) (ps : list ParameterSpec) (sw : list Switch)
    (ch : list CheckSpec) (sub : list SubanalysisSpec) (spec : AnalysisSpec) :
  AnalysisSpec_init space' cs bs ps sw ch sub = Ok spec →
  NoDup (c_name <$> column_specs spec) ∧
  NoDup (name <$> pipeline_builders spec) ∧
  NoDup (p_name <$> parameters spec) ∧
  NoDup (s_name <$> switches spec) ∧
  NoDup (k_name <$> checks spec) ∧
  NoDup (sa_name <$> subanalyses spec).
Proof.
  intros [-> Hok]%init_ok_validate.
  apply validate_ok_parts in Hok as (H1 & _ & H3 & _ & H5 & H6 & H7 & H8).
  repeat split; by apply unique_names_NoDup.
Qed.

(** X2: in a constructed [AnalysisSpec] no two column specs share a name, and
    the same holds for the pipeline builders, the parameters, the switches,
    the checks and the subanalyses. *)
Theorem constructed_spec_has_unique_names (space' : string) (cs : list ColumnSpec)
    (bs : list PipelineBuilder) (ps : list ParameterSpec) (sw : list Switch)
    (ch : list CheckSpec) (sub : list SubanalysisSpec) (spec : AnalysisSpec) :
  AnalysisSpec_init space' cs bs ps sw ch sub = Ok spec →
  NoDup (c_name <$> column_specs spec) ∧
  NoDup (name <$> pipeline_builders spec) ∧
  NoDup (p_name <$> parameters spec) ∧
  NoDup (s_name <$> switches spec) ∧
  NoDup (k_name <$> checks spec) ∧
  NoDup (sa_name <$> subanalyses spec).
Proof. apply constructed_spec_has_unique_names_aux. Qed.

Lemma constructed_spec_has_unique_names_witness :
  NoDup (c_name <$> column_specs Examples.D_spec) ∧
  NoDup (name <$> pipeline_builders Examples.D_spec) ∧
  NoDup (p_name <$> parameters Examples.D_spec) ∧
  NoDup (s_name <$> switches Examples.D_spec) ∧
  NoDup (k_name <$> checks Examples.D_spec) ∧
  NoDup (sa_name <$> subanalyses Examples.D_spec).
Proof.
  apply (constructed_spec_has_unique_names "Clinical" [Examples.out]
           [Examples.B1; Examples.B2] [Examples.mode; Examples.threshold] [] [] []).
  vm_compute. reflexivity.
Defined.

(** X3: every output of every pipeline builder of a constructed
    [AnalysisSpec] is the name of one of its column specs, so that
    [column_spec] finds a column for it; a builder with an output that no
    column spec carries makes the construction fail. *)
Theorem outputs_of_builders_are_declared_columns (space' : string)
    (cs : list ColumnSpec) (bs : list PipelineBuilder) (ps : list ParameterSpec)
    (sw : list Switch) (ch : list CheckSpec) (sub : list SubanalysisSpec) :
  (∀ spec, AnalysisSpec_init space' cs bs ps sw ch sub = Ok spec →
     ∀ p o, p ∈ pipeline_builders spec → o ∈ outputs p →
       ∃ c, AnalysisSpec.column_spec spec o = Ok c ∧ c ∈ column_specs spec ∧ c_name c = o) ∧
  (∀ p o, p ∈ bs → o ∈ outputs p → o ∉ c_name <$> cs →
     ∃ e, AnalysisSpec_init space' cs bs ps sw ch sub = Raise e).
Proof.
  split.
  - intros spec [-> Hok]%init_ok_validate p o Hp Ho. simpl in *.
    apply validate_ok_parts in Hok as (_ & _ & _ & Hpb & _). simpl in Hpb.
    unfold pipeline_builders_validator in Hpb. rewrite for_each_ok in Hpb.
    specialize (Hpb p Hp). unfold validate_pipeline_builder in Hpb. simpl in Hpb.
    destruct (filter _ (outputs p)) eqn:Hf; [|discriminate].
    assert (o ∈ c_name <$> cs) as Hdecl.
    { destruct (decide (o ∈ c_name <$> cs)) as [|Hn]; [done|].
      by destruct (proj1 (filter_nil_iff _ _) Hf o Ho). }
    unfold AnalysisSpec.column_spec. simpl.
    destruct (next_filter_cases (λ c, c_name c = o) cs) as [Hnone|[c Hc]].
    + exfalso. apply list_elem_of_fmap in Hdecl as (c & -> & Hc).
      assert (c ∈ filter (λ c0, c_name c0 = c_name c) cs) as Hin
        by by apply list_elem_of_filter.
      destruct (filter _ cs); [by apply elem_of_nil in Hin|discriminate].
    + exists c. split; [done|]. by apply next_filter_ok in Hc as [? ?].
  - intros p o Hp Ho Hundecl.
    set (self := mkAnalysisSpec space' cs bs ps sw ch sub).
    destruct (validate_builder_raises self p
                (ArcanaDesignError
                   (UnknownOutputColumns (name p)
                      (filter (λ o, o ∉ c_name <$> cs) (outputs p))))) as [e He].
    + done.
    + unfold validate_pipeline_builder. simpl.
      assert (o ∈ filter (λ o, o ∉ c_name <$> cs) (outputs p)) as Hin
        by by apply list_elem_of_filter.
      destruct (filter _ (outputs p)); [by apply elem_of_nil in Hin|done].
    + exists e. by apply init_raises_of_validate.
Qed.

Lemma outputs_of_builders_witness :
  (∃ c, AnalysisSpec.column_spec Examples.D_spec "out" = Ok c ∧
        c ∈ column_specs Examples.D_spec ∧ c_name c = "out") ∧
  (∃ e, AnalysisSpec_init "Clinical" [] [Examples.B2] [] [] [] [] = Raise e).
Proof.
  split.
  - apply (proj1 (outputs_of_builders_are_declared_columns "Clinical" [Examples.out]
             [Examples.B1; Examples.B2] [Examples.mode; Examples.threshold] [] [] [])
             Examples.D_spec eq_refl Examples.B2 "out").
    + right; left.
    + left.
  - apply (proj2 (outputs_of_builders_are_declared_columns "Clinical" []
             [Examples.B2] [] [] [] []) Examples.B2 "out").
    + left.
    + left.
    + apply not_elem_of_nil.
Defined.

Lemma next_filter_unique {A} (name_of : A → string) (l : list A) (x : A) :
  NoDup (name_of <$> l) → x ∈ l →
  next (filter (λ y, name_of y = name_of x) l) = Ok x.
Proof.
  induction l as [|y l IH]; [by intros _ ?%elem_of_nil|].
  rewrite fmap_cons, NoDup_cons. intros [Hy Hl] [->|Hx]%elem_of_cons.
  - by rewrite filter_cons, decide_True.
  - rewrite filter_cons, decide_False; [by apply IH|].
    intros Heq. apply Hy. rewrite Heq. apply list_elem_of_fmap. by exists x.
Qed.

(** X4: on a constructed [AnalysisSpec], looking an entity up by its own name
    returns that entity, for each of the six accessors. *)
Theorem lookup_by_own_name_returns_the_entity (space' : string) (cs : list ColumnSpec)
    (bs : list PipelineBuilder) (ps : list ParameterSpec) (sw : list Switch)
    (ch : list CheckSpec) (sub : list SubanalysisSpec) (spec : AnalysisSpec) :
  AnalysisSpec_init space' cs bs ps sw ch sub = Ok spec →
  (∀ c, c ∈ column_specs spec → AnalysisSpec.column_spec spec (c_name c) = Ok c) ∧
  (∀ p, p ∈ parameters spec → AnalysisSpec.parameter spec (p_name p) = Ok p) ∧
  (∀ p, p ∈ pipeline_builders spec → AnalysisSpec.pipeline_builder spec (name p) = Ok p) ∧
  (∀ s, s ∈ switches spec → AnalysisSpec.switch spec (s_name s) = Ok s) ∧
  (∀ c, c ∈ checks spec → AnalysisSpec.check spec (k_name c) = Ok c) ∧
  (∀ s, s ∈ subanalyses spec → AnalysisSpec.subanalysis spec (sa_name s) = Ok s).
Proof.
  intros Hinit.
  destruct (constructed_spec_has_unique_names_aux _ _ _ _ _ _ _ _ Hinit)
    as (H1 & H2 & H3 & H4 & H5 & H6).
  repeat split; intros x Hx; by apply next_filter_unique.
Qed.

Lemma lookup_by_own_name_witness :
  AnalysisSpec.column_spec Examples.D_spec "out" = Ok Examples.out ∧
  AnalysisSpec.parameter Examples.D_spec "threshold" = Ok Examples.threshold ∧
  AnalysisSpec.pipeline_builder Examples.D_spec "B2" = Ok Examples.B2.
Proof.
  destruct (lookup_by_own_name_returns_the_entity "Clinical" [Examples.out]
              [Examples.B1; Examples.B2] [Examples.mode; Examples.threshold] [] [] []
              Examples.D_spec eq_refl) as (Hc & Hp & Hb & _).
  split; [|split].
  - apply (Hc Examples.out). left.
  - apply (Hp Examples.threshold). right; left.
  - apply (Hb Examples.B2). right; left.
Defined.

(** ** [SubanalysisSpec.mapping] *)

(** X5: [mapping] raises KeyError exactly for the names that no pair of the
    mappings has as its first component; for any other name it returns the
    second component of the first pair that has it, whatever pairs follow. *)
Theorem mapping_returns_the_first_match (self : SubanalysisSpec) (nm : string) :
  (mapping self nm = Raise KeyError ↔ nm ∉ (mappings self).*1) ∧
  (∀ front mapped_name back,
     mappings self = front ++ (nm, mapped_name) :: back → nm ∉ front.*1 →
     mapping self nm = Ok mapped_name) ∧
  (∀ mapped_name, mapping self nm = Ok mapped_name → (nm, mapped_name) ∈ mappings self) ∧
  (∀ e, mapping self nm = Raise e → e = KeyError).
Proof.
  unfold mapping.
  assert (∀ l : list (string * string),
            filter (λ m, nm = m.1) l = [] ↔ nm ∉ l.*1) as Hnone.
  { intros l. rewrite filter_nil_iff. split.
    - intros Hall [[n m] [-> Hin]]%list_elem_of_fmap. by apply (Hall (n, m)).
    - intros Hnin [n m] Hin ->. apply Hnin, list_elem_of_fmap. by exists (n, m). }
  split; [|split; [|split]].
  - rewrite <- Hnone. destruct (filter _ (mappings self)) as [|[n m] l]; split; done.
  - intros front mapped_name back -> Hfront.
    rewrite filter_app, (proj2 (Hnone front) Hfront). simpl.
    by rewrite filter_cons, decide_True.
  - intros mapped_name.
    destruct (filter _ (mappings self)) as [|[n m] l] eqn:Hf; [discriminate|].
    simpl. intros [= <-].
    assert ((n, m) ∈ filter (λ m0 : string * string, nm = m0.1) (mappings self)) as Hin
      by (rewrite Hf; left).
    by apply list_elem_of_filter in Hin as [-> ?].
  - intros e. destruct (filter _ (mappings self)) as [|[n m] l]; simpl; congruence.
Qed.

(** ** The check of a column *)

(** X6: the check of a column in [column_specs_validator] passes exactly when
    no two builders produce the column under the same (condition, switch)
    pair and, in case no builder produces it and it is not mapped from a
    subanalysis, some builder takes it as an input and its salience is
    strictly above [publication]. *)
Theorem column_check_passes_exactly_when (builders : list PipelineBuilder)
    (c : ColumnSpec) :
  validate_column_spec builders c = Ok () ↔
    (∀ k, (length (filter (λ p, c_name c ∈ outputs p ∧ (condition p, switch p) = k)
                     builders) ≤ 1)%nat) ∧
    (producers builders c = [] → c_mapped_from c = None →
       consumers builders c ≠ [] ∧
       level ColumnSalience.publication < level (c_salience c)).
Proof.
  assert (filter (λ cd : group_key * list PipelineBuilder, (1 < length cd.2)%nat)
            (sorted_by_cond builders c) = [] ↔
          ∀ k, (length (filter (λ p, c_name c ∈ outputs p ∧ (condition p, switch p) = k)
                          builders) ≤ 1)%nat) as Hgroups.
  { rewrite filter_nil_iff. split.
    - intros Hall k. rewrite <- sorted_by_cond_group.
      destruct (group_of k (sorted_by_cond builders c)) as [|p l] eqn:Hg; [simpl; lia|].
      rewrite <- Hg.
      assert ((k, group_of k (sorted_by_cond builders c)) ∈ sorted_by_cond builders c)
        as Hin by (apply group_of_entry; by rewrite Hg).
      specialize (Hall _ Hin). simpl in Hall. lia.
    - intros Hall [k group] Hin. simpl.
      rewrite (sorted_by_cond_entry _ _ _ _ Hin). specialize (Hall k). lia. }
  unfold validate_column_spec.
  destruct (filter _ (sorted_by_cond builders c)) as [|x dup] eqn:Hdup.
  - assert (∀ k, (length (filter (λ p, c_name c ∈ outputs p ∧ (condition p, switch p) = k)
                            builders) ≤ 1)%nat) as Hk by by apply Hgroups.
    destruct (sorted_by_cond builders c) as [|g d] eqn:Hd.
    + apply sorted_by_cond_nil in Hd.
      destruct (c_mapped_from c) as [mf|] eqn:Hmf.
      * split; [|done]. intros _. split; [done|]. by intros _ [=].
      * fold (consumers builders c).
        destruct (consumers builders c) as [|q l] eqn:Hcons.
        -- split; [discriminate|]. intros [_ Hor]. by destruct (Hor Hd eq_refl).
        -- case_decide as Hle.
           ++ split; [discriminate|]. intros [_ Hor]. destruct (Hor Hd eq_refl). lia.
           ++ split; [|done]. intros _. split; [done|]. intros _ _. split; [done|lia].
    + assert (producers builders c ≠ []) as Hprod.
      { intros Hnil%sorted_by_cond_nil. rewrite Hnil in Hd. discriminate. }
      split; [|done]. intros _. split; [done|]. by intros Hnil.
  - split; [discriminate|]. intros [Hk _]. apply Hgroups in Hk. discriminate.
Qed.

(** ** The dispatcher and the conditions *)

(** X7: no call of [select_pipeline_builders] returns a selection: whatever
    the column, the analysis, the dataset and the store are, the call ends in
    an exception. *)
Theorem dispatch_always_raises (om : string → option (list Value → result Value))
    (depth : nat) (h : Heap) (self : ColumnSpec) (analysis : Value) (dataset : Dataset) :
  ∃ e, select_pipeline_builders om depth h self analysis dataset = Raise e.
Proof.
  pose proof (select_pipeline_builders_never_returns om depth h self analysis dataset) as Hno.
  destruct (select_pipeline_builders om depth h self analysis dataset) as [sel|e];
    [discriminate|by exists e].
Qed.

(** X9: the [is_provided] branch of [evaluate], on operands that have been
    evaluated to [operands]: more than two operands fail the assertion, no
    operand is an IndexError and a first operand that is not a string a
    TypeError; when the slot of the analysis holds [None] the result is
    false without the dataset being consulted; a slot bound to a name that
    the dataset does not have is a KeyError; otherwise the result is true
    without a format operand, is the subclass test with a class as format
    operand, and is a TypeError with a format operand that is no class. *)
Theorem is_provided_branch_cases (om : string → option (list Value → result Value))
    (depth : nat) (h : Heap) (analysis : Value) (dataset : Dataset) :
  let is_provided operands :=
    apply_operator om depth h "is_provided" operands analysis dataset in
  (∀ operands, (2 < length operands)%nat → is_provided operands = Raise AssertionError) ∧
  is_provided [] = Raise IndexError ∧
  (∀ v rest, (length rest ≤ 1)%nat → (∀ s, v ≠ VStr s) →
     is_provided (v :: rest) = Raise TypeError) ∧
  (∀ slot rest, (length rest ≤ 1)%nat →
     getattr depth h analysis slot = Ok VNone →
     is_provided (VStr slot :: rest) = Ok VFalse) ∧
  (∀ slot rest column_name, (length rest ≤ 1)%nat →
     getattr depth h analysis slot = Ok (VStr column_name) →
     dataset !! column_name = None →
     is_provided (VStr slot :: rest) = Raise KeyError) ∧
  (∀ slot column_name column,
     getattr depth h analysis slot = Ok (VStr column_name) →
     dataset !! column_name = Some column →
     is_provided [VStr slot] = Ok VTrue ∧
     (∀ fmt, is_provided [VStr slot; VAtom (AClass fmt)] =
               Ok (if decide (cls_name (format column) = cls_name fmt ∨
                              cls_name fmt ∈ cls_mro (format column))
                   then VTrue else VFalse)) ∧
     (∀ v, (∀ fmt, v ≠ VAtom (AClass fmt)) →
           is_provided [VStr slot; v] = Raise TypeError)).
Proof.
  intros is_provided. subst is_provided. unfold apply_operator. simpl.
  split; [|split; [|split; [|split; [|split]]]].
  - intros operands Hlen. unfold assert. rewrite decide_False by lia. reflexivity.
  - reflexivity.
  - intros v rest Hlen Hv. unfold assert. rewrite decide_True by (simpl; lia). simpl.
    destruct v as [[| |s|]| | | |]; try reflexivity. by destruct (Hv s).
  - intros slot rest Hlen Hnone. unfold assert. rewrite decide_True by (simpl; lia).
    simpl. by rewrite Hnone.
  - intros slot rest column_name Hlen Hbound Hmiss. unfold assert.
    rewrite decide_True by (simpl; lia). simpl. rewrite Hbound. simpl. by rewrite Hmiss.
  - intros slot column_name column Hbound Hcol. split; [|split].
    + by rewrite Hbound; simpl; rewrite Hcol.
    + intros fmt. rewrite Hbound; simpl. rewrite Hcol; simpl.
      repeat case_bool_decide; case_decide as Hor; try reflexivity;
        try (exfalso; apply Hor; auto); by destruct Hor.
    + intros v Hv. rewrite Hbound; simpl. rewrite Hcol; simpl.
      destruct v as [[| | |fmt]| | | |]; try reflexivity. by destruct (Hv fmt).
Qed.

(** ** Reads and writes through the [Subanalysis] wrapper *)

Lemma setattr_instance_ok (depth : nat) (h h' : Heap) (n : oid) (a : Analysis)
    (attr : string) (value : Value) :
  h !! n = Some (Instance a) →
  setattr (S depth) h (VRef n) attr value = Ok h' →
  h' = <[n := Instance (mkAnalysis (__spec__ a) (<[attr := value]> (slots a)))]> h.
Proof.
  intros Hn. simpl. rewrite Hn. unfold Analysis_setattr.
  case_decide; [|discriminate].
  destruct (match AnalysisSpec.parameter (__spec__ a) attr with
            | Ok p => _parameter_validator p value
            | Raise _ => Ok ()
            end) as [[]|e]; simpl; [|discriminate].
  by intros [= <-].
Qed.

Lemma getattr_instance_after_set (depth : nat) (h : Heap) (n : oid) (a : Analysis)
    (attr : string) (value : Value) :
  attr ≠ "__spec__" →
  getattr (S depth)
    (<[n := Instance (mkAnalysis (__spec__ a) (<[attr := value]> (slots a)))]> h)
    (VRef n) attr = Ok value.
Proof.
  intros Hattr. simpl. rewrite lookup_insert_eq, decide_False by done.
  simpl. by rewrite lookup_insert_eq.
Qed.

(** X10: a value that is written through the wrapper under a name that is not
    in the mappings table (and is none of the wrapper's fields) is stored on
    the nested analysis: after a successful write, the read of that name
    through the wrapper (for a name that the normal lookup does not find on
    the class of the wrapper) and the read on the nested analysis return the
    value, and no other object of the store has changed. *)
Theorem write_through_wrapper_is_read_back (depth : nat) (h h' : Heap) (o n : oid)
    (self : Subanalysis) (spec : SubanalysisSpec) (a : Analysis) (attr : string)
    (value : Value) :
  h !! o = Some (Wrapper self) →
  _spec self = VSubanalysisSpec spec →
  _analysis self = VRef n →
  h !! n = Some (Instance a) →
  attr ∉ ["_spec"; "_analysis"; "_parent"] →
  attr ∉ (mappings spec).*1 →
  attr ≠ "__spec__" →
  setattr (S (S depth)) h (VRef o) attr value = Ok h' →
  (_type self !! attr = None → getattr (S (S depth)) h' (VRef o) attr = Ok value) ∧
  getattr (S depth) h' (VRef n) attr = Ok value ∧
  ∀ o', o' ≠ n → h' !! o' = h !! o'.
Proof.
  intros Ho Hspec Hanalysis Hn Hown Hunmapped%mapping_of_unmapped Hattr Hset.
  rewrite (setattr_wrapper _ _ _ _ _ _ _ Ho Hspec Hown), Hunmapped, Hanalysis in Hset.
  apply (setattr_instance_ok _ _ _ _ _ _ _ Hn) in Hset as ->.
  assert (o ≠ n) as Hon by (intros ->; rewrite Ho in Hn; discriminate).
  split; [|split].
  - intros Htype.
    rewrite (getattr_wrapper (S depth) _ o self spec attr); [| |done|done|done].
    + rewrite Hunmapped, Hanalysis. by apply getattr_instance_after_set.
    + by rewrite lookup_insert_ne.
  - by apply getattr_instance_after_set.
  - intros o' Ho'. by rewrite lookup_insert_ne.
Qed.

Lemma write_through_wrapper_witness :
  ∃ h', setattr 2 Examples.heap_nested (VRef 2%positive) "_dataset" (VStr "ds") = Ok h' ∧
        getattr 2 h' (VRef 2%positive) "_dataset" = Ok (VStr "ds").
Proof.
  destruct (setattr 2 Examples.heap_nested (VRef 2%positive) "_dataset" (VStr "ds"))
    as [h'|e] eqn:Hset; [|vm_compute in Hset; discriminate].
  exists h'. split; [done|].
  refine (proj1 (write_through_wrapper_is_read_back 0 Examples.heap_nested h'
            2%positive 3%positive _ Examples.sub_spec _ "_dataset" (VStr "ds")
            eq_refl eq_refl eq_refl eq_refl _ _ _ Hset) eq_refl).
  - not_in_list.
  - simpl. not_in_list.
  - discriminate.
Defined.

(** X11: a name of the mappings table that the normal lookup does not find
    on the wrapper (it is none of the fields [_spec], [_analysis] and
    [_parent], and no attribute of the class of the wrapper) is an alias of
    the attribute of the parent: after a successful write of the mapped
    attribute on the parent analysis, the read of the name through the
    wrapper returns the value written. *)
Theorem write_on_parent_is_seen_through_wrapper (depth : nat) (h h' : Heap) (o p : oid)
    (self : Subanalysis) (spec : SubanalysisSpec) (a : Analysis)
    (attr mapped_name : string) (value : Value) :
  h !! o = Some (Wrapper self) →
  _spec self = VSubanalysisSpec spec →
  _parent self = VRef p →
  h !! p = Some (Instance a) →
  attr ∉ ["_spec"; "_analysis"; "_parent"] →
  _type self !! attr = None →
  mapping spec attr = Ok mapped_name →
  mapped_name ≠ "__spec__" →
  setattr (S depth) h (VRef p) mapped_name value = Ok h' →
  getattr (S (S depth)) h' (VRef o) attr = Ok value.
Proof.
  intros Ho Hspec Hparent Hp Hown Htype Hmap Hname Hset.
  apply (setattr_instance_ok _ _ _ _ _ _ _ Hp) in Hset as ->.
  assert (o ≠ p) as Hop by (intros ->; rewrite Ho in Hp; discriminate).
  rewrite (getattr_wrapper (S depth) _ o self spec attr); [| |done|done|done].
  - rewrite Hmap, Hparent. by apply getattr_instance_after_set.
  - by rewrite lookup_insert_ne.
Qed.

Lemma write_on_parent_witness :
  ∃ h', setattr 1 Examples.heap_nested (VRef 1%positive) "c" (VStr "t1w") = Ok h' ∧
        getattr 2 h' (VRef 2%positive) "inner" = Ok (VStr "t1w").
Proof.
  destruct (setattr 1 Examples.heap_nested (VRef 1%positive) "c" (VStr "t1w"))
    as [h'|e] eqn:Hset; [|vm_compute in Hset; discriminate].
  exists h'. split; [done|].
  refine (write_on_parent_is_seen_through_wrapper 0 Examples.heap_nested h'
            2%positive 1%positive _ Examples.sub_spec _ "inner" "c" (VStr "t1w")
            eq_refl eq_refl eq_refl eq_refl _ eq_refl eq_refl _ Hset).
  - not_in_list.
  - discriminate.
Defined.

(** ** [make_class]: what the combination with the bases keeps *)

Lemma extend_by_name_cons {A} (name_of : A → string) (lst : list A) (b : A)
    (base_lst : list A) :
  extend_by_name name_of lst (b :: base_lst) =
    extend_by_name name_of
      (if decide (name_of b ∈ name_of <$> lst) then lst else lst ++ [b]) base_lst.
Proof. reflexivity. Qed.

Lemma extend_by_name_names {A} (name_of : A → string) (base_lst lst : list A) (n : string) :
  n ∈ name_of <$> extend_by_name name_of lst base_lst ↔
  n ∈ name_of <$> lst ∨ n ∈ name_of <$> base_lst.
Proof.
  revert lst. induction base_lst as [|b base_lst IH]; intros lst.
  - unfold extend_by_name. simpl. rewrite elem_of_nil. tauto.
  - rewrite extend_by_name_cons, IH, fmap_cons, elem_of_cons.
    case_decide as Hb.
    + split; [tauto|]. intros [?|[->|?]]; tauto.
    + rewrite fmap_app, elem_of_app. simpl. rewrite list_elem_of_singleton. tauto.
Qed.

Lemma extend_by_name_NoDup {A} (name_of : A → string) (base_lst lst : list A) :
  NoDup (name_of <$> lst) → NoDup (name_of <$> extend_by_name name_of lst base_lst).
Proof.
  revert lst. induction base_lst as [|b base_lst IH]; intros lst Hl; [done|].
  rewrite extend_by_name_cons. apply IH. case_decide as Hb; [done|].
  rewrite fmap_app. apply NoDup_app. split; [done|]. split; [|apply NoDup_singleton].
  intros n Hn ->%list_elem_of_singleton. done.
Qed.

Lemma extend_by_name_keeps {A} (name_of : A → string) (base_lst lst : list A) (x : A) :
  x ∈ lst → x ∈ extend_by_name name_of lst base_lst.
Proof.
  intros Hx. destruct (extend_by_name_prefix name_of base_lst lst) as [added ->].
  apply elem_of_app. by left.
Qed.

Lemma extend_by_name_adds {A} (name_of : A → string) (base_lst lst : list A) (x : A) :
  NoDup (name_of <$> base_lst) → x ∈ base_lst → name_of x ∉ name_of <$> lst →
  x ∈ extend_by_name name_of lst base_lst.
Proof.
  revert lst. induction base_lst as [|b base_lst IH]; intros lst Hbl Hx Hfresh;
    [by apply elem_of_nil in Hx|].
  rewrite fmap_cons, NoDup_cons in Hbl. destruct Hbl as [Hb Hbl].
  rewrite extend_by_name_cons. apply elem_of_cons in Hx as [->|Hx].
  - rewrite decide_False by done. apply extend_by_name_keeps, elem_of_app. right. left.
  - apply IH; [done|done|]. case_decide; [done|].
    rewrite fmap_app, elem_of_app. intros [?|Heq%list_elem_of_singleton]; [done|].
    apply Hb. simpl in Heq. rewrite <- Heq. apply list_elem_of_fmap. by exists x.
Qed.

Lemma extend_by_name_from {A} (name_of : A → string) (base_lst lst : list A) (x : A) :
  x ∈ extend_by_name name_of lst base_lst → x ∈ lst ∨ x ∈ base_lst.
Proof.
  revert lst. induction base_lst as [|b base_lst IH]; intros lst; [by left|].
  rewrite extend_by_name_cons. intros [Hx|Hx]%IH; [|right; by right].
  case_decide; [by left|]. apply elem_of_app in Hx as [?|Hx]; [by left|].
  apply list_elem_of_singleton in Hx as ->. right; left.
Qed.


Lemma inherit_all_names {A} (name_of : A → string) (of_base : AnalysisSpec → list A)
    (bases : list AnalysisSpec) (lst : list A) (n : string) :
  n ∈ name_of <$> inherit_all name_of of_base lst bases ↔
  n ∈ name_of <$> lst ∨ ∃ base, base ∈ bases ∧ n ∈ name_of <$> of_base base.
Proof.
  unfold inherit_all. revert lst. induction bases as [|b bases IH]; intros lst; simpl.
  - split; [by left|]. intros [?|(base & []%elem_of_nil & _)]; done.
  - rewrite IH, extend_by_name_names. split.
    + intros [[?|?]|(base & Hbase & Hn)]; [by left|right..].
      * exists b. split; [left|done].
      * exists base. split; [by right|done].
    + intros [?|(base & [->|Hbase]%elem_of_cons & Hn)]; [by left; left|by left; right|].
      right. by exists base.
Qed.

Lemma inherit_all_NoDup {A} (name_of : A → string) (of_base : AnalysisSpec → list A)
    (bases : list AnalysisSpec) (lst : list A) :
  NoDup (name_of <$> lst) → NoDup (name_of <$> inherit_all name_of of_base lst bases).
Proof.
  unfold inherit_all. revert lst. induction bases as [|b bases IH]; intros lst Hl; [done|].
  simpl. by apply IH, extend_by_name_NoDup.
Qed.

Lemma inherit_all_keeps {A} (name_of : A → string) (of_base : AnalysisSpec → list A)
    (bases : list AnalysisSpec) (lst : list A) (x : A) :
  x ∈ lst → x ∈ inherit_all name_of of_base lst bases.
Proof.
  unfold inherit_all. revert lst. induction bases as [|b bases IH]; intros lst Hx; [done|].
  simpl. by apply IH, extend_by_name_keeps.
Qed.

Lemma inherit_all_from {A} (name_of : A → string) (of_base : AnalysisSpec → list A)
    (bases : list AnalysisSpec) (lst : list A) (x : A) :
  x ∈ inherit_all name_of of_base lst bases →
  x ∈ lst ∨ ∃ base, base ∈ bases ∧ x ∈ of_base base.
Proof.
  unfold inherit_all. revert lst. induction bases as [|b bases IH]; intros lst; simpl;
    [by left|].
  intros [[?|?]%extend_by_name_from|(base & Hbase & Hx)]%IH; [by left|right..].
  - exists b. split; [left|done].
  - exists base. split; [by right|done].
Qed.

Lemma inherit_all_nearest {A} (name_of : A → string) (of_base : AnalysisSpec → list A)
    (front back : list AnalysisSpec) (base : AnalysisSpec) (lst : list A) (x : A) :
  x ∈ of_base base → NoDup (name_of <$> of_base base) →
  name_of x ∉ name_of <$> lst →
  (∀ b, b ∈ front → name_of x ∉ name_of <$> of_base b) →
  x ∈ inherit_all name_of of_base lst (front ++ base :: back).
Proof.
  intros Hx Hbase Hlst Hfront. unfold inherit_all. rewrite foldl_app. simpl.
  apply (inherit_all_keeps name_of of_base back). apply extend_by_name_adds; [done..|].
  intros [?|(b & Hb & Hn)]%(inherit_all_names name_of of_base front lst); [done|].
  by apply (Hfront b).
Qed.

Lemma combine_with_bases_lists (klass_dict : list (string * bool)) (space' : string)
    (bases : list AnalysisSpec) (cm cm' : Components) :
  combine_with_bases klass_dict space' cm bases = Ok cm' →
  cm_column_specs cm' = inherit_all c_name column_specs (cm_column_specs cm) bases ∧
  cm_pipeline_builders cm' =
    inherit_all name pipeline_builders (cm_pipeline_builders cm) bases ∧
  cm_parameters cm' = inherit_all p_name parameters (cm_parameters cm) bases ∧
  cm_switches cm' = inherit_all s_name switches (cm_switches cm) bases ∧
  cm_checks cm' = inherit_all k_name checks (cm_checks cm) bases ∧
  cm_subanalyses cm' = inherit_all sa_name subanalyses (cm_subanalyses cm) bases.
Proof.
  revert cm. induction bases as [|base bases IH]; intros cm; simpl.
  - by intros [= <-].
  - intros (cm1 & H1 & Hrest)%bind_ok.
    apply combine_with_base_succeeds_iff in H1 as (_ & _ & _ & _ & _ & ->).
    by apply IH in Hrest.
Qed.

Lemma combine_with_bases_conditions (klass_dict : list (string * bool)) (space' : string)
    (bases : list AnalysisSpec) (cm cm' : Components) (base : AnalysisSpec) :
  combine_with_bases klass_dict space' cm bases = Ok cm' → base ∈ bases →
  space base = space' ∧
  overwritten klass_dict (c_name <$> column_specs base) = [] ∧
  overwritten klass_dict (p_name <$> parameters base) = [] ∧
  overwritten klass_dict (sa_name <$> subanalyses base) = [].
Proof.
  revert cm. induction bases as [|base0 bases IH]; intros cm; simpl;
    [by intros _ ?%elem_of_nil|].
  intros (cm1 & H1 & Hrest)%bind_ok [->|Hbase]%elem_of_cons; [|by eapply IH].
  by apply combine_with_base_succeeds_iff in H1 as (? & ? & ? & ? & _).
Qed.

(** X12: [make_class] fails when a base works on another space than the
    class, and when an attribute of the class body has the name of a column
    spec, a parameter or a subanalysis of a base without carrying the
    ["defined_in"] entry that [Inherited] leaves. *)
Theorem bases_of_other_space_or_overwritten_are_rejected
    (klass_dict : list (string * bool)) (space' : string) (cm : Components)
    (bases : list AnalysisSpec) (base : AnalysisSpec) :
  base ∈ bases →
  (space base ≠ space' → ∃ e, make_class klass_dict space' cm bases = Raise e) ∧
  (∀ nm, (nm, false) ∈ klass_dict →
     nm ∈ (c_name <$> column_specs base) ++ (p_name <$> parameters base)
          ++ (sa_name <$> subanalyses base) →
     ∃ e, make_class klass_dict space' cm bases = Raise e).
Proof.
  intros Hbase.
  assert (∀ P : Prop, (∀ cm', combine_with_bases klass_dict space' cm bases = Ok cm' → ¬ P) →
            P → ∃ e, make_class klass_dict space' cm bases = Raise e) as Hfail.
  { intros P Hno HP. unfold make_class.
    destruct (combine_with_bases klass_dict space' cm bases) as [cm'|e] eqn:Hcm;
      [by destruct (Hno cm' eq_refl)|by exists e]. }
  split.
  - apply Hfail. intros cm' Hcm Hne.
    by destruct (combine_with_bases_conditions _ _ _ _ _ _ Hcm Hbase) as (? & _).
  - intros nm Hdict Hnm.
    apply (Hfail (True)); [|done]. intros cm' Hcm _.
    destruct (combine_with_bases_conditions _ _ _ _ _ _ Hcm Hbase) as (_ & Hc & Hp & Hs).
    assert (∀ names, nm ∈ names → overwritten klass_dict names ≠ []) as Hover.
    { intros names Hin Hnil. unfold overwritten in Hnil.
      apply fmap_nil_inv in Hnil.
      by apply (proj1 (filter_nil_iff _ _) Hnil (nm, false) Hdict). }
    rewrite !elem_of_app in Hnm. destruct Hnm as [Hin|[Hin|Hin]].
    + by apply (Hover _ Hin).
    + by apply (Hover _ Hin).
    + by apply (Hover _ Hin).
Qed.

Lemma bases_rejected_witness :
  (∃ e, make_class Examples.derived_dict "Other" (Examples.derived Examples.p_adds)
          [Examples.Base_spec] = Raise e) ∧
  (∃ e, make_class [("a", false)] "Clinical" (Examples.derived Examples.p_adds)
          [Examples.Base_spec] = Raise e).
Proof.
  split.
  - apply (proj1 (bases_of_other_space_or_overwritten_are_rejected Examples.derived_dict
             "Other" (Examples.derived Examples.p_adds) [Examples.Base_spec]
             Examples.Base_spec ltac:(left))).
    discriminate.
  - apply (proj2 (bases_of_other_space_or_overwritten_are_rejected [("a", false)]
             "Clinical" (Examples.derived Examples.p_adds) [Examples.Base_spec]
             Examples.Base_spec ltac:(left)) "a").
    + left.
    + left.
Defined.

(** *** The order of the lists *)

Lemma ltb_of_leb (a b : string) : String.leb a b = true → a ≠ b → String.ltb a b = true.
Proof.
  unfold String.leb, String.ltb. destruct (a ?= b)%string eqn:Hc; try done.
  by apply String.compare_eq_iff in Hc.
Qed.

Lemma ltb_of_not_leb (a b : string) : String.leb a b = false → String.ltb b a = true.
Proof.
  unfold String.leb, String.ltb. rewrite (String.compare_antisym a b).
  by destruct (b ?= a)%string.
Qed.

Lemma ltb_leb (a b : string) : String.ltb a b = true → String.leb a b = true ∧ a ≠ b.
Proof.
  unfold String.leb, String.ltb. destruct (a ?= b)%string eqn:Hc; try done.
  intros _. split; [done|]. intros ->.
  pose proof (String.compare_antisym b b) as Hanti. rewrite Hc in Hanti. discriminate.
Qed.

Lemma ltb_trans (a b c : string) :
  String.ltb a b = true → String.ltb b c = true → String.ltb a c = true.
Proof.
  intros [Hab Hne1]%ltb_leb [Hbc Hne2]%ltb_leb. apply ltb_of_leb.
  - apply Is_true_true. apply Is_true_true in Hab, Hbc.
    by apply (transitivity (R := String.le) (y := b)).
  - intros ->. apply Hne1. apply String.leb_antisym; done.
Qed.

Lemma insert_sorted_perm {A} (key : A → string) (x : A) (l : list A) :
  insert_sorted key x l ≡ₚ x :: l.
Proof.
  induction l as [|y l IH]; simpl; [done|].
  destruct (String.leb (key x) (key y)); [done|].
  rewrite IH. apply Permutation_swap.
Qed.

Lemma sorted_perm {A} (key : A → string) (l : list A) : sorted key l ≡ₚ l.
Proof.
  induction l as [|x l IH]; [done|]. unfold sorted. simpl.
  rewrite insert_sorted_perm. by constructor.
Qed.

Lemma insert_sorted_increasing {A} (key : A → string) (x : A) (l : list A) :
  increasing key l → key x ∉ key <$> l → increasing key (insert_sorted key x l).
Proof.
  induction l as [|y l IH]; simpl; [done|].
  intros [Hy Hl] Hx. rewrite not_elem_of_cons in Hx. destruct Hx as [Hxy Hx].
  destruct (String.leb (key x) (key y)) eqn:Hle; simpl.
  - pose proof (ltb_of_leb _ _ Hle Hxy) as Hlt. split; [|done].
    constructor; [done|]. eapply Forall_impl; [exact Hy|].
    intros z Hz. simpl in Hz. by eapply ltb_trans.
  - split; [|by apply IH].
    rewrite insert_sorted_perm. constructor; [|done]. by apply ltb_of_not_leb.
Qed.

Lemma sorted_increasing {A} (key : A → string) (l : list A) :
  NoDup (key <$> l) → increasing key (sorted key l).
Proof.
  induction l as [|x l IH]; [done|].
  rewrite fmap_cons, NoDup_cons. intros [Hx Hl]. unfold sorted. simpl.
  fold (sorted key l). apply insert_sorted_increasing; [by apply IH|].
  by rewrite sorted_perm.
Qed.

Lemma sorted_names {A} (key : A → string) (l : list A) :
  key <$> sorted key l ≡ₚ key <$> l.
Proof. by rewrite sorted_perm. Qed.

Lemma make_class_ok (klass_dict : list (string * bool)) (space' : string) (cm : Components)
    (bases : list AnalysisSpec) (spec : AnalysisSpec) :
  make_class klass_dict space' cm bases = Ok spec →
  spec = mkAnalysisSpec space'
           (sorted c_name (inherit_all c_name column_specs (cm_column_specs cm) bases))
           (sorted name
              (inherit_all name pipeline_builders (cm_pipeline_builders cm) bases))
           (sorted p_name (inherit_all p_name parameters (cm_parameters cm) bases))
           (sorted s_name (inherit_all s_name switches (cm_switches cm) bases))
           (sorted k_name (inherit_all k_name checks (cm_checks cm) bases))
           (sorted sa_name (inherit_all sa_name subanalyses (cm_subanalyses cm) bases)) ∧
  validate spec = Ok ().
Proof.
  unfold make_class. intros (cm' & Hcm & Hinit)%bind_ok.
  apply combine_with_bases_lists in Hcm as (<- & <- & <- & <- & <- & <-).
  by apply init_ok_validate in Hinit.
Qed.

(** X13: the lists of the spec that [make_class] returns are in strictly
    increasing order of the names of their items. *)
Theorem make_class_lists_are_in_name_order (klass_dict : list (string * bool))
    (space' : string) (cm : Components) (bases : list AnalysisSpec) (spec : AnalysisSpec) :
  make_class klass_dict space' cm bases = Ok spec →
  increasing c_name (column_specs spec) ∧
  increasing name (pipeline_builders spec) ∧
  increasing p_name (parameters spec) ∧
  increasing s_name (switches spec) ∧
  increasing k_name (checks spec) ∧
  increasing sa_name (subanalyses spec).
Proof.
  intros [-> Hvalid]%make_class_ok.
  apply validate_ok_parts in Hvalid as (H1 & _ & H2 & _ & H3 & H4 & H5 & H6).
  simpl in *.
  repeat split; apply sorted_increasing;
    match goal with
    | H : unique_names ?f (sorted ?f ?l) = Ok () |- NoDup (?f <$> ?l) =>
        apply unique_names_NoDup in H; by rewrite sorted_names in H
    end.
Qed.

Lemma make_class_name_order_witness :
  increasing c_name [Examples.a; Examples.b] ∧ increasing name [Examples.p_adds].
Proof.
  destruct (make_class_lists_are_in_name_order Examples.derived_dict "Clinical"
              (Examples.derived Examples.p_adds) [Examples.Base_spec]
              (mkAnalysisSpec "Clinical" [Examples.a; Examples.b] [Examples.p_adds]
                              [] [] [] []) eq_refl) as (Hc & Hb & _).
  by split.
Defined.

(** *** What the returned spec holds *)

Lemma lookup_in_sorted {A} (key : A → string) (l : list A) (x : A) :
  NoDup (key <$> sorted key l) → x ∈ l →
  next (filter (λ y, key y = key x) (sorted key l)) = Ok x.
Proof.
  intros Hnodup Hx. apply next_filter_unique; [done|]. by rewrite sorted_perm.
Qed.

(** X14: every column spec, pipeline builder, parameter, switch, check and
    subanalysis that the class body declares is in the spec that [make_class]
    returns, and is what the lookup by its name returns: the declaration of
    the class takes precedence over the declarations of the bases. *)
Theorem declarations_of_the_class_are_kept (klass_dict : list (string * bool))
    (space' : string) (cm : Components) (bases : list AnalysisSpec) (spec : AnalysisSpec) :
  make_class klass_dict space' cm bases = Ok spec →
  (∀ c, c ∈ cm_column_specs cm → AnalysisSpec.column_spec spec (c_name c) = Ok c) ∧
  (∀ p, p ∈ cm_pipeline_builders cm → AnalysisSpec.pipeline_builder spec (name p) = Ok p) ∧
  (∀ p, p ∈ cm_parameters cm → AnalysisSpec.parameter spec (p_name p) = Ok p) ∧
  (∀ s, s ∈ cm_switches cm → AnalysisSpec.switch spec (s_name s) = Ok s) ∧
  (∀ c, c ∈ cm_checks cm → AnalysisSpec.check spec (k_name c) = Ok c) ∧
  (∀ s, s ∈ cm_subanalyses cm → AnalysisSpec.subanalysis spec (sa_name s) = Ok s).
Proof.
  intros [-> Hvalid]%make_class_ok.
  apply validate_ok_parts in Hvalid as (H1 & _ & H2 & _ & H3 & H4 & H5 & H6).
  simpl in *.
  apply unique_names_NoDup in H1, H2, H3, H4, H5, H6.
  repeat split; intros x Hx;
    (apply lookup_in_sorted; [done|by apply inherit_all_keeps]).
Qed.

Lemma declarations_of_the_class_witness :
  AnalysisSpec.column_spec
    (mkAnalysisSpec "Clinical" [Examples.a; Examples.b] [Examples.p_adds] [] [] [] []) "b"
    = Ok Examples.b ∧
  AnalysisSpec.pipeline_builder
    (mkAnalysisSpec "Clinical" [Examples.a; Examples.b] [Examples.p_adds] [] [] [] []) "p"
    = Ok Examples.p_adds.
Proof.
  destruct (declarations_of_the_class_are_kept Examples.derived_dict "Clinical"
              (Examples.derived Examples.p_adds) [Examples.Base_spec] _ eq_refl)
    as (Hc & Hb & _).
  split; [apply (Hc Examples.b)|apply (Hb Examples.p_adds)]; left.
Defined.

(** X15: an entity of a base is inherited when neither the class body nor a
    base in front of that one in the chain declares its name: the spec that
    [make_class] returns then gives the entity of the base for that name
    (the names within the base being distinct).  This holds for column specs,
    pipeline builders, parameters, switches, checks and subanalyses. *)
Theorem nearest_base_declaration_is_inherited (klass_dict : list (string * bool))
    (space' : string) (cm : Components) (front back : list AnalysisSpec)
    (base : AnalysisSpec) (spec : AnalysisSpec) :
  make_class klass_dict space' cm (front ++ base :: back) = Ok spec →
  (∀ c, c ∈ column_specs base → NoDup (c_name <$> column_specs base) →
     c_name c ∉ c_name <$> cm_column_specs cm →
     (∀ b, b ∈ front → c_name c ∉ c_name <$> column_specs b) →
     AnalysisSpec.column_spec spec (c_name c) = Ok c) ∧
  (∀ p, p ∈ pipeline_builders base → NoDup (name <$> pipeline_builders base) →
     name p ∉ name <$> cm_pipeline_builders cm →
     (∀ b, b ∈ front → name p ∉ name <$> pipeline_builders b) →
     AnalysisSpec.pipeline_builder spec (name p) = Ok p) ∧
  (∀ p, p ∈ parameters base → NoDup (p_name <$> parameters base) →
     p_name p ∉ p_name <$> cm_parameters cm →
     (∀ b, b ∈ front → p_name p ∉ p_name <$> parameters b) →
     AnalysisSpec.parameter spec (p_name p) = Ok p) ∧
  (∀ s, s ∈ switches base → NoDup (s_name <$> switches base) →
     s_name s ∉ s_name <$> cm_switches cm →
     (∀ b, b ∈ front → s_name s ∉ s_name <$> switches b) →
     AnalysisSpec.switch spec (s_name s) = Ok s) ∧
  (∀ c, c ∈ checks base → NoDup (k_name <$> checks base) →
     k_name c ∉ k_name <$> cm_checks cm →
     (∀ b, b ∈ front → k_name c ∉ k_name <$> checks b) →
     AnalysisSpec.check spec (k_name c) = Ok c) ∧
  (∀ s, s ∈ subanalyses base → NoDup (sa_name <$> subanalyses base) →
     sa_name s ∉ sa_name <$> cm_subanalyses cm →
     (∀ b, b ∈ front → sa_name s ∉ sa_name <$> subanalyses b) →
     AnalysisSpec.subanalysis spec (sa_name s) = Ok s).
Proof.
  intros [-> Hvalid]%make_class_ok.
  apply validate_ok_parts in Hvalid as (H1 & _ & H2 & _ & H3 & H4 & H5 & H6).
  simpl in *.
  apply unique_names_NoDup in H1, H2, H3, H4, H5, H6.
  repeat split; intros x Hx Hbase Hlocal Hfront;
    (apply lookup_in_sorted; [done|by apply inherit_all_nearest]).
Qed.

Lemma nearest_base_declaration_witness :
  AnalysisSpec.column_spec
    (mkAnalysisSpec "Clinical" [Examples.a; Examples.b] [Examples.p_adds] [] [] [] []) "a"
    = Ok Examples.a.
Proof.
  destruct (nearest_base_declaration_is_inherited Examples.derived_dict "Clinical"
              (Examples.derived Examples.p_adds) [] [] Examples.Base_spec _ eq_refl)
    as (Hc & _).
  apply (Hc Examples.a).
  - left.
  - apply NoDup_singleton.
  - simpl. not_in_list.
  - intros b Hb. by apply elem_of_nil in Hb.
Defined.

(** X16: the names of the spec that [make_class] returns are the names that
    the class body declares together with those of its bases, for each of
    the six kinds of entity, and every entity of the spec (column spec,
    pipeline builder, parameter, switch, check or subanalysis) is a
    declaration of the class body or of a base. *)
Theorem names_of_the_returned_spec (klass_dict : list (string * bool))
    (space' : string) (cm : Components) (bases : list AnalysisSpec) (spec : AnalysisSpec) :
  make_class klass_dict space' cm bases = Ok spec →
  (∀ n, n ∈ c_name <$> column_specs spec ↔
        n ∈ c_name <$> cm_column_specs cm ∨
        ∃ base, base ∈ bases ∧ n ∈ c_name <$> column_specs base) ∧
  (∀ n, n ∈ name <$> pipeline_builders spec ↔
        n ∈ name <$> cm_pipeline_builders cm ∨
        ∃ base, base ∈ bases ∧ n ∈ name <$> pipeline_builders base) ∧
  (∀ n, n ∈ p_name <$> parameters spec ↔
        n ∈ p_name <$> cm_parameters cm ∨
        ∃ base, base ∈ bases ∧ n ∈ p_name <$> parameters base) ∧
  (∀ n, n ∈ s_name <$> switches spec ↔
        n ∈ s_name <$> cm_switches cm ∨
        ∃ base, base ∈ bases ∧ n ∈ s_name <$> switches base) ∧
  (∀ n, n ∈ k_name <$> checks spec ↔
        n ∈ k_name <$> cm_checks cm ∨
        ∃ base, base ∈ bases ∧ n ∈ k_name <$> checks base) ∧
  (∀ n, n ∈ sa_name <$> subanalyses spec ↔
        n ∈ sa_name <$> cm_subanalyses cm ∨
        ∃ base, base ∈ bases ∧ n ∈ sa_name <$> subanalyses base) ∧
  (∀ c, c ∈ column_specs spec →
        c ∈ cm_column_specs cm ∨ ∃ base, base ∈ bases ∧ c ∈ column_specs base) ∧
  (∀ p, p ∈ pipeline_builders spec →
        p ∈ cm_pipeline_builders cm ∨ ∃ base, base ∈ bases ∧ p ∈ pipeline_builders base) ∧
  (∀ p, p ∈ parameters spec →
        p ∈ cm_parameters cm ∨ ∃ base, base ∈ bases ∧ p ∈ parameters base) ∧
  (∀ s, s ∈ switches spec →
        s ∈ cm_switches cm ∨ ∃ base, base ∈ bases ∧ s ∈ switches base) ∧
  (∀ c, c ∈ checks spec →
        c ∈ cm_checks cm ∨ ∃ base, base ∈ bases ∧ c ∈ checks base) ∧
  (∀ s, s ∈ subanalyses spec →
        s ∈ cm_subanalyses cm ∨ ∃ base, base ∈ bases ∧ s ∈ subanalyses base).
Proof.
  intros [-> _]%make_class_ok. simpl.
  repeat (apply conj);
    try (intros n; rewrite sorted_names; apply inherit_all_names);
    intros x Hx; rewrite sorted_perm in Hx; by apply inherit_all_from in Hx.
Qed.

Lemma names_of_the_returned_spec_witness :
  "a" ∈ c_name <$> column_specs
    (mkAnalysisSpec "Clinical" [Examples.a; Examples.b] [Examples.p_adds] [] [] [] []).
Proof.
  destruct (names_of_the_returned_spec Examples.derived_dict "Clinical"
              (Examples.derived Examples.p_adds) [Examples.Base_spec] _ eq_refl)
    as (Hc & _).
  apply Hc. right. exists Examples.Base_spec. split; left.
Defined.

(** ** [_UnresolvedOp.resolve] *)

Lemma map_o_returns {A B} (f : A → outcome B) (l : list A) (ys : list B) :
  map_o f l = Returns ys ↔ Forall2 (λ x y, f x = Returns y) l ys.
Proof.
  revert ys. induction l as [|x l IH]; intros ys; simpl.
  - split; [intros [= <-]; constructor|by intros ->%Forall2_nil_inv_l].
  - split.
    + destruct (f x) as [y|e] eqn:Hx; simpl; [|done].
      destruct (map_o f l) as [ys'|e] eqn:Hl; simpl; [|done].
      intros [= <-]. constructor; [done|by apply IH].
    + intros (y & ys' & Hx & Hl & ->)%Forall2_cons_inv_l.
      rewrite Hx. simpl. apply IH in Hl. by rewrite Hl.
Qed.

Lemma map_o_raises {A B} (f : A → outcome B) (front back : list A) (x : A) (e : body_exn) :
  Forall (λ x, ∃ y, f x = Returns y) front → f x = Raises e →
  map_o f (front ++ x :: back) = Raises e.
Proof.
  intros Hfront Hx. induction Hfront as [|z front [y Hz] _ IH]; simpl.
  - by rewrite Hx.
  - rewrite Hz. simpl. by rewrite IH.
Qed.

Lemma unresolved_ind' (P : _UnresolvedOp → Prop) :
  (∀ op os, Forall (λ x, match x with Unresolved o => P o | _ => True end) os →
            P (mkUnresolvedOp op os)) →
  ∀ u, P u.
Proof.
  intros H. fix IH 1. intros [op os]. apply H.
  induction os as [|x os IHos]; constructor; [|done].
  destruct x; [apply IH|done..].
Qed.

Lemma resolve_operand_returns (column_specs : list ColumnSpec)
    (parameters : list ParameterSpec) (x : UnresolvedOperand) (r : Operand) :
  match x with
  | Unresolved o => o' ← resolve o column_specs parameters; Returns (Nested o')
  | Attribute attr_name => Returns (Plain attr_name)
  | Literal a => Returns (Plain a)
  end = Returns r ↔ resolved_operand column_specs parameters x r.
Proof.
  destruct x as [o|a|a]; simpl.
  - destruct (resolve o column_specs parameters) as [o'|e]; simpl.
    + split; [intros [= <-]; by exists o'|by intros (? & [= <-] & ->)].
    + split; [done|by intros (? & ? & _)].
  - split; [by intros [= <-]|by intros ->].
  - split; [by intros [= <-]|by intros ->].
Qed.

Lemma resolve_operands_returns (column_specs : list ColumnSpec)
    (parameters : list ParameterSpec) (os : list UnresolvedOperand) (resolved : list Operand) :
  map_o (λ operand,
           match operand with
           | Unresolved o => o' ← resolve o column_specs parameters; Returns (Nested o')
           | Attribute attr_name => Returns (Plain attr_name)
           | Literal a => Returns (Plain a)
           end) os = Returns resolved ↔
  Forall2 (resolved_operand column_specs parameters) os resolved.
Proof.
  rewrite map_o_returns. split; intros H; eapply Forall2_impl; try exact H;
    intros x y; by rewrite resolve_operand_returns.
Qed.

Lemma operand_in_spec (operand : Operand) (names : list string) :
  operand_in operand names = true ↔ ∃ s, operand = Plain (AStr s) ∧ s ∈ names.
Proof.
  destruct operand as [[| |s|]|]; simpl;
    try (split; [done|by intros (? & [=] & _)]).
  rewrite bool_decide_eq_true. split; [by exists s|by intros (? & [= ->] & ?)].
Qed.

Lemma resolve_unfold (op : string) (os : list UnresolvedOperand)
    (column_specs : list ColumnSpec) (parameters : list ParameterSpec)
    (resolved : list Operand) :
  Forall2 (resolved_operand column_specs parameters) os resolved →
  resolve (mkUnresolvedOp op os) column_specs parameters =
  (_ ← (if decide (op = "value_of") then
          _ ← lift (assert (length resolved = 1%nat));
          first ← lift (getitem resolved 0);
          if operand_in first (p_name <$> parameters) then Returns ()
          else Raises (NotAParameter (last resolved))
        else if decide (op = "is_provided") then
          _ ← lift (assert (length resolved ≤ 2)%nat);
          first ← lift (getitem resolved 0);
          if operand_in first (c_name <$> column_specs) then Returns ()
          else Raises (NotAColumnSpec (last resolved))
        else Returns ());
   Returns (mkOperation op resolved)).
Proof.
  intros Hos%resolve_operands_returns. simpl. by rewrite Hos.
Qed.

Lemma resolve_returns (op : string) (os : list UnresolvedOperand)
    (column_specs : list ColumnSpec) (parameters : list ParameterSpec) (r : Operation) :
  resolve (mkUnresolvedOp op os) column_specs parameters = Returns r ↔
  ∃ resolved, Forall2 (resolved_operand column_specs parameters) os resolved ∧
    r = mkOperation op resolved ∧
    (op = "value_of" →
       ∃ p, resolved = [Plain (AStr p)] ∧ p ∈ p_name <$> parameters) ∧
    (op = "is_provided" →
       ∃ c rest, resolved = Plain (AStr c) :: rest ∧ (length rest ≤ 1)%nat ∧
                 c ∈ c_name <$> column_specs).
Proof.
  split.
  - intros Hr.
    destruct (map_o (λ operand,
           match operand with
           | Unresolved o => o' ← resolve o column_specs parameters; Returns (Nested o')
           | Attribute attr_name => Returns (Plain attr_name)
           | Literal a => Returns (Plain a)
           end) os) as [resolved|e] eqn:Hos; [|by simpl in Hr; rewrite Hos in Hr].
    apply resolve_operands_returns in Hos.
    rewrite (resolve_unfold _ _ _ _ _ Hos) in Hr.
    exists resolved. split; [done|].
    destruct (decide (op = "value_of")) as [->|Hv].
    + unfold assert in Hr.
      destruct (decide (length resolved = 1%nat)) as [Hlen|]; [|done]. simpl in Hr.
      destruct resolved as [|first [|]]; try done. simpl in Hr.
      destruct (operand_in first (p_name <$> parameters)) eqn:Hin; [|done].
      simpl in Hr. injection Hr as <-.
      apply operand_in_spec in Hin as (p & -> & Hp).
      split; [done|]. split; [by exists p|done].
    + destruct (decide (op = "is_provided")) as [->|Hp].
      * unfold assert in Hr.
        destruct (decide (length resolved ≤ 2)%nat) as [Hlen|]; [|done]. simpl in Hr.
        destruct resolved as [|first rest]; [done|]. simpl in Hr.
        destruct (operand_in first (c_name <$> column_specs)) eqn:Hin; [|done].
        simpl in Hr. injection Hr as <-.
        apply operand_in_spec in Hin as (c & -> & Hc).
        split; [done|]. split; [done|]. intros _. exists c, rest.
        simpl in Hlen. split; [done|]. split; [lia|done].
      * simpl in Hr. injection Hr as <-. done.
  - intros (resolved & Hos & -> & Hv & Hp).
    rewrite (resolve_unfold _ _ _ _ _ Hos).
    destruct (decide (op = "value_of")) as [->|Hnv].
    + destruct (Hv eq_refl) as (p & -> & Hin). simpl.
      by rewrite bool_decide_true.
    + destruct (decide (op = "is_provided")) as [->|Hnp]; [|done].
      destruct (Hp eq_refl) as (c & rest & -> & Hlen & Hin).
      unfold assert. rewrite decide_True by (simpl; lia). simpl.
      by rewrite bool_decide_true.
Qed.

Lemma resolved_node (u : _UnresolvedOp)
    (column_specs : list ColumnSpec) (parameters : list ParameterSpec) :
  ∀ r, resolve u column_specs parameters = Returns r →
  ∀ node, node_of node r →
    (operator node = "value_of" →
       ∃ p, operands node = [Plain (AStr p)] ∧ p ∈ p_name <$> parameters) ∧
    (operator node = "is_provided" →
       ∃ c rest, operands node = Plain (AStr c) :: rest ∧ (length rest ≤ 1)%nat ∧
                 c ∈ c_name <$> column_specs).
Proof.
  induction u as [op os IH] using unresolved_ind'.
  intros r (resolved & Hos & -> & Hv & Hp)%resolve_returns node Hnode.
  inversion Hnode as [|? ? o' Hin Hsub]; subst; [done|].
  simpl in Hin.
  apply list_elem_of_lookup in Hin as [i Hi].
  destruct (Forall2_lookup_r _ _ _ _ _ Hos Hi) as (x & Hx & Hxr).
  rewrite Forall_lookup in IH. specialize (IH i x Hx).
  destruct x as [o|a|a]; simpl in Hxr; [|done..].
  destruct Hxr as (o'' & Ho & [= <-]). by apply (IH o').
Qed.

(** X17: when [resolve] returns, every operation of the resolved expression,
    at any depth, is well formed: a [value_of] has exactly one operand, the
    name of a declared parameter, and an [is_provided] has one or two
    operands, the first of them the name of a declared column. *)
Theorem resolved_condition_is_well_formed (u : _UnresolvedOp)
    (column_specs : list ColumnSpec) (parameters : list ParameterSpec) :
  ∀ r, resolve u column_specs parameters = Returns r →
  ∀ node, node_of node r →
    (operator node = "value_of" →
       ∃ p, operands node = [Plain (AStr p)] ∧ p ∈ p_name <$> parameters) ∧
    (operator node = "is_provided" →
       ∃ c rest, operands node = Plain (AStr c) :: rest ∧ (length rest ≤ 1)%nat ∧
                 c ∈ c_name <$> column_specs).
Proof. apply resolved_node. Qed.

Lemma resolved_condition_witness :
  ∃ p, operands (mkOperation "value_of" [Plain (AStr "mode")]) = [Plain (AStr p)] ∧
       p ∈ p_name <$> [Examples.mode; Examples.threshold].
Proof.
  refine (proj1 (resolved_condition_is_well_formed BodyExamples.mode_is_fast
                   [Examples.out] [Examples.mode; Examples.threshold]
                   Examples.mode_is_fast eq_refl
                   (mkOperation "value_of" [Plain (AStr "mode")]) _) eq_refl).
  eapply node_nested; [|apply node_self]. simpl. left.
Defined.

(** X18: [resolve] returns exactly when each operand resolves and the
    operation itself passes its check, and what it returns has the operator
    of the unresolved operation and, operand by operand, the resolved nested
    operation, the [attr_name] of an attribute, or the literal unchanged. *)
Theorem resolve_returns_exactly_when (u : _UnresolvedOp)
    (column_specs : list ColumnSpec) (parameters : list ParameterSpec) (r : Operation) :
  resolve u column_specs parameters = Returns r ↔
  operator r = u_operator u ∧
  Forall2 (resolved_operand column_specs parameters) (u_operands u) (operands r) ∧
  (u_operator u = "value_of" →
     ∃ p, operands r = [Plain (AStr p)] ∧ p ∈ p_name <$> parameters) ∧
  (u_operator u = "is_provided" →
     ∃ c rest, operands r = Plain (AStr c) :: rest ∧ (length rest ≤ 1)%nat ∧
               c ∈ c_name <$> column_specs).
Proof.
  destruct u as [op os]. rewrite resolve_returns. simpl. split.
  - by intros (resolved & Hos & -> & Hv & Hp).
  - destruct r as [op' resolved]. simpl. intros (-> & Hos & Hv & Hp).
    by exists resolved.
Qed.

(** X19: how [resolve] fails on an operation whose operands resolve.  A
    [value_of] with a number of operands other than one and an [is_provided]
    with more than two raise AssertionError; an [is_provided] without
    operands raises IndexError; a [value_of] whose operand is not the name of
    a declared parameter and an [is_provided] whose first operand is not the
    name of a declared column raise a ValueError, whose message shows the
    last operand (for [is_provided] with two operands, not the one that was
    tested); any other operator is accepted with any operands. *)
Theorem resolve_rejects (op : string) (os : list UnresolvedOperand)
    (column_specs : list ColumnSpec) (parameters : list ParameterSpec)
    (resolved : list Operand) :
  Forall2 (resolved_operand column_specs parameters) os resolved →
  (op = "value_of" → length os ≠ 1%nat →
     resolve (mkUnresolvedOp op os) column_specs parameters = Raises (Exn AssertionError)) ∧
  (op = "value_of" → ∀ x, resolved = [x] →
     (∀ p, x = Plain (AStr p) → p ∉ p_name <$> parameters) →
     resolve (mkUnresolvedOp op os) column_specs parameters =
       Raises (NotAParameter (Some x))) ∧
  (op = "is_provided" → os = [] →
     resolve (mkUnresolvedOp op os) column_specs parameters = Raises (Exn IndexError)) ∧
  (op = "is_provided" → (2 < length os)%nat →
     resolve (mkUnresolvedOp op os) column_specs parameters = Raises (Exn AssertionError)) ∧
  (op = "is_provided" → ∀ x rest, resolved = x :: rest → (length rest ≤ 1)%nat →
     (∀ c, x = Plain (AStr c) → c ∉ c_name <$> column_specs) →
     resolve (mkUnresolvedOp op os) column_specs parameters =
       Raises (NotAColumnSpec (last resolved))) ∧
  (op ≠ "value_of" → op ≠ "is_provided" →
     resolve (mkUnresolvedOp op os) column_specs parameters =
       Returns (mkOperation op resolved)).
Proof.
  intros Hos. pose proof (Forall2_length _ _ _ Hos) as Hlen.
  rewrite (resolve_unfold _ _ _ _ _ Hos).
  assert (∀ x names, (∀ s, x = Plain (AStr s) → s ∉ names) → operand_in x names = false)
    as Hnot.
  { intros x names Hx. destruct (operand_in x names) eqn:Hin; [|done].
    apply operand_in_spec in Hin as (s & -> & Hs). by destruct (Hx s). }
  repeat apply conj.
  - intros -> Hne. simpl. unfold assert. by rewrite decide_False by lia.
  - intros -> x -> Hx. simpl. by rewrite (Hnot _ _ Hx).
  - intros -> ->. apply Forall2_nil_inv_l in Hos as ->. done.
  - intros -> Hlt. simpl. unfold assert. by rewrite decide_False by lia.
  - intros -> x rest -> Hrest Hx. simpl. unfold assert.
    rewrite decide_True by (simpl; lia). simpl. by rewrite (Hnot _ _ Hx).
  - intros Hv Hp. by rewrite !decide_False by done.
Qed.

Lemma resolve_rejects_witness :
  resolve BodyExamples.swapped [Examples.out] [Examples.mode] =
    Raises (NotAColumnSpec (Some (Plain (AStr "out")))).
Proof.
  refine (proj1 (proj2 (proj2 (proj2 (proj2
            (resolve_rejects "is_provided"
               [Literal (AClass Examples.Nifti); Attribute (AStr "out")]
               [Examples.out] [Examples.mode]
               [Plain (AClass Examples.Nifti); Plain (AStr "out")] _)))))
            eq_refl (Plain (AClass Examples.Nifti)) [Plain (AStr "out")] eq_refl _ _).
  - repeat constructor.
  - simpl. lia.
  - intros c Hc. discriminate Hc.
Defined.

(** X20: [resolve] resolves the operands in order and before it looks at the
    operator: the exception of the first nested operation that fails is the
    exception of the whole, whatever the operator and the later operands
    are. *)
Theorem resolve_raises_what_its_first_failing_operand_raises (op : string)
    (front back : list UnresolvedOperand) (o : _UnresolvedOp)
    (column_specs : list ColumnSpec) (parameters : list ParameterSpec) (e : body_exn) :
  Forall (λ x, ∃ r, resolved_operand column_specs parameters x r) front →
  resolve o column_specs parameters = Raises e →
  resolve (mkUnresolvedOp op (front ++ Unresolved o :: back)) column_specs parameters
    = Raises e.
Proof.
  intros Hfront Ho. simpl.
  rewrite (map_o_raises _ front back (Unresolved o) e); [done| |by rewrite Ho].
  eapply Forall_impl; [exact Hfront|].
  intros x [r Hr]. exists r. by apply resolve_operand_returns.
Qed.

Lemma resolve_first_failing_operand_witness :
  resolve (mkUnresolvedOp "and_" [Unresolved BodyExamples.mode_is_fast;
                                  Unresolved BodyExamples.swapped;
                                  Unresolved (mkUnresolvedOp "value_of" [])])
    [Examples.out] [Examples.mode]
  = Raises (NotAColumnSpec (Some (Plain (AStr "out")))).
Proof.
  refine (resolve_raises_what_its_first_failing_operand_raises "and_"
            [Unresolved BodyExamples.mode_is_fast]
            [Unresolved (mkUnresolvedOp "value_of" [])]
            BodyExamples.swapped [Examples.out] [Examples.mode] _ _ eq_refl).
  constructor; [|constructor].
  exists (Nested Examples.mode_is_fast). simpl. by exists Examples.mode_is_fast.
Defined.

(** ** Evaluation of resolved conditions *)

Lemma operation_ind' (P : Operation → Prop) :
  (∀ op os, Forall (λ x, match x with Nested o => P o | Plain _ => True end) os →
            P (mkOperation op os)) →
  ∀ o, P o.
Proof.
  intros H. fix IH 1. intros [op os]. apply H.
  induction os as [|x os IHos]; constructor; [|done].
  destruct x; [done|apply IH].
Qed.

(** The comprehension over the operands raises as soon as one operand has no
    [evaluate] or does not evaluate, whatever the operands in front of it
    evaluate to. *)
Lemma evaluate_operands_raise (om : string → option (list Value → result Value))
    (depth : nat) (h : Heap) (analysis : Value) (dataset : Dataset) (os : list Operand) :
  Exists (λ o, match o with
               | Plain _ => True
               | Nested op => is_ok (evaluate om depth h op analysis dataset) = false
               end) os →
  is_ok ((fix each (os : list Operand) : result (list Value) :=
            match os with
            | [] => Ok []
            | o :: os' =>
                v ← match o with
                     | Plain _ => Raise AttributeError
                     | Nested op => evaluate om depth h op analysis dataset
                     end;
                vs ← each os';
                Ok (v :: vs)
            end) os) = false.
Proof.
  induction os as [|o os IH]; intros Hex; [by apply Exists_nil in Hex|].
  destruct o as [a|op]; [done|].
  destruct (evaluate om depth h op analysis dataset) as [v|e] eqn:Hop; [|done].
  apply Exists_cons in Hex as [Hhead|Htail]; [by rewrite Hop in Hhead|].
  specialize (IH Htail). simpl.
  match goal with
  | H : is_ok ?r = false |- is_ok (mbind _ ?r) = false => by destruct r
  end.
Qed.

Lemma plain_operand_never_evaluates (om : string → option (list Value → result Value))
    (depth : nat) (h : Heap) (analysis : Value) (dataset : Dataset) (op : Operation) :
  (∃ node a, node_of node op ∧ Plain a ∈ operands node) →
  is_ok (evaluate om depth h op analysis dataset) = false.
Proof.
  induction op as [operator os IH] using operation_ind'.
  intros (node & a & Hnode & Ha).
  assert (Exists (λ o, match o with
                       | Plain _ => True
                       | Nested op => is_ok (evaluate om depth h op analysis dataset) = false
                       end) os) as Hex.
  { inversion Hnode as [|? ? o' Hin Hsub]; subst.
    - apply Exists_exists. by exists (Plain a).
    - apply Exists_exists. exists (Nested o'). split; [done|].
      rewrite Forall_forall in IH. apply (IH (Nested o') Hin). by exists node, a. }
  apply (evaluate_operands_raise om depth h analysis dataset) in Hex.
  simpl.
  match goal with
  | H : is_ok ?r = false |- is_ok (mbind _ ?r) = false => by destruct r
  end.
Qed.

(** X8: an [Operation] that has a string, a number or [None] as an operand
    anywhere in its tree never evaluates to a value, whatever the functions
    of the operator module do: every operand is evaluated before the operator
    is looked at, and such an operand has no [evaluate].  So no condition
    that [resolve] returns with a [value_of] or an [is_provided] in it
    evaluates, since their operands are names. *)
Theorem operation_with_plain_operand_never_evaluates
    (om : string → option (list Value → result Value))
    (depth : nat) (h : Heap) (analysis : Value) (dataset : Dataset) (op : Operation) :
  ((∃ node a, node_of node op ∧ Plain a ∈ operands node ∧ ∀ c, a ≠ AClass c) →
   ∃ e, evaluate om depth h op analysis dataset = Raise e) ∧
  (∀ u column_specs parameters,
     resolve u column_specs parameters = Returns op →
     (∃ node, node_of node op ∧
              (operator node = "value_of" ∨ operator node = "is_provided")) →
     ∃ e, evaluate om depth h op analysis dataset = Raise e).
Proof.
  assert ((∃ node a, node_of node op ∧ Plain a ∈ operands node) →
          ∃ e, evaluate om depth h op analysis dataset = Raise e) as Hplain.
  { intros Hop%(plain_operand_never_evaluates om depth h analysis dataset).
    destruct (evaluate om depth h op analysis dataset) as [v|e]; [done|by exists e]. }
  split; [intros (node & a & Hnode & Ha & _); apply Hplain; by exists node, a|].
  intros u column_specs parameters Hu (node & Hnode & Hop). apply Hplain.
  destruct (resolved_node u column_specs parameters op Hu node Hnode) as [Hv Hp].
  destruct Hop as [Hop|Hop].
  - destruct (Hv Hop) as (p & Hos & _). exists node, (AStr p).
    split; [done|]. rewrite Hos. left.
  - destruct (Hp Hop) as (c & rest & Hos & _). exists node, (AStr c).
    split; [done|]. rewrite Hos. left.
Qed.

Lemma operation_with_plain_operand_witness :
  ∃ e, evaluate Examples.operators 3 Examples.heap_slow Examples.mode_is_fast
         (VRef 1%positive) ∅ = Raise e.
Proof.
  refine (proj1 (operation_with_plain_operand_never_evaluates Examples.operators 3
                   Examples.heap_slow (VRef 1%positive) ∅ Examples.mode_is_fast) _).
  exists (mkOperation "value_of" [Plain (AStr "mode")]), (AStr "mode").
  split; [|split; [left|discriminate]].
  eapply node_nested; [|apply node_self]. simpl. left.
Defined.

(** ** [_get_args_automagically] *)

Lemma next_filter_member {A} (key : A → string) (l : list A) (n : string) :
  n ∈ key <$> l → ∃ x, next (filter (λ y, key y = n) l) = Ok x.
Proof.
  intros (x & -> & Hx)%list_elem_of_fmap.
  destruct (filter (λ y, key y = key x) l) as [|z l'] eqn:Hf; [|by exists z].
  assert (x ∈ filter (λ y, key y = key x) l) as Hin by by apply list_elem_of_filter.
  rewrite Hf in Hin. by apply elem_of_nil in Hin.
Qed.

Lemma args_loop_returns (find_converter : PyClass → PyClass → result unit)
    (column_specs : list ColumnSpec) (parameters : list ParameterSpec) (method : Method)
    (args inputs used_parameters : list string) (r : list string * list string) :
  args_loop find_converter column_specs parameters (annotations method) args
            inputs used_parameters = Returns r ↔
  Forall (accepted find_converter column_specs parameters method) args ∧
  r = (inputs ++ filter (λ arg, arg ∈ c_name <$> column_specs) args,
       used_parameters ++ filter (λ arg, arg ∉ c_name <$> column_specs) args).
Proof.
  revert inputs used_parameters.
  induction args as [|arg args IH]; intros inputs used_parameters; simpl.
  - rewrite !app_nil_r. split; [by intros [= <-]|by intros [_ ->]].
  - destruct (decide (arg ∈ c_name <$> column_specs)) as [Hc|Hc].
    + destruct (next_filter_member c_name column_specs arg Hc) as [cs Hcs].
      rewrite Hcs. simpl.
      rewrite filter_cons_True by done.
      rewrite filter_cons_False by (by intros ?).
      destruct (check_required_type find_converter _ cs) as [[]|e] eqn:Hreq; simpl.
      * rewrite IH, <- app_assoc. simpl. split.
        -- intros [Hargs ->]. split; [|done]. constructor; [|done].
           left. split; [done|]. intros cs' Hcs'. rewrite Hcs in Hcs'. by injection Hcs' as <-.
        -- intros [Hargs ->]. split; [|done]. by apply Forall_cons_1 in Hargs as [_ ?].
      * split; [done|]. intros [Hargs _]. apply Forall_cons_1 in Hargs as [Hacc _].
        destruct Hacc as [[_ Hacc]|[? _]]; [|done].
        specialize (Hacc cs Hcs). rewrite Hreq in Hacc. done.
    + rewrite filter_cons_False by done.
      rewrite filter_cons_True by done.
      destruct (decide (arg ∈ p_name <$> parameters)) as [Hp|Hp].
      * rewrite IH, <- app_assoc. simpl. split.
        -- intros [Hargs ->]. split; [|done]. constructor; [by right|done].
        -- intros [Hargs ->]. split; [|done]. by apply Forall_cons_1 in Hargs as [_ ?].
      * split; [done|]. intros [Hargs _]. apply Forall_cons_1 in Hargs as [Hacc _].
        by destruct Hacc as [[? _]|[_ ?]].
Qed.

(** X21: [_get_args_automagically] returns exactly when every argument of the
    method from [index_start] on is accepted: it names a column whose type
    the annotation of the argument, if it has one, is or converts from, or
    else it names a parameter.  The inputs returned are then the arguments
    that name a column and the parameters the other ones, both in the order
    of the signature; a name of both a column and a parameter is an input.
    The arguments in front of [index_start] are not looked at. *)
Theorem arguments_are_split_into_inputs_and_parameters
    (find_converter : PyClass → PyClass → result unit)
    (column_specs : list ColumnSpec) (parameters : list ParameterSpec) (method : Method)
    (index_start : nat) (r : list string * list string) :
  _get_args_automagically find_converter column_specs parameters method index_start
    = Returns r ↔
  Forall (accepted find_converter column_specs parameters method)
         (drop index_start (signature method)) ∧
  r = (filter (λ arg, arg ∈ c_name <$> column_specs) (drop index_start (signature method)),
       filter (λ arg, arg ∉ c_name <$> column_specs) (drop index_start (signature method))).
Proof. unfold _get_args_automagically. by rewrite args_loop_returns. Qed.

Lemma args_loop_app (find_converter : PyClass → PyClass → result unit)
    (column_specs : list ColumnSpec) (parameters : list ParameterSpec) (method : Method)
    (front rest inputs used_parameters : list string) :
  Forall (accepted find_converter column_specs parameters method) front →
  args_loop find_converter column_specs parameters (annotations method) (front ++ rest)
            inputs used_parameters =
  args_loop find_converter column_specs parameters (annotations method) rest
            (inputs ++ filter (λ arg, arg ∈ c_name <$> column_specs) front)
            (used_parameters ++ filter (λ arg, arg ∉ c_name <$> column_specs) front).
Proof.
  intros Hfront. revert inputs used_parameters.
  induction Hfront as [|arg front Hacc _ IH]; intros inputs used_parameters; simpl.
  - by rewrite !app_nil_r.
  - destruct Hacc as [[Hc Hreq]|[Hc Hp]].
    + rewrite decide_True by done.
      destruct (next_filter_member c_name column_specs arg Hc) as [cs Hcs].
      rewrite Hcs. simpl. rewrite (Hreq cs Hcs). simpl.
      rewrite filter_cons_True by done. rewrite filter_cons_False by (by intros ?).
      rewrite IH, <- app_assoc. done.
    + rewrite decide_False by done. rewrite decide_True by done.
      rewrite filter_cons_False by done. rewrite filter_cons_True by done.
      rewrite IH, <- app_assoc. done.
Qed.

(** X22: [_get_args_automagically] stops at the first argument, from
    [index_start] on, that it does not accept.  An argument that names
    neither a column nor a parameter raises the design error that shows this
    argument, and an input whose annotation does not fit the type of its
    column raises what the check of the annotation raises; the arguments
    behind it are not looked at. *)
Theorem first_argument_not_accepted_raises
    (find_converter : PyClass → PyClass → result unit)
    (column_specs : list ColumnSpec) (parameters : list ParameterSpec) (method : Method)
    (index_start : nat) (front back : list string) (arg : string) :
  drop index_start (signature method) = front ++ arg :: back →
  Forall (accepted find_converter column_specs parameters method) front →
  (arg ∉ c_name <$> column_specs → arg ∉ p_name <$> parameters →
     _get_args_automagically find_converter column_specs parameters method index_start
       = Raises (UnrecognisedArgument arg)) ∧
  (∀ column_spec e,
     next (filter (λ c, c_name c = arg) column_specs) = Ok column_spec →
     check_required_type find_converter (default ANone (annotations method !! arg))
       column_spec = Raises e →
     _get_args_automagically find_converter column_specs parameters method index_start
       = Raises e).
Proof.
  intros Hargs Hfront. unfold _get_args_automagically.
  rewrite Hargs, (args_loop_app _ _ _ _ _ _ _ _ Hfront). simpl. split.
  - intros Hc Hp. by rewrite !decide_False by done.
  - intros cs e Hcs Hreq.
    assert (arg ∈ c_name <$> column_specs) as Hc.
    { destruct (filter (λ c, c_name c = arg) column_specs) as [|x l] eqn:Hf; [done|].
      injection Hcs as ->.
      assert (cs ∈ filter (λ c, c_name c = arg) column_specs) as Hin
        by (rewrite Hf; left).
      apply list_elem_of_filter in Hin as [<- Hin]. by apply list_elem_of_fmap_2. }
    rewrite decide_True by done. rewrite Hcs. simpl. by rewrite Hreq.
Qed.

Lemma first_argument_not_accepted_witness :
  _get_args_automagically MethodExamples.no_converter [Examples.out]
    [Examples.mode] MethodExamples.B 2 = Raises (UnrecognisedArgument "extra").
Proof.
  refine (proj1 (first_argument_not_accepted_raises MethodExamples.no_converter
                   [Examples.out] [Examples.mode] MethodExamples.B 2
                   ["out"; "mode"] [] "extra" eq_refl _) _ _).
  - constructor; [|constructor; [|constructor]].
    + left. split; [left|]. intros cs [= <-]. reflexivity.
    + right. split; [|left]. simpl. not_in_list.
  - simpl. not_in_list.
  - simpl. not_in_list.
Defined.

(** ** Declared constraints of a parameter *)




(** ** The mappings of a subanalysis *)

Lemma ltb_irrefl (a : string) : String.ltb a a = false.
Proof.
  destruct (String.ltb a a) eqn:Hlt; [|done]. by apply ltb_leb in Hlt as [_ ?].
Qed.

Lemma ltb_total (a b : string) :
  String.ltb a b = false → String.ltb b a = false → a = b.
Proof.
  unfold String.ltb. rewrite (String.compare_antisym a b).
  destruct (b ?= a)%string eqn:Hc; simpl; try done.
  intros _ _. symmetry. by apply String.compare_eq_iff.
Qed.

Lemma pair_ltb_trans (x y z : string * string) :
  pair_ltb x y = true → pair_ltb y z = true → pair_ltb x z = true.
Proof.
  unfold pair_ltb. destruct x as [x1 x2], y as [y1 y2], z as [z1 z2]. simpl.
  repeat case_decide; subst; try congruence; intros Hlt1 Hlt2; try done;
    try (by eapply ltb_trans).
  pose proof (ltb_trans _ _ _ Hlt1 Hlt2) as Hlt3. by rewrite ltb_irrefl in Hlt3.
Qed.

Lemma pair_ltb_total (x y : string * string) :
  pair_ltb x y = false → pair_ltb y x = false → x = y.
Proof.
  unfold pair_ltb. destruct x as [x1 x2], y as [y1 y2]. simpl.
  repeat case_decide; subst; try congruence; intros Hlt1 Hlt2.
  - by rewrite (ltb_total _ _ Hlt1 Hlt2).
  - by rewrite (ltb_total _ _ Hlt1 Hlt2) in *.
Qed.

Lemma pair_le_trans (x y z : string * string) :
  pair_ltb y x = false → pair_ltb z y = false → pair_ltb z x = false.
Proof.
  intros Hxy Hyz. destruct (pair_ltb z x) eqn:Hzx; [|done].
  destruct (pair_ltb y z) eqn:Hyz'.
  - by rewrite (pair_ltb_trans _ _ _ Hyz' Hzx) in Hxy.
  - rewrite (pair_ltb_total _ _ Hyz' Hyz) in Hxy. by rewrite Hzx in Hxy.
Qed.

Lemma insert_pair_perm (x : string * string) (l : list (string * string)) :
  insert_pair x l ≡ₚ x :: l.
Proof.
  induction l as [|y l IH]; simpl; [done|].
  destruct (pair_ltb y x); [|done]. rewrite IH. apply Permutation_swap.
Qed.

Lemma sorted_pairs_perm (l : list (string * string)) : sorted_pairs l ≡ₚ l.
Proof.
  induction l as [|x l IH]; [done|]. unfold sorted_pairs. simpl.
  rewrite insert_pair_perm. by constructor.
Qed.

Lemma insert_pair_ordered (x : string * string) (l : list (string * string)) :
  pairs_ordered l → pairs_ordered (insert_pair x l).
Proof.
  induction l as [|y l IH]; simpl; [done|].
  intros [Hy Hl]. destruct (pair_ltb y x) eqn:Hlt; simpl.
  - split; [|by apply IH]. rewrite insert_pair_perm. constructor; [|done].
    destruct (pair_ltb x y) eqn:Hxy; [|done].
    pose proof (pair_ltb_trans _ _ _ Hlt Hxy) as Hyy.
    unfold pair_ltb in Hyy. rewrite decide_True in Hyy by done.
    by rewrite ltb_irrefl in Hyy.
  - split; [|done]. constructor; [done|].
    eapply Forall_impl; [exact Hy|]. intros z Hz. simpl in Hz.
    by apply (pair_le_trans x y z).
Qed.

Lemma sorted_pairs_ordered (l : list (string * string)) : pairs_ordered (sorted_pairs l).
Proof.
  induction l as [|x l IH]; [done|]. unfold sorted_pairs. simpl.
  by apply insert_pair_ordered.
Qed.

Lemma first_of_ordered_is_least (l : list (string * string)) (nm t : string) :
  pairs_ordered l → next (snd <$> filter (λ m, nm = m.1) l) = Ok t →
  (nm, t) ∈ l ∧ ∀ t', (nm, t') ∈ l → String.ltb t' t = false.
Proof.
  induction l as [|[a b] l IH]; simpl; [done|]. intros [Hhead Hl].
  destruct (decide (nm = a)) as [->|Hne].
  - rewrite filter_cons_True by done. simpl. intros [= <-]. split; [left|].
    intros t' [[= <-]|Hin]%elem_of_cons; [apply ltb_irrefl|].
    rewrite Forall_forall in Hhead. specialize (Hhead _ Hin).
    unfold pair_ltb in Hhead. simpl in Hhead. by rewrite decide_True in Hhead.
  - rewrite filter_cons_False by done. intros Hnext.
    destruct (IH Hl Hnext) as [Hin Hleast]. split; [by right|].
    intros t' [[= ? ?]|Hin']%elem_of_cons; [done|by apply Hleast].
Qed.

Lemma mapping_cases (self : SubanalysisSpec) (nm : string) :
  (mapping self nm = Raise KeyError ∧ ∀ t, (nm, t) ∉ mappings self) ∨
  (∃ t, mapping self nm = Ok t ∧
        next (snd <$> filter (λ m, nm = m.1) (mappings self)) = Ok t).
Proof.
  unfold mapping.
  destruct (filter (λ m, nm = m.1) (mappings self)) as [|[a t] l] eqn:Hf; simpl.
  - left. split; [done|]. intros t Hin.
    assert ((nm, t) ∈ filter (λ m, nm = m.1) (mappings self)) as Hin'
      by by apply list_elem_of_filter.
    rewrite Hf in Hin'. by apply elem_of_nil in Hin'.
  - right. by exists t.
Qed.

Lemma resolved_mappings_spec (attr : SubanalysisAttr) (column_specs : list ColumnSpec)
    (parameters : list ParameterSpec) (nm t : string) :
  (nm, t) ∈ resolved_mappings attr column_specs parameters ↔
  (nm, t) ∈ f_mappings attr ∨
  (∃ c, c ∈ column_specs ∧ c_name c = t ∧ c_mapped_from c = Some (f_name attr, nm)) ∨
  (∃ p, p ∈ parameters ∧ p_name p = t ∧ p_mapped_from p = Some (f_name attr, nm)).
Proof.
  unfold resolved_mappings, chain_names.
  rewrite elem_of_app, list_elem_of_omap. split.
  - intros [?|([n mf] & Hin & Hsome)]; [by left|right].
    simpl in Hsome. destruct mf as [[sub from]|]; [|done]. simpl in Hsome.
    destruct (decide (sub = f_name attr)) as [->|]; [|done].
    injection Hsome as -> ->.
    apply elem_of_app in Hin as [Hin|Hin];
      apply list_elem_of_fmap in Hin as (x & [= -> Hmf] & Hx); [left|right];
      by exists x.
  - intros [?|[(c & Hc & <- & Hmf)|(p & Hp & <- & Hmf)]]; [by left|right..].
    + exists (c_name c, c_mapped_from c). split.
      * apply elem_of_app. left. by apply (list_elem_of_fmap_2 (λ c, (c_name c, c_mapped_from c))).
      * simpl. rewrite Hmf. simpl. by rewrite decide_True.
    + exists (p_name p, p_mapped_from p). split.
      * apply elem_of_app. right. by apply (list_elem_of_fmap_2 (λ p, (p_name p, p_mapped_from p))).
      * simpl. rewrite Hmf. simpl. by rewrite decide_True.
Qed.

(** X24: the mappings of the [SubanalysisSpec] that [make_class] builds for a
    subanalysis field hold the mappings that the field gives and, implicitly,
    one from [nm] to each column or parameter of the class that is mapped
    from [nm] of this subanalysis.  [mapping(nm)] on it raises KeyError
    exactly when there is neither, and otherwise returns one of these
    targets, the least of them in the order of strings. *)
Theorem mapping_of_the_built_subanalysis (attrs_klass : string)
    (column_specs : list ColumnSpec) (parameters : list ParameterSpec)
    (attr : SubanalysisAttr) (nm : string) :
  let self := subanalysis_spec attrs_klass column_specs parameters attr in
  let target t :=
    (nm, t) ∈ f_mappings attr ∨
    (∃ c, c ∈ column_specs ∧ c_name c = t ∧ c_mapped_from c = Some (f_name attr, nm)) ∨
    (∃ p, p ∈ parameters ∧ p_name p = t ∧ p_mapped_from p = Some (f_name attr, nm)) in
  (mapping self nm = Raise KeyError ↔ ∀ t, ¬ target t) ∧
  (∀ t, mapping self nm = Ok t → target t ∧ ∀ t', target t' → String.leb t t' = true) ∧
  (∀ t', target t' → ∃ t, mapping self nm = Ok t).
Proof.
  intros self target.
  assert (∀ t, (nm, t) ∈ mappings self ↔ target t) as Hmem.
  { intros t. unfold self, subanalysis_spec. simpl.
    rewrite sorted_pairs_perm. apply resolved_mappings_spec. }
  assert (pairs_ordered (mappings self)) as Hord by apply sorted_pairs_ordered.
  destruct (mapping_cases self nm) as [[Hm Hnone]|(t & Hm & Hnext)]; rewrite Hm.
  - repeat apply conj.
    + intros _ t Ht. by apply (Hnone t), Hmem.
    + done.
    + done.
    + intros t' Ht'. by destruct (Hnone t'); apply Hmem.
  - destruct (first_of_ordered_is_least _ _ _ Hord Hnext) as [Hin Hleast].
    repeat apply conj.
    + done.
    + intros Hno. by destruct (Hno t); apply Hmem.
    + intros ? [= <-]. split; [by apply Hmem|].
      intros t' Ht'%Hmem. specialize (Hleast t' Ht').
      destruct (String.leb t t') eqn:Hle; [done|].
      apply ltb_of_not_leb in Hle. by rewrite Hle in Hleast.
    + intros _ _. by exists t.
Qed.

(** ** Data frequencies *)

Lemma testbit_double (a n : Z) :
  0 ≤ n → Z.testbit (2 * a) n = if decide (n = 0) then false else Z.testbit a (n - 1).
Proof.
  intros Hn. destruct (decide (n = 0)) as [->|Hne].
  - apply Z.testbit_even_0.
  - replace n with (Z.succ (n - 1)) at 1 by lia. apply Z.testbit_even_succ. lia.
Qed.

Lemma testbit_double_succ (a n : Z) :
  0 ≤ n → Z.testbit (2 * a + 1) n = if decide (n = 0) then true else Z.testbit a (n - 1).
Proof.
  intros Hn. destruct (decide (n = 0)) as [->|Hne].
  - apply Z.testbit_odd_0.
  - replace n with (Z.succ (n - 1)) at 1 by lia. apply Z.testbit_odd_succ. lia.
Qed.

Lemma land_even_odd (a b : Z) : Z.land (2 * a) (2 * b + 1) = 2 * Z.land a b.
Proof.
  apply Z.bits_inj'. intros n Hn.
  rewrite Z.land_spec, !testbit_double, testbit_double_succ by done.
  destruct (decide (n = 0)); [done|]. by rewrite Z.land_spec.
Qed.

Lemma land_odd_even (a : Z) : Z.land (2 * a + 1) (2 * a) = 2 * a.
Proof.
  apply Z.bits_inj'. intros n Hn.
  rewrite Z.land_spec, !testbit_double, testbit_double_succ by done.
  destruct (decide (n = 0)); [done|]. by rewrite andb_diag.
Qed.

Lemma lxor_even_even (a b : Z) : Z.lxor (2 * a) (2 * b) = 2 * Z.lxor a b.
Proof.
  apply Z.bits_inj'. intros n Hn.
  rewrite Z.lxor_spec, !testbit_double by done.
  destruct (decide (n = 0)); [done|]. by rewrite Z.lxor_spec.
Qed.

Lemma lxor_even_odd (a : Z) : Z.lxor (2 * a) (2 * a + 1) = 1.
Proof.
  apply Z.bits_inj'. intros n Hn.
  rewrite Z.lxor_spec, !testbit_double, testbit_double_succ by done.
  change 1 with (2 * 0 + 1). rewrite testbit_double_succ by done.
  destruct (decide (n = 0)); [done|]. rewrite xorb_nilpotent. by rewrite Z.testbit_0_l.
Qed.

Lemma lowest_bit (p : positive) :
  ∃ k, 0 ≤ k ∧
    Z.lxor (Z.land (Z.pos p) (Z.pos p - 1)) (Z.pos p) = 2 ^ k ∧
    Z.land (Z.pos p) (Z.pos p - 1) = Z.pos p - 2 ^ k ∧
    Z.testbit (Z.pos p) k = true ∧
    (∀ j, 0 ≤ j < k → Z.testbit (Z.pos p) j = false) ∧
    Z.testbit (Z.land (Z.pos p) (Z.pos p - 1)) k = false ∧
    (∀ j, 0 ≤ j → j ≠ k →
       Z.testbit (Z.land (Z.pos p) (Z.pos p - 1)) j = Z.testbit (Z.pos p) j).
Proof.
  induction p as [q _|q IH|].
  - exists 0. rewrite Pos2Z.inj_xI.
    replace (2 * Z.pos q + 1 - 1) with (2 * Z.pos q) by lia.
    rewrite land_odd_even, lxor_even_odd.
    repeat apply conj; [done|done|simpl; lia|apply Z.testbit_odd_0|lia|apply Z.testbit_even_0|].
    intros j Hj Hne. rewrite testbit_double, testbit_double_succ by done.
    by rewrite !decide_False by done.
  - destruct IH as (k & Hk & Hx & Hw & Hbit & Hlow & Hclear & Hrest).
    exists (k + 1). rewrite Pos2Z.inj_xO.
    replace (2 * Z.pos q - 1) with (2 * (Z.pos q - 1) + 1) by lia.
    rewrite land_even_odd, lxor_even_even, Hx.
    replace (2 ^ (k + 1)) with (2 * 2 ^ k) by (rewrite Z.pow_add_r by lia; lia).
    repeat apply conj; [lia|done|rewrite Hw; lia| | | |].
    + rewrite testbit_double by lia. rewrite decide_False by lia.
      by replace (k + 1 - 1) with k by lia.
    + intros j Hj. rewrite testbit_double by lia.
      destruct (decide (j = 0)); [done|]. apply Hlow. lia.
    + rewrite testbit_double by lia. rewrite decide_False by lia.
      by replace (k + 1 - 1) with k by lia.
    + intros j Hj Hne. rewrite !testbit_double by done.
      destruct (decide (j = 0)); [done|]. apply Hrest; lia.
  - exists 0. repeat apply conj; [done|done|done|done|lia|done|]. intros j Hj Hne.
    simpl. rewrite Z.testbit_0_l. symmetry.
    change 1 with (2 * 0 + 1). rewrite testbit_double_succ by done.
    rewrite decide_False by done. apply Z.testbit_0_l.
Qed.

Lemma while_v_spec (fuel : nat) (v : Z) (nonzero : list Z) :
  0 ≤ v → (Z.to_nat v < fuel)%nat →
  ∃ bits, while_v fuel v nonzero = Done (nonzero ++ bits) ∧ digits_of v bits.
Proof.
  revert v nonzero. induction fuel as [|fuel IH]; intros v nonzero Hv Hfuel; [lia|].
  simpl. destruct (decide (v ≠ 0)) as [Hne|Heq].
  - destruct v as [|p|p]; [done| |lia].
    destruct (lowest_bit p) as (k & Hk & Hx & Hw & Hbit & Hlow & Hclear & Hrest).
    assert (0 < 2 ^ k) as Hpow by (apply Z.pow_pos_nonneg; lia).
    assert (0 ≤ Z.land (Z.pos p) (Z.pos p - 1)) as Hw0 by (apply Z.land_nonneg; lia).
    destruct (IH (Z.land (Z.pos p) (Z.pos p - 1)) (nonzero ++ [2 ^ k]) Hw0)
      as (rest & Hrun & Hasc & Hbits & Hall & Hsum); [lia|].
    rewrite Hx, Hrun, <- app_assoc. exists (2 ^ k :: rest). split; [done|].
    assert (∀ b, b ∈ rest → ∃ j, k < j ∧ b = 2 ^ j ∧ Z.testbit (Z.pos p) j = true) as Hup.
    { intros b Hb. rewrite Forall_forall in Hbits.
      destruct (Hbits b Hb) as (j & Hj & -> & Hbj). exists j.
      destruct (decide (j = k)) as [->|Hjk]; [by rewrite Hclear in Hbj|].
      rewrite Hrest in Hbj by done.
      destruct (decide (j < k)) as [Hlt|]; [|split; [lia|done]].
      rewrite Hlow in Hbj by lia. done. }
    repeat apply conj.
    + apply Forall_forall. intros b Hb. destruct (Hup b Hb) as (j & Hj & -> & _).
      apply Z.pow_lt_mono_r; lia.
    + done.
    + constructor; [by exists k|]. apply Forall_forall. intros b Hb.
      destruct (Hup b Hb) as (j & Hj & -> & Hbj). exists j. split; [lia|done].
    + intros j Hj Hbj. destruct (decide (j = k)) as [->|Hjk]; [left|right].
      apply Hall; [done|]. by rewrite Hrest.
    + unfold total in *. simpl. rewrite Hsum, Hw. lia.
  - assert (v = 0) as -> by (destruct (decide (v = 0)); [done|by destruct Heq]).
    exists []. rewrite app_nil_r. split; [done|].
    repeat apply conj; [done|done| |done].
    intros k _ Hk. by rewrite Z.testbit_0_l in Hk.
Qed.

(** X25: for a value that is not negative, [_nonzero_bits] leaves its loop
    (after at most as many iterations as the value) and returns the powers of
    two of the binary expansion of the value: each item is a power of two
    whose bit is set in the value, each set bit has its item, the items come
    in increasing order, and they add up to the value. *)
Theorem nonzero_bits_are_the_binary_digits (fuel : nat) (v : Z) :
  0 ≤ v → (Z.to_nat v < fuel)%nat →
  ∃ bits, _nonzero_bits fuel v = Done bits ∧
    ascending bits ∧
    Forall (λ b, ∃ k, 0 ≤ k ∧ b = 2 ^ k ∧ Z.testbit v k = true) bits ∧
    (∀ k, 0 ≤ k → Z.testbit v k = true → 2 ^ k ∈ bits) ∧
    total bits = v.
Proof. intros Hv Hfuel. apply (while_v_spec fuel v [] Hv Hfuel). Qed.

Lemma nonzero_bits_witness :
  _nonzero_bits 7 6 = Done [2; 4].
Proof.
  destruct (nonzero_bits_are_the_binary_digits 7 6) as (bits & Hrun & _); [lia|lia|].
  rewrite Hrun. vm_compute in Hrun. by injection Hrun as <-.
Defined.

Lemma while_v_negative (fuel : nat) (v : Z) (nonzero : list Z) :
  v < 0 → while_v fuel v nonzero = Running.
Proof.
  revert v nonzero. induction fuel as [|fuel IH]; intros v nonzero Hv; [done|].
  simpl. rewrite decide_True by lia. apply IH. apply Z.land_neg. lia.
Qed.

(** X26: for a negative value the loop of [_nonzero_bits] never ends,
    whatever the number of iterations it is given, and so neither
    [is_basis] nor [layers] returns for a member with a negative value. *)
Theorem negative_value_never_leaves_the_loop (fuel : nat) (cls : list Member)
    (self : Member) :
  self.2 < 0 →
  _nonzero_bits fuel self.2 = Running ∧
  is_basis fuel self = Running ∧
  layers fuel cls self = Running.
Proof.
  intros Hv. unfold layers, is_basis, _nonzero_bits.
  by rewrite (while_v_negative fuel self.2 [] Hv).
Qed.

Lemma negative_value_witness : _nonzero_bits 100 (-1) = Running.
Proof.
  refine (proj1 (negative_value_never_leaves_the_loop 100 [] ("minus", -1) _)).
  simpl. lia.
Defined.

Lemma digits_of_power (k : Z) (bits : list Z) :
  0 ≤ k → digits_of (2 ^ k) bits → bits = [2 ^ k].
Proof.
  intros Hk (Hasc & Hbits & Hall & _).
  assert (∀ b, b ∈ bits → b = 2 ^ k) as Heq.
  { intros b Hb. rewrite Forall_forall in Hbits.
    destruct (Hbits b Hb) as (j & Hj & -> & Hbj).
    rewrite Z.pow2_bits_eqb in Hbj by done. apply Z.eqb_eq in Hbj. by subst. }
  assert (2 ^ k ∈ bits) as Hin.
  { apply Hall; [done|]. rewrite Z.pow2_bits_eqb by done. by apply Z.eqb_eq. }
  destruct bits as [|b [|b' rest]]; [by apply elem_of_nil in Hin| |].
  - by rewrite (Heq b) by left.
  - destruct Hasc as [Hlt _]. apply Forall_cons_1 in Hlt as [Hlt _].
    rewrite (Heq b), (Heq b') in Hlt by (repeat constructor). lia.
Qed.

(** X27: a member with a value that is not negative is a basis exactly when
    its value is a power of two. *)
Theorem basis_is_a_power_of_two (fuel : nat) (self : Member) :
  0 ≤ self.2 → (Z.to_nat self.2 < fuel)%nat →
  ∃ b, is_basis fuel self = Done b ∧ (b = true ↔ ∃ k, 0 ≤ k ∧ self.2 = 2 ^ k).
Proof.
  intros Hv Hfuel. unfold is_basis, _nonzero_bits.
  destruct (while_v_spec fuel self.2 [] Hv Hfuel) as (bits & -> & Hdigits).
  simpl. eexists. split; [done|]. rewrite bool_decide_eq_true. split.
  - destruct Hdigits as (_ & Hbits & _ & Hsum).
    destruct bits as [|b [|]]; try done. intros _.
    apply Forall_cons_1 in Hbits as [(k & Hk & -> & _) _]. exists k.
    split; [done|]. unfold total in Hsum. simpl in Hsum. lia.
  - intros (k & Hk & Heq). rewrite Heq in Hdigits.
    by rewrite (digits_of_power k bits Hk Hdigits).
Qed.

Lemma sorted_z_ascending (l : list Z) : ascending l → sorted_z l = l.
Proof.
  induction l as [|x l IH]; [done|]. intros [Hx Hl]. unfold sorted_z. simpl.
  fold (sorted_z l). rewrite (IH Hl). destruct l as [|y l']; [done|]. simpl.
  apply Forall_cons_1 in Hx as [Hxy _]. by rewrite bool_decide_false by lia.
Qed.

Lemma map_run_done {A B} (f : A → run B) (l : list A) (ys : list B) :
  map_run f l = Done ys ↔ Forall2 (λ x y, f x = Done y) l ys.
Proof.
  revert ys. induction l as [|x l IH]; intros ys; simpl.
  - split; [intros [= <-]; constructor|by intros ->%Forall2_nil_inv_l].
  - split.
    + destruct (f x) as [y| |] eqn:Hx; simpl; [|done..].
      destruct (map_run f l) as [ys'| |] eqn:Hl; simpl; [|done..].
      intros [= <-]. constructor; [done|by apply IH].
    + intros (y & ys' & Hx & Hl & ->)%Forall2_cons_inv_l.
      rewrite Hx. simpl. apply IH in Hl. by rewrite Hl.
Qed.

Lemma by_value_done (cls : list Member) (value : Z) (m : Member) :
  by_value cls value = Done m → m ∈ cls ∧ m.2 = value.
Proof.
  unfold by_value. destruct (filter (λ m, m.2 = value) cls) as [|m' l] eqn:Hf; [done|].
  intros [= <-].
  assert (m' ∈ filter (λ m, m.2 = value) cls) as Hin by (rewrite Hf; left).
  by apply list_elem_of_filter in Hin as [? ?].
Qed.

Lemma by_value_member (cls : list Member) (value : Z) :
  value ∈ snd <$> cls → ∃ m, by_value cls value = Done m.
Proof.
  intros (m & -> & Hm)%list_elem_of_fmap. unfold by_value.
  destruct (filter (λ m', m'.2 = m.2) cls) as [|m' l] eqn:Hf; [|by exists m'].
  assert (m ∈ filter (λ m', m'.2 = m.2) cls) as Hin by by apply list_elem_of_filter.
  rewrite Hf in Hin. by apply elem_of_nil in Hin.
Qed.

Lemma map_by_value_done (cls : list Member) (bits : list Z) (ls : list Member) :
  map_run (by_value cls) bits = Done ls → snd <$> ls = bits ∧ Forall (λ m, m ∈ cls) ls.
Proof.
  intros Hrun%map_run_done. induction Hrun as [|b m bs ms Hm _ IH]; [done|].
  apply by_value_done in Hm as [Hm <-]. destruct IH as [<- IH].
  split; [done|by constructor].
Qed.

(** X28: the layers of a member with a value that is not negative.  When
    [layers] returns, the members it returns are members of the enum whose
    values are the powers of two of the binary expansion of the value: they
    come in increasing order of their value (the sort changes nothing), there
    is one for each set bit, and their values add up to the value.  It
    returns exactly when the enum has a member for each set bit of the
    value. *)
Theorem layers_are_the_binary_digits (fuel : nat) (cls : list Member) (self : Member) :
  0 ≤ self.2 → (Z.to_nat self.2 < fuel)%nat →
  (∀ ls, layers fuel cls self = Done ls →
     Forall (λ m, m ∈ cls ∧ ∃ k, 0 ≤ k ∧ m.2 = 2 ^ k ∧ Z.testbit self.2 k = true) ls ∧
     ascending (snd <$> ls) ∧
     (∀ k, 0 ≤ k → Z.testbit self.2 k = true → 2 ^ k ∈ snd <$> ls) ∧
     total (snd <$> ls) = self.2) ∧
  ((∃ ls, layers fuel cls self = Done ls) ↔
   ∀ k, 0 ≤ k → Z.testbit self.2 k = true → 2 ^ k ∈ snd <$> cls).
Proof.
  intros Hv Hfuel. unfold layers, _nonzero_bits.
  destruct (while_v_spec fuel self.2 [] Hv Hfuel) as (bits & -> & Hdigits).
  simpl. destruct Hdigits as (Hasc & Hbits & Hall & Hsum).
  rewrite (sorted_z_ascending bits Hasc).
  pose proof (map_by_value_done cls bits) as Hls.
  split.
  - intros ls Hrun. destruct (Hls ls Hrun) as [Hsnd Hcls]. rewrite Hsnd.
    split; [|done]. apply Forall_forall. intros m Hm. split.
    + rewrite Forall_forall in Hcls. by apply Hcls.
    + rewrite Forall_forall in Hbits. apply Hbits. rewrite <- Hsnd.
      by apply list_elem_of_fmap_2.
  - split.
    + intros [ls Hrun] k Hk Hbit. destruct (Hls ls Hrun) as [Hsnd Hcls].
      specialize (Hall k Hk Hbit). rewrite <- Hsnd in Hall.
      apply list_elem_of_fmap in Hall as (m & -> & Hm).
      apply list_elem_of_fmap_2. rewrite Forall_forall in Hcls. by apply Hcls.
    + intros Hmem.
      assert (Forall (λ b, b ∈ snd <$> cls) bits) as Hin.
      { eapply Forall_impl; [exact Hbits|]. intros b (k & Hk & -> & Hbit). by apply Hmem. }
      clear -Hin. induction Hin as [|b bs Hb _ [ms IH]]; [by exists []|].
      destruct (by_value_member cls b Hb) as [m Hm].
      exists (m :: ms). simpl. rewrite Hm. simpl. by rewrite IH.
Qed.

Lemma basis_witness :
  ∃ b, is_basis 3 ClinicalStudy.subject = Done b ∧
       (b = true ↔ ∃ k, 0 ≤ k ∧ ClinicalStudy.subject.2 = 2 ^ k).
Proof. apply (basis_is_a_power_of_two 3 ClinicalStudy.subject); simpl; lia. Defined.

Lemma layers_witness :
  total (snd <$> [ClinicalStudy.timepoint; ClinicalStudy.subject; ClinicalStudy.group])
    = ClinicalStudy.session.2.
Proof.
  refine (proj2 (proj2 (proj2 (proj1
            (layers_are_the_binary_digits 8 ClinicalStudy.members ClinicalStudy.session
               _ _)
            [ClinicalStudy.timepoint; ClinicalStudy.subject; ClinicalStudy.group]
            eq_refl)))); simpl; lia.
Defined.
